(** * whisper-clipboard: the recording lifecycle of the two audio recorders

    A shallow embedding of
    - [src/whisperclipboard/manual_audio_recorder.py] (class
      [ManualAudioRecorder]: module [Manual] below, its clean-up and its
      list of devices in module [Upkeep]),
    - [src/audio_recorder.py] (class [AudioRecorder]: module [Vad] below,
      [start_listening] and [cleanup] in module [Listening], NumPy's
      arithmetic on [float32] samples in module [Float32]),
    - the hotkey path of [src/whisperclipboard/recorder.py] (class
      [VoiceRecorder], module [Voice]),
    - [src/hotkey_handler.py] (class [HotkeyHandler], module [Hotkeys]),
      and
    - the choice and the loading of the model in
      [src/whisperclipboard/device_detector.py] and
      [src/whisperclipboard/transcriber.py] (module [Detector]),
    followed by the properties of the recording controller, the capture
    loop and the voice-activity detector, and then of clean-up, of the
    device list, of the hold-to-record front end, of the hotkeys and of
    the choice of the model.

    Conventions of the embedding.
    - The attributes of a recorder object are the fields of a record; a
      method is a function in a small state-and-trace monad over the
      object (and, for the manual recorder, over the capture threads and
      the microphone).
    - Everything a method does to the outside is recorded, in program
      order, in a trace of events ([effect]): log records, thread starts and joins,
      and callback dispatches.  A dispatch says how the callback was
      handed over: called directly on the running thread, or made the
      target of a new [threading.Thread].
    - A capture thread is a program counter stepped by [_recording_worker]; the
      microphone is the queue of results that [stream.read] has not yet
      returned, a read waits while the queue is empty, and the device
      adds to the queue as time passes (action [Hear]).
    - Samples are [float32] in the source; the manual recorder only moves
      them, so its model takes any sample type, and the lifecycle of the
      detector is stated over an abstract arithmetic ([Numeric]); what
      the detector answers is stated over binary32 and binary64.
    - A callback is an opaque callable that returns or raises; it does
      not call back into the recorder.
    - Left out: the DEBUG listing of devices and the redirection of
      stderr around the PyAudio calls; of [VoiceRecorder], what does not
      touch the hotkey or the audio recorder (configuration, transcriber,
      clipboard, the interactive modes). *)

From Stdlib Require Import List ZArith QArith Bool Arith Lia Floats Uint63.
From Stdlib Require Import Qpower Lqa.
From Stdlib Require Import Floats.SpecFloat.
From Stdlib Require Ascii String Sorted.
Import ListNotations.
Import String.StringSyntax.
Delimit Scope string_scope with string.

Close Scope Q_scope.
Set Implicit Arguments.

(** ** Vocabulary shared by the two recorders *)

(** Levels of the [logging] module that the recorders use. *)
Inductive level : Type := INFO | WARNING | ERROR.

(** What a caller-supplied callback does when it runs. *)
Inductive behaviour : Type := Returns | Raises.

(** A callable stored in [on_recording_start] / [on_recording_stop]. *)
Record callback : Type := Callback { cb_id : nat; cb_does : behaviour }.

(** Which lifecycle hook is dispatched. *)
Inductive hook : Type := OnStart | OnStop.

(** How a callback is handed over: [cb(...)] on the running thread, or
    [threading.Thread(target=cb, ..., daemon=True).start()]. *)
Inductive dispatch : Type := Direct | DaemonThread.

(** Python's true division [a / b] on integers, as the exact quotient
    (Python rounds it to a double); [ZeroDivisionError] is [None]. *)
Definition py_truediv (a b : Z) : option Q :=
  if (b =? 0)%Z then None else Some (inject_Z a / inject_Z b)%Q.

(** [np.concatenate] on a list of one-dimensional arrays. *)
Definition np_concatenate {A : Type} (chunks : list (list A)) : list A :=
  concat chunks.

(** What a method does to the outside, in program order.  [message] is
    the module's own type of log records. *)
Inductive effect (message sample : Type) : Type :=
| Log (l : level) (m : message)
| ThreadStart (t : nat)   (* Thread(target=self._recording_worker).start() *)
| ThreadJoin (t : nat) (finished : bool)
                          (* join(timeout=2.0); did the thread end in time *)
| Invoke (how : dispatch) (h : hook) (cb : callback)
         (arg : option (list sample)).

Arguments Log {message sample} l m.
Arguments ThreadStart {message sample} t.
Arguments ThreadJoin {message sample} t finished.
Arguments Invoke {message sample} how h cb arg.

(** *** The state-and-trace monad of the methods *)

Section Monad.

Context {state ev : Type}.

Definition Eff (A : Type) : Type := state -> A * state * list ev.

Definition ret {A : Type} (a : A) : Eff A := fun s => (a, s, []).

Definition bind {A B : Type} (m : Eff A) (k : A -> Eff B) : Eff B :=
  fun s =>
    let '(a, s1, t1) := m s in
    let '(b, s2, t2) := k a s1 in
    (b, s2, t1 ++ t2).

Definition emit (e : ev) : Eff unit := fun s => (tt, s, [e]).
Definition gets {A : Type} (f : state -> A) : Eff A := fun s => (f s, s, []).
Definition modify (f : state -> state) : Eff unit := fun s => (tt, f s, []).
Definition when (b : bool) (m : Eff unit) : Eff unit := if b then m else ret tt.

End Monad.

Arguments Eff : clear implicits.

Declare Scope monad_scope.
Delimit Scope monad_scope with monad.
Notation "x <- m ;; k" := (bind m (fun x => k))
  (at level 61, m at next level, right associativity) : monad_scope.
Notation "m ;; k" := (bind m (fun _ => k))
  (at level 61, right associativity) : monad_scope.
Open Scope monad_scope.

(** *** Reading a finished call *)

Section Reading.

Context {state ev A : Type}.

Definition value (x : A * state * list ev) : A := fst (fst x).
Definition final (x : A * state * list ev) : state := snd (fst x).
Definition trace (x : A * state * list ev) : list ev := snd x.

End Reading.

(** Is the event a dispatch of hook [h]. *)
Definition dispatches {message sample : Type} (h : hook)
    (e : effect message sample) : bool :=
  match e, h with
  | Invoke _ OnStart _ _, OnStart => true
  | Invoke _ OnStop _ _, OnStop => true
  | _, _ => false
  end.

(** Is the event a dispatch of a callback, a log record, a log record at
    [ERROR]. *)
Definition is_invoke {message sample : Type} (e : effect message sample)
    : bool :=
  match e with Invoke _ _ _ _ => true | _ => false end.

Definition is_log {message sample : Type} (e : effect message sample)
    : bool :=
  match e with Log _ _ => true | _ => false end.

Definition is_error {message sample : Type} (e : effect message sample)
    : bool :=
  match e with Log ERROR _ => true | _ => false end.

(** The event is not a direct call of a callback: a dispatch, if it is
    one, is on a thread of its own. *)
Definition asynchronous {message sample : Type}
    (e : effect message sample) : bool :=
  match e with
  | Invoke Direct _ _ _ => false
  | _ => true
  end.

(** A property of every event that a computation emits, from any state. *)
Definition traces_all {state ev A : Type} (P : ev -> bool)
    (m : Eff state ev A) : Prop :=
  forall s, forallb P (trace (m s)) = true.

(** ** The manual recorder *)

Module Manual.

(** Log records of [manual_audio_recorder.py], by their text. *)
Inductive message : Type :=
| PyAudioInitialized            (* "PyAudio initialized successfully" *)
| DeviceIndexOutOfRange (i : Z) (* "Device index {i} out of range, using default" *)
| FailedToInitialize            (* "Failed to initialize PyAudio: ..." *)
| StreamOpened                  (* "Audio stream opened, starting recording..." *)
| ErrorReadingAudio             (* "Error reading audio data: ..." *)
| ErrorInWorker                 (* "Error in recording worker: ..." *)
| ErrorClosingStream            (* "Error closing stream: ..." *)
| AlreadyRecording              (* "Already recording" *)
| StartingManual                (* "Starting manual recording..." *)
| ErrorInStartCallback          (* "Error in recording start callback: ..." *)
| NotCurrentlyRecording         (* "Not currently recording" *)
| StoppingManual                (* "Stopping manual recording..." *)
| RecordingComplete (samples : nat) (duration : Q)
                                (* "Recording complete: {n} samples ({d:.2f}s)" *)
| ErrorInStopCallback           (* "Error in recording stop callback: ..." *)
| ErrorProcessing               (* "Error processing recorded audio: ..." *)
| NoAudioData                   (* "No audio data recorded" *)
| Cancelling.                   (* "Cancelling recording..." *)

(** Thread identifiers: the position of the thread in [threads]. *)
Definition tid : Type := nat.

Section Recorder.

Context {sample : Type}.

(** One chunk as [np.frombuffer(audio_data, dtype=np.float32)] returns it. *)
Abbreviation frame := (list sample).

Abbreviation event := (effect message sample).

(** A stream returned by [pyaudio.open]: whether its [stop_stream()] and
    [close()] return (or raise). *)
Record Stream : Type := { closes : bool }.

(** The [pyaudio.PyAudio()] object, as far as the recorder asks it:
    [open_input i] is [open(..., input=True, input_device_index=i, ...)],
    [None] when it raises. *)
Record PyAudio : Type := {
  get_device_count : Z;
  open_input : option Z -> option Stream
}.

(** The attributes of a [ManualAudioRecorder]. *)
Record recorder : Type := {
  debug_mode : bool;
  sample_rate : Z;
  chunk_size : Z;
  channels : Z;
  device_index : option Z;
  is_recording : bool;
  audio_buffer : list frame;
  recording_thread : option tid;
  stop_recording_event : bool;
  pyaudio : option PyAudio;
  stream : option Stream;
  on_recording_start : option callback;
  on_recording_stop : option callback
}.

Definition set_device_index (v : option Z) (r : recorder) : recorder :=
  {| debug_mode := debug_mode r; sample_rate := sample_rate r;
     chunk_size := chunk_size r; channels := channels r;
     device_index := v; is_recording := is_recording r;
     audio_buffer := audio_buffer r; recording_thread := recording_thread r;
     stop_recording_event := stop_recording_event r; pyaudio := pyaudio r;
     stream := stream r; on_recording_start := on_recording_start r;
     on_recording_stop := on_recording_stop r |}.

Definition set_is_recording (v : bool) (r : recorder) : recorder :=
  {| debug_mode := debug_mode r; sample_rate := sample_rate r;
     chunk_size := chunk_size r; channels := channels r;
     device_index := device_index r; is_recording := v;
     audio_buffer := audio_buffer r; recording_thread := recording_thread r;
     stop_recording_event := stop_recording_event r; pyaudio := pyaudio r;
     stream := stream r; on_recording_start := on_recording_start r;
     on_recording_stop := on_recording_stop r |}.

Definition set_audio_buffer (v : list frame) (r : recorder) : recorder :=
  {| debug_mode := debug_mode r; sample_rate := sample_rate r;
     chunk_size := chunk_size r; channels := channels r;
     device_index := device_index r; is_recording := is_recording r;
     audio_buffer := v; recording_thread := recording_thread r;
     stop_recording_event := stop_recording_event r; pyaudio := pyaudio r;
     stream := stream r; on_recording_start := on_recording_start r;
     on_recording_stop := on_recording_stop r |}.

Definition set_recording_thread (v : option tid) (r : recorder) : recorder :=
  {| debug_mode := debug_mode r; sample_rate := sample_rate r;
     chunk_size := chunk_size r; channels := channels r;
     device_index := device_index r; is_recording := is_recording r;
     audio_buffer := audio_buffer r; recording_thread := v;
     stop_recording_event := stop_recording_event r; pyaudio := pyaudio r;
     stream := stream r; on_recording_start := on_recording_start r;
     on_recording_stop := on_recording_stop r |}.

Definition set_stop_recording_event (v : bool) (r : recorder) : recorder :=
  {| debug_mode := debug_mode r; sample_rate := sample_rate r;
     chunk_size := chunk_size r; channels := channels r;
     device_index := device_index r; is_recording := is_recording r;
     audio_buffer := audio_buffer r; recording_thread := recording_thread r;
     stop_recording_event := v; pyaudio := pyaudio r;
     stream := stream r; on_recording_start := on_recording_start r;
     on_recording_stop := on_recording_stop r |}.

Definition set_pyaudio (v : option PyAudio) (r : recorder) : recorder :=
  {| debug_mode := debug_mode r; sample_rate := sample_rate r;
     chunk_size := chunk_size r; channels := channels r;
     device_index := device_index r; is_recording := is_recording r;
     audio_buffer := audio_buffer r; recording_thread := recording_thread r;
     stop_recording_event := stop_recording_event r; pyaudio := v;
     stream := stream r; on_recording_start := on_recording_start r;
     on_recording_stop := on_recording_stop r |}.

Definition set_stream (v : option Stream) (r : recorder) : recorder :=
  {| debug_mode := debug_mode r; sample_rate := sample_rate r;
     chunk_size := chunk_size r; channels := channels r;
     device_index := device_index r; is_recording := is_recording r;
     audio_buffer := audio_buffer r; recording_thread := recording_thread r;
     stop_recording_event := stop_recording_event r; pyaudio := pyaudio r;
     stream := v; on_recording_start := on_recording_start r;
     on_recording_stop := on_recording_stop r |}.

(** [recorder.on_recording_start = f] and [recorder.on_recording_stop = f],
    as the callers do after constructing the recorder. *)
Definition set_on_recording_start (v : option callback) (r : recorder)
    : recorder :=
  {| debug_mode := debug_mode r; sample_rate := sample_rate r;
     chunk_size := chunk_size r; channels := channels r;
     device_index := device_index r; is_recording := is_recording r;
     audio_buffer := audio_buffer r; recording_thread := recording_thread r;
     stop_recording_event := stop_recording_event r; pyaudio := pyaudio r;
     stream := stream r; on_recording_start := v;
     on_recording_stop := on_recording_stop r |}.

Definition set_on_recording_stop (v : option callback) (r : recorder)
    : recorder :=
  {| debug_mode := debug_mode r; sample_rate := sample_rate r;
     chunk_size := chunk_size r; channels := channels r;
     device_index := device_index r; is_recording := is_recording r;
     audio_buffer := audio_buffer r; recording_thread := recording_thread r;
     stop_recording_event := stop_recording_event r; pyaudio := pyaudio r;
     stream := stream r; on_recording_start := on_recording_start r;
     on_recording_stop := v |}.

(** Where a capture thread stands in [_recording_worker]. *)
Inductive pc : Type :=
| AtOpen      (* started; about to call [self.pyaudio.open] *)
| AtLoop      (* at the [while not self.stop_recording_event.is_set()] test *)
| AtRead      (* test passed; in [self.stream.read] *)
| AtFinally   (* left the loop or the [try]; about to run [finally] *)
| Exited.     (* the thread has ended *)

(** What one pass through the loop body gives: the chunk read, or an
    exception (of the read or of the conversion and its fallback). *)
Inductive reading : Type :=
| Chunk (f : frame)
| ReadError.

(** The recorder object, every thread it has started, and the microphone. *)
Record world : Type := {
  self : recorder;
  threads : list pc;
  mic : list reading
}.

Definition with_self (f : recorder -> recorder) (w : world) : world :=
  {| self := f (self w); threads := threads w; mic := mic w |}.

Fixpoint set_nth {A : Type} (n : nat) (x : A) (l : list A) : list A :=
  match l, n with
  | [], _ => []
  | _ :: l', O => x :: l'
  | y :: l', S n' => y :: set_nth n' x l'
  end.

Definition goto (t : tid) (p : pc) (w : world) : world :=
  {| self := self w; threads := set_nth t p (threads w); mic := mic w |}.

Definition pop_mic (w : world) : world :=
  {| self := self w; threads := threads w; mic := tl (mic w) |}.

Definition spawn (w : world) : tid * world :=
  (length (threads w),
   {| self := self w; threads := threads w ++ [AtOpen]; mic := mic w |}).

(** The methods run over the world and read and write [self]. *)
Definition M (A : Type) : Type := Eff world event A.

Definition get {A : Type} (f : recorder -> A) : M A :=
  gets (fun w => f (self w)).
Definition set (f : recorder -> recorder) : M unit := modify (with_self f).

(** *** [_recording_worker], one step at a time

    [_recording_worker t w] is the next step of thread [t], which runs
    the method of that name; [None] when the thread has ended, was never
    started, or waits in [stream.read] because the device has nothing to
    return yet.  The bytes of a read are taken as already decoded:
    [np.frombuffer] and the [struct.unpack] fallback build the same
    chunk, and the WARNING record of the fallback is left out.  A read
    finds the stream when it ends, not when it begins: it differs from
    the code only when another capture thread has closed the stream in
    between. *)
Definition _recording_worker (t : tid) (w : world) : option (world * list event) :=
  let r := self w in
  match nth_error (threads w) t with
  | None | Some Exited => None
  | Some AtOpen =>
      match pyaudio r with
      | Some pa =>
          match open_input pa (device_index r) with
          | Some s =>
              Some (goto t AtLoop (with_self (set_stream (Some s)) w),
                    if debug_mode r then [Log INFO StreamOpened] else [])
          | None => Some (goto t AtFinally w, [Log ERROR ErrorInWorker])
          end
      | None => Some (goto t AtFinally w, [Log ERROR ErrorInWorker])
      end
  | Some AtLoop =>
      if stop_recording_event r
      then Some (goto t AtFinally w, [])
      else Some (goto t AtRead w, [])
  | Some AtRead =>
      (* the [except Exception] of the loop body, followed by [break] *)
      let broken :=
        if stop_recording_event r then [] else [Log ERROR ErrorReadingAudio] in
      match stream r with
      | None => Some (goto t AtFinally w, broken)
      | Some _ =>
          match mic w with
          | [] => None
          | Chunk f :: _ =>
              Some (goto t AtLoop
                      (with_self (set_audio_buffer (audio_buffer r ++ [f]))
                                 (pop_mic w)),
                    [])
          | ReadError :: _ => Some (goto t AtFinally (pop_mic w), broken)
          end
      end
  | Some AtFinally =>
      match stream r with
      | None => Some (goto t Exited w, [])
      | Some s =>
          if closes s
          then Some (goto t Exited (with_self (set_stream None) w), [])
          else Some (goto t Exited w, [Log ERROR ErrorClosingStream])
      end
  end.

(** Thread [t] runs on its own for at most [fuel] steps. *)
Fixpoint run_thread (fuel : nat) (t : tid) (w : world) : world * list event :=
  match fuel with
  | O => (w, [])
  | S n =>
      match _recording_worker t w with
      | None => (w, [])
      | Some (w1, e1) =>
          let '(w2, e2) := run_thread n t w1 in (w2, e1 ++ e2)
      end
  end.

Definition finished (t : tid) (w : world) : bool :=
  match nth_error (threads w) t with
  | Some Exited => true
  | _ => false
  end.

(** Enough steps for a thread to end or to block, whatever the flag: one
    to open, two for each read the microphone can serve, two to leave. *)
Definition join_fuel (w : world) : nat := 2 * length (mic w) + 3.

(** [self.recording_thread.join(timeout=2.0)]: the thread runs until it
    ends; the timeout strikes when it is stuck in a read that the
    microphone does not serve.  Only the joined thread runs during the
    join: this is the code as long as no capture thread of an earlier
    session is alive. *)
Definition join (t : tid) : M unit :=
  fun w =>
    let '(w1, tr) := run_thread (join_fuel w) t w in
    (tt, w1, tr ++ [ThreadJoin t (finished t w1)]).

(** [threading.Thread(target=self._recording_worker, daemon=True)],
    stored in [self.recording_thread], then [.start()]. *)
Definition start_thread : M unit :=
  fun w =>
    let '(t, w1) := spawn w in
    (tt, with_self (set_recording_thread (Some t)) w1, [ThreadStart t]).

(** [if cb: try: cb(...) except Exception: log]. *)
Definition call (h : hook) (cb : option callback) (arg : option (list sample))
    (on_error : message) : M unit :=
  match cb with
  | None => ret tt
  | Some c =>
      emit (Invoke Direct h c arg) ;;
      match cb_does c with
      | Returns => ret tt
      | Raises => emit (Log ERROR on_error)
      end
  end.

(** *** The methods of [ManualAudioRecorder] *)

(** [_initialize_audio]; the argument is what [pyaudio.PyAudio()] gives
    ([None]: it raises).  The result is [false] when the method re-raises.
    The device listing of [_log_audio_devices] is logged at DEBUG level
    only and changes nothing; it is left out. *)
Definition _initialize_audio (lib : option PyAudio) : M bool :=
  match lib with
  | None => emit (Log ERROR FailedToInitialize) ;; ret false
  | Some pa =>
      set (set_pyaudio (Some pa)) ;;
      dbg <- get debug_mode ;;
      when dbg (emit (Log INFO PyAudioInitialized)) ;;
      idx <- get device_index ;;
      match idx with
      | Some i =>
          if (i >=? get_device_count pa)%Z
          then emit (Log WARNING (DeviceIndexOutOfRange i)) ;;
               set (set_device_index None)
          else ret tt
      | None => ret tt
      end ;;
      ret true
  end.

Definition start_recording : M bool :=
  rec <- get is_recording ;;
  if rec then
    emit (Log WARNING AlreadyRecording) ;; ret false
  else
    dbg <- get debug_mode ;;
    when dbg (emit (Log INFO StartingManual)) ;;
    set (set_audio_buffer []) ;;
    set (set_stop_recording_event false) ;;
    set (set_is_recording true) ;;
    start_thread ;;
    cb <- get on_recording_start ;;
    call OnStart cb None ErrorInStartCallback ;;
    ret true.

Definition join_recording_thread : M unit :=
  th <- get recording_thread ;;
  match th with
  | Some t => join t
  | None => ret tt
  end.

Definition stop_recording : M bool :=
  rec <- get is_recording ;;
  if negb rec then
    emit (Log WARNING NotCurrentlyRecording) ;; ret false
  else
    dbg <- get debug_mode ;;
    when dbg (emit (Log INFO StoppingManual)) ;;
    set (set_stop_recording_event true) ;;
    set (set_is_recording false) ;;
    join_recording_thread ;;
    buf <- get audio_buffer ;;
    match buf with
    | [] => emit (Log WARNING NoAudioData) ;; ret false
    | _ :: _ =>
        let combined_audio := np_concatenate buf in
        rate <- get sample_rate ;;
        match py_truediv (Z.of_nat (length combined_audio)) rate with
        | None => emit (Log ERROR ErrorProcessing) ;; ret false
        | Some duration =>
            when dbg (emit (Log INFO
              (RecordingComplete (length combined_audio) duration))) ;;
            cb <- get on_recording_stop ;;
            call OnStop cb (Some combined_audio) ErrorInStopCallback ;;
            ret true
        end
    end.

Definition cancel_recording : M unit :=
  rec <- get is_recording ;;
  if negb rec then ret tt
  else
    emit (Log INFO Cancelling) ;;
    set (set_stop_recording_event true) ;;
    set (set_is_recording false) ;;
    join_recording_thread ;;
    set (set_audio_buffer []).

(** [__init__] up to its last line: the attributes read from [config] and
    the initial state; [_initialize_audio] follows. *)
Definition __init__ (debug : bool) (rate chunk chans : Z) (device : option Z)
    : recorder :=
  {| debug_mode := debug; sample_rate := rate; chunk_size := chunk;
     channels := chans; device_index := device; is_recording := false;
     audio_buffer := []; recording_thread := None;
     stop_recording_event := false; pyaudio := None; stream := None;
     on_recording_start := None; on_recording_stop := None |}.

(** *** Runs: calls of the controller interleaved with thread steps *)

Inductive action : Type :=
| Start
| Stop
| Cancel
| Tick (t : tid)       (* thread [t] takes one step, if it can *)
| Hear (x : reading).  (* the device has one more result to return *)

Definition hear (x : reading) (w : world) : world :=
  {| self := self w; threads := threads w; mic := mic w ++ [x] |}.

Definition perform (a : action) : M unit :=
  match a with
  | Start => start_recording ;; ret tt
  | Stop => stop_recording ;; ret tt
  | Cancel => cancel_recording
  | Tick t =>
      fun w =>
        match _recording_worker t w with
        | Some (w1, tr) => (tt, w1, tr)
        | None => (tt, w, [])
        end
  | Hear x => modify (hear x)
  end.

Fixpoint run (l : list action) : M unit :=
  match l with
  | [] => ret tt
  | a :: l' => perform a ;; run l'
  end.

(** *** Notions for the statements *)

(** The world in which [stop_recording] and [cancel_recording] wait for
    the thread (flag set, [is_recording] cleared), and the world in which
    the wait is over. *)
Definition stopping (w : world) : world :=
  with_self (fun r => set_is_recording false (set_stop_recording_event true r)) w.

Definition joined (w : world) : world :=
  final (join_recording_thread (stopping w)).

(** The record that a [if self.debug_mode: self.logger.info(...)] writes. *)
Definition note (b : bool) (m : message) : list event :=
  if b then [Log INFO m] else [].

(** The events of [call], and the dispatch among them. *)
Definition called (h : hook) (cb : option callback)
    (arg : option (list sample)) (on_error : message) : list event :=
  match cb with
  | None => []
  | Some c =>
      Invoke Direct h c arg ::
      match cb_does c with
      | Returns => []
      | Raises => [Log ERROR on_error]
      end
  end.

Definition handed (h : hook) (cb : option callback)
    (arg : option (list sample)) : list event :=
  match cb with
  | None => []
  | Some c => [Invoke Direct h c arg]
  end.

(** The chunks among some results, in order. *)
Fixpoint chunks_of (l : list reading) : list frame :=
  match l with
  | [] => []
  | Chunk f :: l' => f :: chunks_of l'
  | ReadError :: l' => chunks_of l'
  end.

(** What the device added during a run. *)
Fixpoint heard (l : list action) : list reading :=
  match l with
  | [] => []
  | Hear x :: l' => x :: heard l'
  | _ :: l' => heard l'
  end.

(** Runs in which the controller is not called, and runs made of
    [stop_recording] and [cancel_recording] only. *)
Definition only_capture (l : list action) : Prop :=
  forall a, In a l -> (exists t, a = Tick t) \/ (exists x, a = Hear x).

Definition only_stop_cancel (l : list action) : Prop :=
  forall a, In a l -> a = Stop \/ a = Cancel.

(** What a thread step leaves alone. *)
Definition same_control (w w' : world) : Prop :=
  is_recording (self w') = is_recording (self w) /\
  stop_recording_event (self w') = stop_recording_event (self w) /\
  recording_thread (self w') = recording_thread (self w) /\
  sample_rate (self w') = sample_rate (self w) /\
  debug_mode (self w') = debug_mode (self w) /\
  on_recording_start (self w') = on_recording_start (self w) /\
  on_recording_stop (self w') = on_recording_stop (self w) /\
  length (threads w') = length (threads w).

(** With the flag set: the steps a thread at [p] still needs to end, and
    the reads it may still finish. *)
Definition rank (p : pc) : nat :=
  match p with
  | AtOpen | AtRead => 3
  | AtLoop => 2
  | AtFinally => 1
  | Exited => 0
  end.

Definition reads_left (p : pc) : nat :=
  match p with AtRead => 1 | _ => 0 end.

End Recorder.

Arguments recorder : clear implicits.
Arguments world : clear implicits.
Arguments reading : clear implicits.
Arguments action : clear implicits.
Arguments M : clear implicits.

Abbreviation event sample := (effect message sample).

End Manual.

(** ** The recorder with voice-activity detection *)

(** The arithmetic of [audio_recorder.py]: what NumPy computes on a
    [float32] chunk, and the comparison and difference of Python floats.
    The lifecycle of the recorder is proved for every arithmetic of this
    shape; NumPy's own is the instance [Float32.float32_numeric]. *)
Class Numeric (F : Type) : Type := {
  np_square : list F -> list F;   (* audio_chunk ** 2 *)
  np_mean : list F -> F;          (* np.mean(...) *)
  np_sqrt : F -> F;               (* np.sqrt(...) *)
  gt : F -> F -> bool;            (* a > b *)
  minus : F -> F -> F             (* a - b *)
}.

Module Vad.

(** Log records of [audio_recorder.py], by their text. *)
Inductive message : Type :=
| PyAudioInitialized            (* "PyAudio initialized successfully" *)
| DeviceIndexOutOfRange (i : Z) (* "Device index {i} out of range, using default" *)
| FailedToInitialize            (* "Failed to initialize PyAudio: ..." *)
| CallbackStatus                (* "Audio callback status: ..." *)
| VoiceDetected                 (* "Voice detected - starting recording" *)
| SilenceTimeout                (* "Silence timeout (...s) - stopping recording" *)
| RecordingStopped (samples : nat) (duration : Q)
                                (* "Recording stopped - captured {n} samples ({d:.2f}s)" *)
| NoAudioCaptured               (* "No audio data captured" *)
| ErrorInCallback               (* "Error in audio callback: ..." *)
| StoppingListening             (* "Stopping audio listening" *)
| ErrorClosingStream            (* "Error closing audio stream: ..." *)
| ForceStopping.                (* "Force stopping recording" *)

(** How a call ends: it returns, or an exception leaves it. *)
Inductive ending : Type := Done | Raised.

Section Recorder.

Context {F : Type} {num : Numeric F}.

Abbreviation frame := (list F).
Abbreviation event := (effect message F).

Record Stream : Type := { closes : bool }.

Record PyAudio : Type := { get_device_count : Z }.

(** The attributes of an [AudioRecorder]. *)
Record recorder : Type := {
  sample_rate : Z;
  chunk_size : Z;
  channels : Z;
  device_index : option Z;
  is_recording : bool;
  is_listening : bool;
  audio_data : list frame;        (* the deque, oldest chunk first *)
  pyaudio : option PyAudio;
  stream : option Stream;
  vad_threshold : F;
  silence_start_time : option F;
  silence_timeout : F;
  on_recording_start : option callback;
  on_recording_stop : option callback
}.

Definition set_device_index (v : option Z) (r : recorder) : recorder :=
  {| sample_rate := sample_rate r; chunk_size := chunk_size r;
     channels := channels r; device_index := v;
     is_recording := is_recording r; is_listening := is_listening r;
     audio_data := audio_data r; pyaudio := pyaudio r; stream := stream r;
     vad_threshold := vad_threshold r;
     silence_start_time := silence_start_time r;
     silence_timeout := silence_timeout r;
     on_recording_start := on_recording_start r;
     on_recording_stop := on_recording_stop r |}.

Definition set_is_recording (v : bool) (r : recorder) : recorder :=
  {| sample_rate := sample_rate r; chunk_size := chunk_size r;
     channels := channels r; device_index := device_index r;
     is_recording := v; is_listening := is_listening r;
     audio_data := audio_data r; pyaudio := pyaudio r; stream := stream r;
     vad_threshold := vad_threshold r;
     silence_start_time := silence_start_time r;
     silence_timeout := silence_timeout r;
     on_recording_start := on_recording_start r;
     on_recording_stop := on_recording_stop r |}.

Definition set_is_listening (v : bool) (r : recorder) : recorder :=
  {| sample_rate := sample_rate r; chunk_size := chunk_size r;
     channels := channels r; device_index := device_index r;
     is_recording := is_recording r; is_listening := v;
     audio_data := audio_data r; pyaudio := pyaudio r; stream := stream r;
     vad_threshold := vad_threshold r;
     silence_start_time := silence_start_time r;
     silence_timeout := silence_timeout r;
     on_recording_start := on_recording_start r;
     on_recording_stop := on_recording_stop r |}.

Definition set_audio_data (v : list frame) (r : recorder) : recorder :=
  {| sample_rate := sample_rate r; chunk_size := chunk_size r;
     channels := channels r; device_index := device_index r;
     is_recording := is_recording r; is_listening := is_listening r;
     audio_data := v; pyaudio := pyaudio r; stream := stream r;
     vad_threshold := vad_threshold r;
     silence_start_time := silence_start_time r;
     silence_timeout := silence_timeout r;
     on_recording_start := on_recording_start r;
     on_recording_stop := on_recording_stop r |}.

Definition set_pyaudio (v : option PyAudio) (r : recorder) : recorder :=
  {| sample_rate := sample_rate r; chunk_size := chunk_size r;
     channels := channels r; device_index := device_index r;
     is_recording := is_recording r; is_listening := is_listening r;
     audio_data := audio_data r; pyaudio := v; stream := stream r;
     vad_threshold := vad_threshold r;
     silence_start_time := silence_start_time r;
     silence_timeout := silence_timeout r;
     on_recording_start := on_recording_start r;
     on_recording_stop := on_recording_stop r |}.

Definition set_stream (v : option Stream) (r : recorder) : recorder :=
  {| sample_rate := sample_rate r; chunk_size := chunk_size r;
     channels := channels r; device_index := device_index r;
     is_recording := is_recording r; is_listening := is_listening r;
     audio_data := audio_data r; pyaudio := pyaudio r; stream := v;
     vad_threshold := vad_threshold r;
     silence_start_time := silence_start_time r;
     silence_timeout := silence_timeout r;
     on_recording_start := on_recording_start r;
     on_recording_stop := on_recording_stop r |}.

Definition set_silence_start_time (v : option F) (r : recorder) : recorder :=
  {| sample_rate := sample_rate r; chunk_size := chunk_size r;
     channels := channels r; device_index := device_index r;
     is_recording := is_recording r; is_listening := is_listening r;
     audio_data := audio_data r; pyaudio := pyaudio r; stream := stream r;
     vad_threshold := vad_threshold r;
     silence_start_time := v;
     silence_timeout := silence_timeout r;
     on_recording_start := on_recording_start r;
     on_recording_stop := on_recording_stop r |}.

Definition M (A : Type) : Type := Eff recorder event A.

(** [if cb: threading.Thread(target=cb, args=..., daemon=True).start()]. *)
Definition dispatch_thread (h : hook) (cb : option callback)
    (arg : option (list F)) : M unit :=
  match cb with
  | None => ret tt
  | Some c => emit (Invoke DaemonThread h c arg)
  end.

(** [_initialize_audio]; the argument is what [pyaudio.PyAudio()] gives
    ([None]: it raises), the result [Raised] when the method re-raises.
    [_log_audio_devices] writes DEBUG records only and is left out. *)
Definition _initialize_audio (lib : option PyAudio) : M ending :=
  match lib with
  | None => emit (Log ERROR FailedToInitialize) ;; ret Raised
  | Some pa =>
      modify (set_pyaudio (Some pa)) ;;
      emit (Log INFO PyAudioInitialized) ;;
      idx <- gets device_index ;;
      match idx with
      | Some i =>
          if (i >=? get_device_count pa)%Z
          then emit (Log WARNING (DeviceIndexOutOfRange i)) ;;
               modify (set_device_index None)
          else ret tt
      | None => ret tt
      end ;;
      ret Done
  end.

(** [_detect_voice_activity]: it reads [self.vad_threshold] and writes
    nothing. *)
Definition _detect_voice_activity (r : recorder) (audio_chunk : frame) : bool :=
  let rms := np_sqrt (np_mean (np_square audio_chunk)) in
  gt rms (vad_threshold r).

Definition _handle_voice_detected (audio_chunk : frame) : M unit :=
  rec <- gets is_recording ;;
  when (negb rec)
    (modify (set_is_recording true) ;;
     modify (set_audio_data []) ;;
     emit (Log INFO VoiceDetected) ;;
     cb <- gets on_recording_start ;;
     dispatch_thread OnStart cb None) ;;
  buf <- gets audio_data ;;
  modify (set_audio_data (buf ++ [audio_chunk])) ;;
  modify (set_silence_start_time None).

Definition _stop_recording_internal : M ending :=
  rec <- gets is_recording ;;
  if negb rec then ret Done
  else
    modify (set_is_recording false) ;;
    modify (set_silence_start_time None) ;;
    buf <- gets audio_data ;;
    match buf with
    | [] => emit (Log WARNING NoAudioCaptured) ;; ret Done
    | _ :: _ =>
        let combined_audio := np_concatenate buf in
        modify (set_audio_data []) ;;
        rate <- gets sample_rate ;;
        (* the division is in the f-string of the log call *)
        match py_truediv (Z.of_nat (length combined_audio)) rate with
        | None => ret Raised
        | Some duration =>
            emit (Log INFO
              (RecordingStopped (length combined_audio) duration)) ;;
            cb <- gets on_recording_stop ;;
            dispatch_thread OnStop cb (Some combined_audio) ;;
            ret Done
        end
    end.

(** [_handle_silence_detected]; [now] is what [time.time()] returns. *)
Definition _handle_silence_detected (now : F) : M ending :=
  rec <- gets is_recording ;;
  if negb rec then ret Done
  else
    started <- gets silence_start_time ;;
    match started with
    | None => modify (set_silence_start_time (Some now)) ;; ret Done
    | Some t0 =>
        limit <- gets silence_timeout ;;
        if gt (minus now t0) limit
        then emit (Log INFO SilenceTimeout) ;; _stop_recording_internal
        else ret Done
    end.

(** [_audio_callback]: [audio_chunk] is [in_data] decoded, [status] tells
    whether the stream reported a status flag. *)
Definition _audio_callback (audio_chunk : frame) (status : bool) (now : F)
    : M unit :=
  when status (emit (Log WARNING CallbackStatus)) ;;
  r <- gets (fun r => r) ;;
  e <- (if _detect_voice_activity r audio_chunk
        then _handle_voice_detected audio_chunk ;; ret Done
        else _handle_silence_detected now) ;;
  match e with
  | Done => ret tt
  | Raised => emit (Log ERROR ErrorInCallback)
  end.

Definition stop_listening : M ending :=
  listening <- gets is_listening ;;
  if negb listening then ret Done
  else
    emit (Log INFO StoppingListening) ;;
    rec <- gets is_recording ;;
    e <- (if rec then _stop_recording_internal else ret Done) ;;
    match e with
    | Raised => ret Raised
    | Done =>
        s <- gets stream ;;
        match s with
        | Some st =>
            when (negb (closes st)) (emit (Log ERROR ErrorClosingStream)) ;;
            modify (set_stream None)
        | None => ret tt
        end ;;
        modify (set_is_listening false) ;;
        ret Done
    end.

Definition force_stop_recording : M unit :=
  rec <- gets is_recording ;;
  when rec
    (emit (Log INFO ForceStopping) ;;
     modify (set_is_recording false) ;;
     modify (set_audio_data []) ;;
     modify (set_silence_start_time None)).

End Recorder.

Arguments recorder F : clear implicits.

Abbreviation event F := (effect message F).

End Vad.

(** ** Set-ups to run the models on *)

Module Scenarios.
Import Manual.

(** A host with two devices whose streams open and close without error. *)
Definition host : PyAudio :=
  {| get_device_count := 2;
     open_input := fun _ => Some {| closes := true |} |}.

(** [count from n] is the chunk [from, from+1, ..., from+n-1]. *)
Fixpoint count (from : Z) (n : nat) : list Z :=
  match n with
  | O => []
  | S n' => from :: count (from + 1) n'
  end.

(** [chunks from size n]: [n] chunks of [size] rising samples. *)
Fixpoint chunks (from : Z) (size n : nat) : list (list Z) :=
  match n with
  | O => []
  | S n' => count from size :: chunks (from + Z.of_nat size) size n'
  end.

(** A recorder built as the callers build it: [__init__] with
    [_initialize_audio] at 16000 Hz and 1024 samples a chunk, then the
    two callbacks; no thread yet, and [readings] waiting at the device. *)
Definition fresh (debug : bool) (device : option Z)
    (readings : list (reading Z)) : Manual.world Z :=
  with_self (fun r => set_on_recording_stop (Some (Callback 2 Returns))
                        (set_on_recording_start (Some (Callback 1 Returns)) r))
    (final (_initialize_audio (Some host)
       {| self := __init__ debug 16000 1024 1 device;
          threads := []; mic := readings |})).

Fixpoint ticks (t : tid) (n : nat) : list (action Z) :=
  match n with
  | O => []
  | S n' => Tick t :: ticks t n'
  end.

(** Started, and the thread has read the three chunks of two samples that
    the device had. *)
Definition three_chunks : Manual.world Z :=
  final (run (Start :: ticks 0 7)
           (fresh false None (map (@Chunk Z) (chunks 0 2 3)))).

(** Started, and stopped before the thread has read anything. *)
Definition just_started : Manual.world Z :=
  final (start_recording (fresh false None [])).

(** The scenario of the specification: ten chunks of 1024 samples read at
    16000 Hz, debug logging on. *)
Definition ten_chunks : Manual.world Z :=
  final (run (Start :: ticks 0 21)
           (fresh true None (map (@Chunk Z) (chunks 0 1024 10)))).

(** Five chunks of four samples, then the device fails. *)
Definition faulty : Manual.world Z :=
  fresh false None (map (@Chunk Z) (chunks 0 4 5) ++ [ReadError]).

(** The device fails at the first read. *)
Definition dead : Manual.world Z := fresh false None [ReadError].

(** The thread is in a read, three chunks are to come, and the flag has
    just been set. *)
Definition flagged : Manual.world Z :=
  stopping (final (run (Start :: ticks 0 2)
                     (fresh false None (map (@Chunk Z) (chunks 0 2 3))))).

(** Two chunks read out of five. *)
Definition two_of_five : Manual.world Z :=
  final (run (Start :: ticks 0 5)
           (fresh false None (map (@Chunk Z) (chunks 0 2 5)))).

(** A recorder before [_initialize_audio], configured with [device]. *)
Definition configured (device : option Z) : Manual.world Z :=
  {| self := __init__ false 16000 1024 1 device; threads := []; mic := [] |}.

(** An arithmetic to run the detector with: binary64, sums from left to
    right.  It is not NumPy's rounding, which is
    [Float32.float32_numeric]. *)
#[global] Instance float_numeric : Numeric PrimFloat.float := {|
  np_square := map (fun x => PrimFloat.mul x x);
  np_mean := fun l =>
    PrimFloat.div (fold_left PrimFloat.add l PrimFloat.zero)
                  (PrimFloat.of_uint63 (Uint63.of_Z (Z.of_nat (length l))));
  np_sqrt := PrimFloat.sqrt;
  gt := fun a b => PrimFloat.ltb b a;
  minus := PrimFloat.sub
|}.

(** [AudioRecorder(config)] before [_initialize_audio], with the default
    threshold 0.01 and timeout 2.0 s, and both callbacks set. *)
Definition listener (device : option Z) : Vad.recorder PrimFloat.float :=
  {| Vad.sample_rate := 16000; Vad.chunk_size := 1024; Vad.channels := 1;
     Vad.device_index := device;
     Vad.is_recording := false; Vad.is_listening := false;
     Vad.audio_data := []; Vad.pyaudio := None; Vad.stream := None;
     Vad.vad_threshold := 0.01%float;
     Vad.silence_start_time := None;
     Vad.silence_timeout := 2.0%float;
     Vad.on_recording_start := Some (Callback 1 Returns);
     Vad.on_recording_stop := Some (Callback 2 Returns) |}.

End Scenarios.

(** ** The manual recorder besides its lifecycle: clean-up and device list *)

(** An event, with its log record (if it is one) moved into another
    module's type of messages. *)
Definition relabel {m1 m2 sample : Type} (f : m1 -> m2)
    (e : effect m1 sample) : effect m2 sample :=
  match e with
  | Log l m => Log l (f m)
  | ThreadStart t => ThreadStart t
  | ThreadJoin t b => ThreadJoin t b
  | Invoke how h cb arg => Invoke how h cb arg
  end.

Definition is_thread_start {message sample : Type}
    (e : effect message sample) : bool :=
  match e with ThreadStart _ => true | _ => false end.

(** The capture threads that a trace starts, and the utterances that it
    hands to [on_recording_stop]. *)
Definition starts_in {message sample : Type}
    (tr : list (effect message sample)) : nat :=
  length (filter is_thread_start tr).

Definition utterances_in {message sample : Type}
    (tr : list (effect message sample)) : nat :=
  length (filter (dispatches OnStop) tr).

(** [int(b)]. *)
Definition b2n (b : bool) : nat := if b then 1 else 0.

(** [range(n)]. *)
Definition range (n : Z) : list Z := map Z.of_nat (seq 0 (Z.to_nat n)).

Module Upkeep.
Import Manual.

(** The log records of [cleanup], next to those of the lifecycle. *)
Inductive message : Type :=
| Lifecycle (m : Manual.message)
| ErrorTerminatingPyAudio       (* "Error terminating PyAudio: ..." *)
| CleanedUp.                    (* "ManualAudioRecorder cleaned up" *)

(** What [get_device_info_by_index] returns, as far as it is read. *)
Record device_info : Type := {
  name : String.string;
  maxInputChannels : Z;
  defaultSampleRate : Q
}.

(** One dictionary of the list that [get_audio_devices] returns. *)
Record device : Type := {
  index : Z;
  device_name : String.string;
  device_channels : Z;
  device_sample_rate : Q
}.

Section Recorder.

Context {sample : Type}.

Abbreviation event := (effect message sample).

Definition M (A : Type) : Type := Eff (world sample) event A.

(** A method of the lifecycle, called from here. *)
Definition lift {A : Type} (m : Manual.M sample A) : M A :=
  fun w => let '(a, w1, tr) := m w in (a, w1, map (relabel Lifecycle) tr).

(** [cleanup]; [terminates] tells whether [self.pyaudio.terminate()]
    returns (or raises). *)
Definition cleanup (terminates : bool) : M unit :=
  rec <- gets (fun w => is_recording (self w)) ;;
  when rec (lift cancel_recording) ;;
  pa <- gets (fun w => pyaudio (self w)) ;;
  match pa with
  | Some _ =>
      when (negb terminates) (emit (Log ERROR ErrorTerminatingPyAudio)) ;;
      modify (with_self (set_pyaudio None))
  | None => ret tt
  end ;;
  dbg <- gets (fun w => debug_mode (self w)) ;;
  when dbg (emit (Log INFO CleanedUp)).

(** [__del__]. *)
Definition __del__ (terminates : bool) : M unit := cleanup terminates.

(** The dictionary built for device [i]. *)
Definition entry (i : Z) (d : device_info) : device :=
  {| index := i; device_name := name d;
     device_channels := maxInputChannels d;
     device_sample_rate := defaultSampleRate d |}.

(** [get_audio_devices]; [get_device_info_by_index i] is [None] when the
    call (or the reading of its result) raises. *)
Definition get_audio_devices
    (get_device_info_by_index : Z -> option device_info)
    (r : recorder sample) : list device :=
  match pyaudio r with
  | None => []
  | Some pa =>
      fold_left
        (fun devices i =>
           match get_device_info_by_index i with
           | Some device_info =>
               if (maxInputChannels device_info >? 0)%Z
               then devices ++ [entry i device_info]
               else devices
           | None => devices
           end)
        (range (get_device_count pa)) []
  end.

(** *** Notions for the statements *)

(** Every stream that the host opens can be closed. *)
Definition closing (pa : PyAudio) : Prop :=
  forall i s, open_input pa i = Some s -> closes s = true.

(** Nothing is under way: the recorder is idle, holds no stream, and
    every thread it ever started has ended. *)
Definition settled (w : world sample) : Prop :=
  is_recording (self w) = false /\
  stream (self w) = None /\
  Forall (fun p => p = Exited) (threads w).

(** The threads [old] have ended and one more stands at [p]; the stream,
    if the recorder holds one, can be closed, and it holds none before
    that thread has opened one and after the thread has ended. *)
Definition tending (old : list pc) (p : pc) (w : world sample) : Prop :=
  threads w = old ++ [p] /\
  Forall (fun q => q = Exited) old /\
  (p = AtOpen \/ p = Exited -> stream (self w) = None) /\
  (forall s, stream (self w) = Some s -> closes s = true) /\
  (forall pa, pyaudio (self w) = Some pa -> closing pa).

(** The recorder holds no PyAudio object and no stream, the threads
    [old] have ended, and one more stands at [p], outside the loop. *)
Definition barren (old : list pc) (p : pc) (w : world sample) : Prop :=
  threads w = old ++ [p] /\
  Forall (fun q => q = Exited) old /\
  pyaudio (self w) = None /\
  stream (self w) = None /\
  (p = AtOpen \/ p = AtFinally \/ p = Exited).

(** Does [get_audio_devices] list device [i]. *)
Definition listable (get_device_info_by_index : Z -> option device_info)
    (i : Z) : bool :=
  match get_device_info_by_index i with
  | Some d => (maxInputChannels d >? 0)%Z
  | None => false
  end.

(** Once a thread exists, the stop flag is set exactly while the
    recorder is idle. *)
Definition flag_follows (w : world sample) : Prop :=
  threads w = [] \/
  stop_recording_event (self w) = negb (is_recording (self w)).

(** The callbacks replaced. *)
Definition with_callbacks (on_start on_stop : option callback)
    (w : world sample) : world sample :=
  with_self (fun r => set_on_recording_stop on_stop
                        (set_on_recording_start on_start r)) w.

(** No capture thread is alive but the one in [self.recording_thread]:
    the threads of earlier sessions have ended. *)
Definition one_thread (w : world sample) : Prop :=
  forall t p,
    nth_error (threads w) t = Some p -> p <> Exited ->
    recording_thread (self w) = Some t.

(** The stop and cancel calls in a run. *)
Fixpoint releases (l : list (action sample)) : nat :=
  match l with
  | [] => 0
  | Stop :: l' | Cancel :: l' => S (releases l')
  | _ :: l' => releases l'
  end.

End Recorder.

End Upkeep.

(** ** The recorder with voice-activity detection: listening on and off *)

(** The audio that a trace hands to [on_recording_stop], utterance by
    utterance. *)
Fixpoint handed_over {message sample : Type}
    (tr : list (effect message sample)) : list (list sample) :=
  match tr with
  | [] => []
  | Invoke _ OnStop _ (Some audio) :: tr' => audio :: handed_over tr'
  | _ :: tr' => handed_over tr'
  end.

Module Listening.
Import Vad.

(** The log records of [start_listening] and [cleanup], next to those of
    the detector. *)
Inductive message : Type :=
| Detector (m : Vad.message)
| AlreadyListening              (* "Already listening" *)
| StartedListening              (* "Started listening (threshold: ..., timeout: ...s)" *)
| FailedToStartListening        (* "Failed to start listening: ..." *)
| ErrorTerminatingPyAudio       (* "Error terminating PyAudio: ..." *)
| CleanedUp.                    (* "AudioRecorder cleaned up" *)

Section Recorder.

Context {F : Type} {num : Numeric F}.

Abbreviation recorder := (Vad.recorder F).
Abbreviation event := (effect message F).

Definition set_vad_threshold (v : F) (r : recorder) : recorder :=
  {| sample_rate := sample_rate r; chunk_size := chunk_size r;
     channels := channels r; device_index := device_index r;
     is_recording := is_recording r; is_listening := is_listening r;
     audio_data := audio_data r; pyaudio := pyaudio r; stream := stream r;
     vad_threshold := v;
     silence_start_time := silence_start_time r;
     silence_timeout := silence_timeout r;
     on_recording_start := on_recording_start r;
     on_recording_stop := on_recording_stop r |}.

Definition set_silence_timeout (v : F) (r : recorder) : recorder :=
  {| sample_rate := sample_rate r; chunk_size := chunk_size r;
     channels := channels r; device_index := device_index r;
     is_recording := is_recording r; is_listening := is_listening r;
     audio_data := audio_data r; pyaudio := pyaudio r; stream := stream r;
     vad_threshold := vad_threshold r;
     silence_start_time := silence_start_time r;
     silence_timeout := v;
     on_recording_start := on_recording_start r;
     on_recording_stop := on_recording_stop r |}.

Definition M (A : Type) : Type := Eff recorder event A.

(** A method of the detector, called from here. *)
Definition lift {A : Type} (m : Eff recorder (Vad.event F) A) : M A :=
  fun r => let '(a, r1, tr) := m r in (a, r1, map (relabel Detector) tr).

(** [cleanup]; [terminates] tells whether [self.pyaudio.terminate()]
    returns.  An exception of [stop_listening] leaves the method. *)
Definition cleanup (terminates : bool) : M ending :=
  e <- lift stop_listening ;;
  match e with
  | Raised => ret Raised
  | Done =>
      pa <- gets pyaudio ;;
      match pa with
      | Some _ =>
          when (negb terminates) (emit (Log ERROR ErrorTerminatingPyAudio)) ;;
          modify (set_pyaudio None)
      | None => ret tt
      end ;;
      emit (Log INFO CleanedUp) ;;
      ret Done
  end.

(** [start_listening]; [max_duration] is accepted and not used.
    [opening] is what [self.pyaudio.open(..., start=False)] gives ([None]:
    it raises), [starts] whether [start_stream()] returns; a recorder
    without PyAudio object fails at [self.pyaudio.open] as well.  The
    result is [Raised] when the method re-raises. *)
Definition start_listening (vad_threshold silence_timeout max_duration : F)
    (opening : option Stream) (starts terminates : bool) : M ending :=
  listening <- gets is_listening ;;
  if listening then emit (Log WARNING AlreadyListening) ;; ret Done
  else
    modify (set_vad_threshold vad_threshold) ;;
    modify (set_silence_timeout silence_timeout) ;;
    pa <- gets pyaudio ;;
    ok <- match pa, opening with
          | Some _, Some s =>
              modify (set_stream (Some s)) ;;
              modify (set_is_listening true) ;;
              if starts
              then emit (Log INFO StartedListening) ;; ret true
              else ret false
          | _, _ => ret false
          end ;;
    if ok then ret Done
    else
      emit (Log ERROR FailedToStartListening) ;;
      cleanup terminates ;;
      ret Raised.

(** *** Runs: what PortAudio and the owner of the recorder call *)

Inductive call : Type :=
| Frame (audio_chunk : list F) (status : bool) (now : F)
                       (* the stream delivers a chunk to [_audio_callback] *)
| ForceStop            (* [force_stop_recording()] *)
| StopListening.       (* [stop_listening()] *)

Definition perform (c : call) : Eff recorder (Vad.event F) unit :=
  match c with
  | Frame audio_chunk status now => _audio_callback audio_chunk status now
  | ForceStop => force_stop_recording
  | StopListening => stop_listening ;; ret tt
  end.

Fixpoint run (l : list call) : Eff recorder (Vad.event F) unit :=
  match l with
  | [] => ret tt
  | c :: l' => perform c ;; run l'
  end.

(** *** Notions for the statements *)

(** The event of [dispatch_thread]. *)
Definition dispatched (h : hook) (cb : option callback)
    (arg : option (list F)) : list (Vad.event F) :=
  match cb with
  | None => []
  | Some c => [Invoke DaemonThread h c arg]
  end.

(** The chunks of a run in which [r] detects voice, in order of arrival. *)
Fixpoint voiced (r : recorder) (l : list call) : list (list F) :=
  match l with
  | [] => []
  | Frame audio_chunk _ _ :: l' =>
      if _detect_voice_activity r audio_chunk
      then audio_chunk :: voiced r l'
      else voiced r l'
  | _ :: l' => voiced r l'
  end.

Definition forced (c : call) : bool :=
  match c with ForceStop => true | _ => false end.

(** A recorder that is recording holds at least one chunk. *)
Definition has_audio (r : recorder) : Prop :=
  is_recording r = true -> audio_data r <> [].

(** A recorder holds audio exactly while it is recording. *)
Definition tidy (r : recorder) : Prop :=
  has_audio r /\ (is_recording r = false -> audio_data r = []).

Definition unforced (l : list call) : Prop :=
  forall c, In c l -> forced c = false.

(** What no call of a run changes. *)
Definition same_setup (r r' : recorder) : Prop :=
  sample_rate r' = sample_rate r /\
  vad_threshold r' = vad_threshold r /\
  silence_timeout r' = silence_timeout r /\
  on_recording_start r' = on_recording_start r /\
  on_recording_stop r' = on_recording_stop r /\
  pyaudio r' = pyaudio r.

End Recorder.

Arguments call F : clear implicits.

End Listening.

(** ** The hold-to-record front end: [VoiceRecorder]

    An embedding of [src/whisperclipboard/recorder.py], as far as the
    hotkey and the audio recorder go: the transcriber, the clipboard and
    the configuration file are left out, and the thread that
    [_on_recording_stop] starts for [_process_audio] is an event of the
    trace.  The two callbacks that [initialize_components] stores in the
    audio recorder are bound methods of the [VoiceRecorder]; what they do
    to it happens where the audio recorder calls them. *)

Module Voice.

(** What [VoiceRecorder] logs or prints, by its text. *)
Inductive message : Type :=
| InitializingComponents        (* "Initializing VoiceRecorder components..." *)
| ComponentsInitialized         (* "All components initialized successfully" *)
| AudioRecorderNotInitialized   (* "Audio recorder not initialized" *)
| FailedToStartRecording        (* "Failed to start recording" *)
| FailedToStopRecording         (* "Failed to stop recording" *)
| RecordingStarted              (* "Recording started..." / "Recording..." *)
| Transcribing.                 (* "Recording stopped, transcribing..." / "Transcribing..." *)

(** A key as the listener reports it. *)
Definition key : Type := String.string.

Section Recorder.

Context {sample : Type}.

Inductive event : Type :=
| Recorder (e : Manual.event sample)   (* what the audio recorder does *)
| Logged (l : level) (m : message)     (* self.logger.<l>(m) *)
| Printed (m : message)                (* print(m) *)
| ProcessAudio (audio_data : list sample).
    (* threading.Thread(target=self._process_audio, args=(audio_data,),
                        daemon=True).start() *)

(** The attributes of a [VoiceRecorder] that the hotkey path reads and
    writes; [audio_recorder] is [None] before [initialize_components]. *)
Record VoiceRecorder : Type := {
  debug_mode : bool;
  is_recording : bool;
  hotkey_pressed : bool;
  target_key : key;
  audio_recorder : option (Manual.world sample)
}.

Definition set_is_recording (b : bool) (v : VoiceRecorder) : VoiceRecorder :=
  {| debug_mode := debug_mode v; is_recording := b;
     hotkey_pressed := hotkey_pressed v; target_key := target_key v;
     audio_recorder := audio_recorder v |}.

Definition set_hotkey_pressed (b : bool) (v : VoiceRecorder) : VoiceRecorder :=
  {| debug_mode := debug_mode v; is_recording := is_recording v;
     hotkey_pressed := b; target_key := target_key v;
     audio_recorder := audio_recorder v |}.

Definition set_audio_recorder (w : option (Manual.world sample))
    (v : VoiceRecorder) : VoiceRecorder :=
  {| debug_mode := debug_mode v; is_recording := is_recording v;
     hotkey_pressed := hotkey_pressed v; target_key := target_key v;
     audio_recorder := w |}.

Definition M (A : Type) : Type := Eff VoiceRecorder event A.

(** [__init__], after the configuration was read. *)
Definition __init__ (debug : bool) (record_key : key) : VoiceRecorder :=
  {| debug_mode := debug; is_recording := false; hotkey_pressed := false;
     target_key := record_key; audio_recorder := None |}.

(** [if self.debug_mode: self.logger.info(m) else: print(m)]. *)
Definition announce (m : message) : M unit :=
  dbg <- gets debug_mode ;;
  if dbg then emit (Logged INFO m) else emit (Printed m).

Definition _on_recording_start : M unit :=
  announce RecordingStarted ;;
  modify (set_is_recording true).

Definition _on_recording_stop (audio_data : list sample) : M unit :=
  announce Transcribing ;;
  modify (set_is_recording false) ;;
  emit (ProcessAudio audio_data).

(** One event of the audio recorder, as the [VoiceRecorder] lives it: a
    direct call of a callback runs the method that was stored there. *)
Definition react (e : Manual.event sample) : M unit :=
  emit (Recorder e) ;;
  match e with
  | Invoke Direct OnStart _ _ => _on_recording_start
  | Invoke Direct OnStop _ (Some audio_data) => _on_recording_stop audio_data
  | _ => ret tt
  end.

Fixpoint reacts (tr : list (Manual.event sample)) : M unit :=
  match tr with
  | [] => ret tt
  | e :: tr' => react e ;; reacts tr'
  end.

(** [self.audio_recorder.m(...)]: the method runs on the audio recorder
    [w], and the callbacks it calls run on the [VoiceRecorder]. *)
Definition on_recorder {A : Type} (m : Manual.M sample A)
    (w : Manual.world sample) : M A :=
  fun v =>
    let '(a, w1, tr) := m w in
    let '(_, v1, tr1) := reacts tr (set_audio_recorder (Some w1) v) in
    (a, v1, tr1).

(** The bound methods, as the audio recorder holds them. *)
Definition start_callback : callback := Callback 1 Returns.
Definition stop_callback : callback := Callback 2 Returns.

(** [initialize_components], as far as the audio recorder goes.  [lib] is
    what [pyaudio.PyAudio()] gives, the numbers are [config['audio']],
    and [mic] is what the device holds; the result is [false] when the
    constructor of the audio recorder raises. *)
Definition initialize_components (lib : option Manual.PyAudio)
    (rate chunk chans : Z) (device : option Z)
    (mic : list (Manual.reading sample)) : M bool :=
  dbg <- gets debug_mode ;;
  when dbg (emit (Logged INFO InitializingComponents)) ;;
  before <- gets audio_recorder ;;
  ok <- on_recorder (Manual._initialize_audio lib)
          {| Manual.self := Manual.__init__ dbg rate chunk chans device;
             Manual.threads := []; Manual.mic := mic |} ;;
  if ok then
    ar <- gets audio_recorder ;;
    modify (set_audio_recorder
              (option_map (Upkeep.with_callbacks (Some start_callback)
                             (Some stop_callback)) ar)) ;;
    when dbg (emit (Logged INFO ComponentsInitialized)) ;;
    ret true
  else
    modify (set_audio_recorder before) ;;
    ret false.

Definition _start_recording : M unit :=
  ar <- gets audio_recorder ;;
  match ar with
  | None => emit (Logged ERROR AudioRecorderNotInitialized)
  | Some w =>
      rec <- gets is_recording ;;
      if rec then ret tt
      else
        success <- on_recorder Manual.start_recording w ;;
        when (negb success) (emit (Logged ERROR FailedToStartRecording))
  end.

Definition _stop_recording : M unit :=
  ar <- gets audio_recorder ;;
  match ar with
  | None => ret tt
  | Some w =>
      rec <- gets is_recording ;;
      if negb rec then ret tt
      else
        success <- on_recorder Manual.stop_recording w ;;
        when (negb success) (emit (Logged ERROR FailedToStopRecording))
  end.

(** The two handlers that [_setup_hotkey_listener] gives the listener. *)
Definition on_press (k : key) : M unit :=
  target <- gets target_key ;;
  pressed <- gets hotkey_pressed ;;
  if String.eqb k target && negb pressed
  then modify (set_hotkey_pressed true) ;; _start_recording
  else ret tt.

Definition on_release (k : key) : M unit :=
  target <- gets target_key ;;
  pressed <- gets hotkey_pressed ;;
  if String.eqb k target && pressed
  then modify (set_hotkey_pressed false) ;; _stop_recording
  else ret tt.

(** *** Runs: the keyboard, the capture threads and the device *)

Inductive input : Type :=
| Press (k : key)
| Release (k : key)
| Step (t : Manual.tid)               (* a capture thread takes a step *)
| Sound (x : Manual.reading sample).  (* the device has one more result *)

Definition perform (i : input) : M unit :=
  match i with
  | Press k => on_press k
  | Release k => on_release k
  | Step t =>
      ar <- gets audio_recorder ;;
      match ar with
      | Some w => on_recorder (Manual.perform (Manual.Tick t)) w
      | None => ret tt
      end
  | Sound x =>
      ar <- gets audio_recorder ;;
      match ar with
      | Some w => on_recorder (Manual.perform (Manual.Hear x)) w
      | None => ret tt
      end
  end.

Fixpoint run (l : list input) : M unit :=
  match l with
  | [] => ret tt
  | i :: l' => perform i ;; run l'
  end.

(** *** Notions for the statements *)

(** The audio given to [_process_audio], thread by thread. *)
Fixpoint processed (tr : list event) : list (list sample) :=
  match tr with
  | [] => []
  | ProcessAudio audio_data :: tr' => audio_data :: processed tr'
  | _ :: tr' => processed tr'
  end.

(** The capture threads that the audio recorder started. *)
Fixpoint sessions (tr : list event) : nat :=
  match tr with
  | [] => 0
  | Recorder (ThreadStart _) :: tr' => S (sessions tr')
  | _ :: tr' => sessions tr'
  end.

(** What the callbacks in a trace of the audio recorder make of
    [self.is_recording], and the audio they pass on. *)
Fixpoint after (tr : list (Manual.event sample)) (b : bool) : bool :=
  match tr with
  | [] => b
  | Invoke Direct OnStart _ _ :: tr' => after tr' true
  | Invoke Direct OnStop _ (Some _) :: tr' => after tr' false
  | _ :: tr' => after tr' b
  end.

Fixpoint passed_on (tr : list (Manual.event sample)) : list (list sample) :=
  match tr with
  | [] => []
  | Invoke Direct OnStop _ (Some audio_data) :: tr' =>
      audio_data :: passed_on tr'
  | _ :: tr' => passed_on tr'
  end.

(** Is the audio recorder recording. *)
Definition capturing (v : VoiceRecorder) : bool :=
  match audio_recorder v with
  | Some w => Manual.is_recording (Manual.self w)
  | None => false
  end.





(** The [VoiceRecorder] believes that a recording is under way, and the
    audio recorder is idle. *)
Definition locked (v : VoiceRecorder) : Prop :=
  is_recording v = true /\ audio_recorder v <> None /\ capturing v = false.

End Recorder.

Arguments VoiceRecorder sample : clear implicits.
Arguments event sample : clear implicits.
Arguments input sample : clear implicits.

End Voice.

(** ** The global hotkeys: [HotkeyHandler]

    An embedding of [src/hotkey_handler.py].  The [keyboard] library is
    its list of registered hooks and an oracle that tells which
    registrations it accepts; the callbacks are opaque callables, as for
    the recorders. *)

Module Hotkeys.

(** Log records of [hotkey_handler.py], by their text. *)
Inductive message : Type :=
| Initialized               (* "HotkeyHandler initialized" *)
| PressedStarting           (* "Record key {k} pressed - starting recording" *)
| ReleasedStopping          (* "Record key {k} released - stopping recording" *)
| CancelDetected            (* "Cancel key combination detected" *)
| ErrorInPressHandler       (* "Error in record key press handler: ..." *)
| ErrorInReleaseHandler     (* "Error in record key release handler: ..." *)
| ErrorInCancelHandler      (* "Error in cancel key handler: ..." *)
| AlreadyListening          (* "Already listening for hotkeys" *)
| ListeningStarted          (* "Global hotkey listening started - Record key: ..." *)
| Controls                  (* "Controls: Hold ... to record, ... to cancel" *)
| FailedToStartListeners    (* "Failed to start hotkey listeners: ..." *)
| StoppingListening         (* "Stopping hotkey listening..." *)
| ErrorStoppingListener     (* "Error stopping keyboard listener: ..." *)
| CleanedUp.                (* "HotkeyHandler cleaned up" *)

(** The three callbacks of the handler. *)
Inductive slot : Type :=
| OnStartRecording
| OnStopRecording
| OnCancelRecording.

(** What can be registered with the [keyboard] library. *)
Inductive registration : Type :=
| OnPressKey (k : String.string)     (* keyboard.on_press_key(k, ...) *)
| OnReleaseKey (k : String.string)   (* keyboard.on_release_key(k, ...) *)
| AddHotkey (combo : String.string). (* keyboard.add_hotkey(combo, ...) *)

Inductive event : Type :=
| Logged (l : level) (m : message)
| Called (s : slot) (cb : callback).

(** The attributes of a [HotkeyHandler]. *)
Record HotkeyHandler : Type := {
  is_active : bool;
  is_recording : bool;
  on_start_recording : option callback;
  on_stop_recording : option callback;
  on_cancel_recording : option callback;
  record_key : String.string;
  cancel_key_combo : String.string
}.

Definition set_is_active (b : bool) (h : HotkeyHandler) : HotkeyHandler :=
  {| is_active := b; is_recording := is_recording h;
     on_start_recording := on_start_recording h;
     on_stop_recording := on_stop_recording h;
     on_cancel_recording := on_cancel_recording h;
     record_key := record_key h; cancel_key_combo := cancel_key_combo h |}.

Definition set_is_recording (b : bool) (h : HotkeyHandler) : HotkeyHandler :=
  {| is_active := is_active h; is_recording := b;
     on_start_recording := on_start_recording h;
     on_stop_recording := on_stop_recording h;
     on_cancel_recording := on_cancel_recording h;
     record_key := record_key h; cancel_key_combo := cancel_key_combo h |}.

(** The handler and the hooks that the [keyboard] library holds. *)
Record world : Type := {
  self : HotkeyHandler;
  hooks : list registration
}.

Definition with_self (f : HotkeyHandler -> HotkeyHandler) (w : world) : world :=
  {| self := f (self w); hooks := hooks w |}.

Definition with_hooks (f : list registration -> list registration)
    (w : world) : world :=
  {| self := self w; hooks := f (hooks w) |}.

(** The [keyboard] library: which registrations it accepts (the others
    raise), and whether [unhook_all()] returns. *)
Record keyboard : Type := {
  accepts : registration -> bool;
  unhooks : bool
}.

Definition M (A : Type) : Type := Eff world event A.

Definition get {A : Type} (f : HotkeyHandler -> A) : M A :=
  gets (fun w => f (self w)).
Definition set (f : HotkeyHandler -> HotkeyHandler) : M unit :=
  modify (with_self f).

(** [__init__]. *)
Definition __init__ : HotkeyHandler * list event :=
  ({| is_active := false; is_recording := false;
      on_start_recording := None; on_stop_recording := None;
      on_cancel_recording := None;
      record_key := "right_ctrl"%string;
      cancel_key_combo := "ctrl+shift+c"%string |},
   [Logged INFO Initialized]).

(** [cb()] inside [try: ... except Exception: self.logger.error(...)]. *)
Definition call (s : slot) (c : callback) (on_error : message) : M unit :=
  emit (Called s c) ;;
  match cb_does c with
  | Returns => ret tt
  | Raises => emit (Logged ERROR on_error)
  end.

Definition _on_record_key_press : M unit :=
  rec <- get is_recording ;;
  if negb rec then
    cb <- get on_start_recording ;;
    match cb with
    | Some c =>
        emit (Logged INFO PressedStarting) ;;
        set (set_is_recording true) ;;
        call OnStartRecording c ErrorInPressHandler
    | None => ret tt
    end
  else ret tt.

Definition _on_record_key_release : M unit :=
  rec <- get is_recording ;;
  if rec then
    cb <- get on_stop_recording ;;
    match cb with
    | Some c =>
        emit (Logged INFO ReleasedStopping) ;;
        set (set_is_recording false) ;;
        call OnStopRecording c ErrorInReleaseHandler
    | None => ret tt
    end
  else ret tt.

Definition _on_cancel_key : M unit :=
  rec <- get is_recording ;;
  cb <- get on_cancel_recording ;;
  match rec, cb with
  | true, Some c =>
      emit (Logged INFO CancelDetected) ;;
      call OnCancelRecording c ErrorInCancelHandler
  | _, _ => ret tt
  end.

Definition stop_listening (kb : keyboard) : M unit :=
  active <- get is_active ;;
  if negb active then ret tt
  else
    emit (Logged INFO StoppingListening) ;;
    (if unhooks kb then modify (with_hooks (fun _ => []))
     else emit (Logged ERROR ErrorStoppingListener)) ;;
    set (set_is_active false) ;;
    set (set_is_recording false).

(** One registration: the hook is added, or the call raises ([false]). *)
Definition register (kb : keyboard) (r : registration) : M bool :=
  if accepts kb r
  then modify (with_hooks (fun l => l ++ [r])) ;; ret true
  else ret false.

(** [start_listening]; the result is [false] when the method re-raises. *)
Definition start_listening (kb : keyboard) : M bool :=
  active <- get is_active ;;
  if active then emit (Logged WARNING AlreadyListening) ;; ret true
  else
    k <- get record_key ;;
    combo <- get cancel_key_combo ;;
    ok1 <- register kb (OnPressKey k) ;;
    ok2 <- (if ok1 then register kb (OnReleaseKey k) else ret false) ;;
    ok3 <- (if ok2 then register kb (AddHotkey combo) else ret false) ;;
    if ok3 then
      set (set_is_active true) ;;
      emit (Logged INFO ListeningStarted) ;;
      emit (Logged INFO Controls) ;;
      ret true
    else
      emit (Logged ERROR FailedToStartListeners) ;;
      stop_listening kb ;;
      ret false.

Definition cleanup (kb : keyboard) : M unit :=
  stop_listening kb ;;
  emit (Logged INFO CleanedUp).

(** *** Runs: what the keyboard reports *)

Inductive signal : Type :=
| KeyDown       (* the record key is pressed, or repeats while held *)
| KeyUp         (* the record key is released *)
| CancelCombo.  (* the cancel combination is pressed *)

Definition perform (s : signal) : M unit :=
  match s with
  | KeyDown => _on_record_key_press
  | KeyUp => _on_record_key_release
  | CancelCombo => _on_cancel_key
  end.

Fixpoint run (l : list signal) : M unit :=
  match l with
  | [] => ret tt
  | s :: l' => perform s ;; run l'
  end.

(** *** Notions for the statements *)

(** The callbacks that a trace calls, in order. *)
Fixpoint calls (tr : list event) : list slot :=
  match tr with
  | [] => []
  | Called s _ :: tr' => s :: calls tr'
  | _ :: tr' => calls tr'
  end.

(** A sequence of calls in which starts and stops take turns, a stop
    first when [recording], and cancels come during a recording only. *)
Fixpoint in_turn (recording : bool) (l : list slot) : bool :=
  match l with
  | [] => true
  | OnStartRecording :: l' => negb recording && in_turn true l'
  | OnStopRecording :: l' => recording && in_turn false l'
  | OnCancelRecording :: l' => recording && in_turn recording l'
  end.

End Hotkeys.

(** ** The choice of the Whisper model

    An embedding of [select_model_for_device] and [get_optimal_device] of
    [src/whisperclipboard/device_detector.py] and of the construction and
    [_load_model] of [WhisperTranscriber] in
    [src/whisperclipboard/transcriber.py].  [torch] and [whisper] are
    oracles. *)

Module Detector.

Inductive message : Type :=
| CudaDetected              (* "CUDA device detected: ..." *)
| MpsDetected               (* "Apple Metal Performance Shaders (MPS) detected" *)
| UsingCpu                  (* "Using CPU for inference" *)
| MayBeSlowOnCpu (size : String.string)
                            (* "Model '{size}' may be slow on CPU, recommending 'base'" *)
| TranscriberInitialized    (* "WhisperTranscriber initialized: ..." *)
| LoadingModel (size device : String.string)
                            (* "Loading Whisper model '{size}' on {device}..." *)
| ModelLoaded               (* "Model loaded successfully in ...s" *)
| ModelOnDevice             (* "Model loaded on device: ..." *)
| FailedToLoad              (* "Failed to load Whisper model: ..." *)
| AttemptingFallback        (* "Attempting fallback to CPU..." *)
| FallbackSuccessful (size : String.string)
                            (* "Fallback successful: model={size}, device=cpu" *)
| FallbackFailed.           (* "CPU fallback also failed: ..." *)

Inductive event : Type :=
| Logged (l : level) (m : message)
| Printed (m : message).

(** [x in l] on strings. *)
Definition among (x : String.string) (l : list String.string) : bool :=
  existsb (String.eqb x) l.

(** [get_optimal_device]; the arguments are [torch.cuda.is_available()]
    and whether MPS exists and is available. *)
Definition get_optimal_device (cuda mps : bool)
    : String.string * list event :=
  if cuda then ("cuda"%string, [Logged INFO CudaDetected])
  else if mps then ("mps"%string, [Logged INFO MpsDetected])
  else ("cpu"%string, [Logged INFO UsingCpu]).

Definition select_model_for_device (device preferred_size : String.string)
    : String.string * list event :=
  if String.eqb device "cpu"%string then
    if among preferred_size ["large"; "medium"]%string
    then ("base"%string, [Logged WARNING (MayBeSlowOnCpu preferred_size)])
    else
      (if among preferred_size ["tiny"; "base"; "small"]%string
       then preferred_size else "base"%string, [])
  else if among device ["cuda"; "mps"]%string then
    (if among preferred_size ["tiny"; "base"; "small"; "medium"; "large"]%string
     then preferred_size else "base"%string, [])
  else ("base"%string, []).

(** The attributes of a [WhisperTranscriber] that the choice and the
    loading of the model read and write; [model] is the size and the
    device that [whisper.load_model] was called with. *)
Record WhisperTranscriber : Type := {
  debug_mode : bool;
  model_size : String.string;
  device : String.string;
  model : option (String.string * String.string);
  is_loading : bool
}.

Definition M (A : Type) : Type := Eff WhisperTranscriber event A.

Definition set_model_size (s : String.string) (t : WhisperTranscriber)
    : WhisperTranscriber :=
  {| debug_mode := debug_mode t; model_size := s; device := device t;
     model := model t; is_loading := is_loading t |}.

Definition set_device (d : String.string) (t : WhisperTranscriber)
    : WhisperTranscriber :=
  {| debug_mode := debug_mode t; model_size := model_size t; device := d;
     model := model t; is_loading := is_loading t |}.

Definition set_model (m : option (String.string * String.string))
    (t : WhisperTranscriber) : WhisperTranscriber :=
  {| debug_mode := debug_mode t; model_size := model_size t;
     device := device t; model := m; is_loading := is_loading t |}.

Definition set_is_loading (b : bool) (t : WhisperTranscriber)
    : WhisperTranscriber :=
  {| debug_mode := debug_mode t; model_size := model_size t;
     device := device t; model := model t; is_loading := b |}.

Definition emits (l : list event) : M unit := fun t => (tt, t, l).

(** [self.model = whisper.load_model(size, device=device)]: [true] when
    the call returned and the model is stored. *)
Definition load (whisper : String.string -> String.string -> bool)
    (size dev : String.string) : M bool :=
  if whisper size dev
  then modify (set_model (Some (size, dev))) ;; ret true
  else ret false.

(** [_load_model]; [whisper size device] tells whether
    [whisper.load_model] returns.  The result is [None] when the method
    does not return: it waits for [is_loading] to be cleared, which in a
    run of one thread nobody does.  What [whisper.load_model] returns is
    a Whisper model: it has the attribute [device] and parameters, so
    that, in debug mode, the record of its device is written. *)
Definition _load_model (whisper : String.string -> String.string -> bool)
    : M (option bool) :=
  m <- gets model ;;
  match m with
  | Some _ => ret (Some true)
  | None =>
      loading <- gets is_loading ;;
      if loading then ret None
      else
        modify (set_is_loading true) ;;
        size <- gets model_size ;;
        dev <- gets device ;;
        dbg <- gets debug_mode ;;
        emit (Printed (LoadingModel size dev)) ;;
        when dbg (emit (Logged INFO (LoadingModel size dev))) ;;
        ok <- load whisper size dev ;;
        result <-
          (if ok then
             emit (Printed ModelLoaded) ;;
             when dbg (emit (Logged INFO ModelLoaded) ;;
                       emit (Logged INFO ModelOnDevice)) ;;
             ret true
           else
             emit (Logged ERROR FailedToLoad) ;;
             if negb (String.eqb dev "cpu"%string) then
               emit (Logged INFO AttemptingFallback) ;;
               modify (set_device "cpu"%string) ;;
               let '(size', warnings) := select_model_for_device "cpu"%string size in
               emits warnings ;;
               modify (set_model_size size') ;;
               ok' <- load whisper size' "cpu"%string ;;
               if ok'
               then emit (Logged INFO (FallbackSuccessful size')) ;; ret true
               else emit (Logged ERROR FallbackFailed) ;; ret false
             else ret false) ;;
        modify (set_is_loading false) ;;
        ret (Some result)
  end.

(** [__init__]; [cuda] and [mps] are read only when [device] is "auto". *)
Definition __init__ (model_size device : String.string) (debug : bool)
    (load_model : bool) (cuda mps : bool)
    (whisper : String.string -> String.string -> bool)
    : WhisperTranscriber * list event :=
  let '(dev, t1) :=
    if negb (String.eqb device "auto"%string) then (device, [])
    else get_optimal_device cuda mps in
  let '(size, t2) := select_model_for_device dev model_size in
  let t0 := {| debug_mode := debug; model_size := size; device := dev;
               model := None; is_loading := false |} in
  let t3 := if debug then [Logged INFO TranscriberInitialized] else [] in
  if load_model
  then let '(_, t, t4) := _load_model whisper t0 in (t, t1 ++ t2 ++ t3 ++ t4)
  else (t0, t1 ++ t2 ++ t3).

(** *** Notions for the statements *)

Definition sizes : list String.string :=
  ["tiny"; "base"; "small"; "medium"; "large"]%string.

Definition cpu_sizes : list String.string :=
  ["tiny"; "base"; "small"]%string.

(** May a model of this size be loaded on this device, by the rule of
    [select_model_for_device]. *)
Definition fits (dev size : String.string) : bool :=
  if String.eqb dev "cpu"%string then among size cpu_sizes
  else if among dev ["cuda"; "mps"]%string then among size sizes
  else String.eqb size "base"%string.

(** The transcriber is not in the middle of a load, its size fits its
    device, and the model it holds, if any, was loaded at that size on
    that device. *)
Definition consistent (t : WhisperTranscriber) : Prop :=
  is_loading t = false /\
  fits (device t) (model_size t) = true /\
  (forall size dev, model t = Some (size, dev) ->
     size = model_size t /\ dev = device t).

End Detector.

(** ** The arithmetic of the detector in NumPy's formats

    [_detect_voice_activity] computes on a [float32] array
    ([np.frombuffer(in_data, dtype=np.float32)]): the squares and their
    sum are rounded to binary32, the mean is the sum divided by the
    number of samples in binary64 and converted to binary32, the root is
    rounded to binary32, and the comparison with the threshold is exact.
    The formats are those of the Standard Library's [SpecFloat], with
    rounding to nearest, ties to even; a float is a [spec_float] of
    either format. *)

Module Float32.

Definition prec32 : Z := 24.
Definition emax32 : Z := 128.
Definition prec64 : Z := 53.
Definition emax64 : Z := 1024.

Definition mul32 : spec_float -> spec_float -> spec_float := SFmul prec32 emax32.
Definition add32 : spec_float -> spec_float -> spec_float := SFadd prec32 emax32.
Definition sqrt32 : spec_float -> spec_float := SFsqrt prec32 emax32.
Definition div64 : spec_float -> spec_float -> spec_float := SFdiv prec64 emax64.
Definition sub64 : spec_float -> spec_float -> spec_float := SFsub prec64 emax64.

(** [np.float32(x)] for a [float64] [x]. *)
Definition to32 (x : spec_float) : spec_float :=
  match x with
  | S754_finite s m e => binary_round prec32 emax32 s m e
  | _ => x
  end.

(** The number of samples (an [intp]) as a [float64]: the integer
    itself at exponent 0, which is its value below [2^53]. *)
Definition of_count (n : nat) : spec_float :=
  match n with
  | O => S754_zero false
  | S _ => S754_finite false (Pos.of_nat n) 0
  end.

(** *** The sum of a [float32] array

    NumPy adds the elements of a contiguous array pairwise: fewer than
    eight one after the other; up to 128 in eight running sums that are
    added as a tree, followed by the elements that do not fill a round
    of eight; more than 128 as the sum of the two halves, the first of a
    length that is a multiple of eight. *)

(** [r[j] += b[j]] for the eight running sums. *)
Definition add8 (r b : list spec_float) : list spec_float :=
  map (fun p => add32 (fst p) (snd p)) (combine r b).

(** [rounds] more rounds of eight elements. *)
Fixpoint unrolled (rounds : nat) (r a : list spec_float)
    : list spec_float * list spec_float :=
  match rounds with
  | O => (r, a)
  | S k => unrolled k (add8 r (firstn 8 a)) (skipn 8 a)
  end.

(** [((r[0] + r[1]) + (r[2] + r[3])) + ((r[4] + r[5]) + (r[6] + r[7]))]. *)
Definition tree8 (r : list spec_float) : spec_float :=
  match r with
  | [r0; r1; r2; r3; r4; r5; r6; r7] =>
      add32 (add32 (add32 r0 r1) (add32 r2 r3))
            (add32 (add32 r4 r5) (add32 r6 r7))
  | _ => S754_nan
  end.

(** The sum of a block of 8 to 128 elements. *)
Definition block_sum (a : list spec_float) : spec_float :=
  let '(r, rest) := unrolled (length a / 8 - 1) (firstn 8 a) (skipn 8 a) in
  fold_left add32 rest (tree8 r).

(** [pairwise_sum]; [depth] bounds the number of halvings, and the
    length of the array is enough.  A short sum starts from [-0.0]. *)
Fixpoint pairwise_sum (depth : nat) (a : list spec_float) : spec_float :=
  let n := length a in
  if n <? 8 then fold_left add32 a (S754_zero true)
  else if n <=? 128 then block_sum a
  else
    match depth with
    | O => S754_nan
    | S depth' =>
        let n2 := n / 2 - (n / 2) mod 8 in
        add32 (pairwise_sum depth' (firstn n2 a))
              (pairwise_sum depth' (skipn n2 a))
    end.

(** [np.add.reduce]: the sum starts from the identity of the addition.
    A square is never [-0.0], so the sign of the zeros that the sums
    start from does not show in the energy. *)
Definition umr_sum (a : list spec_float) : spec_float :=
  add32 (S754_zero false) (pairwise_sum (length a) a).

(** [np.mean] of a [float32] array: [ret.dtype.type(ret / rcount)], the
    count being an [intp] and the quotient a [float64]. *)
Definition mean32 (a : list spec_float) : spec_float :=
  to32 (div64 (umr_sum a) (of_count (length a))).

(** *** Comparison

    A comparison of two floats is exact, whatever their formats:
    [rms > self.vad_threshold] compares the [float32] energy with the
    threshold as it stands in [vad_threshold], a [float64], or the
    [float32] nearest to it where NumPy converts a Python float first. *)
Definition aligned (s : bool) (m : positive) (e ez : Z) : Z :=
  cond_Zopp s (Zpos m * 2 ^ (e - ez)).

Definition compare_exact (a b : spec_float) : option comparison :=
  match a, b with
  | S754_finite s1 m1 e1, S754_finite s2 m2 e2 =>
      let ez := Z.min e1 e2 in
      Some (Z.compare (aligned s1 m1 e1 ez) (aligned s2 m2 e2 ez))
  | _, _ => SFcompare a b
  end.

Definition gt_exact (a b : spec_float) : bool :=
  match compare_exact a b with
  | Some Gt => true
  | _ => false
  end.

(** NumPy's arithmetic on [float32] samples, with Python's on the times
    (which are [float64]). *)
#[global] Instance float32_numeric : Numeric spec_float := {|
  np_square := map (fun x => mul32 x x);
  np_mean := mean32;
  np_sqrt := sqrt32;
  gt := gt_exact;
  minus := sub64
|}.

(** *** The numbers that the floats stand for *)

(** The value of a finite float; [0] for the others. *)
Definition exact (x : spec_float) : Q :=
  match x with
  | S754_finite s m e =>
      ((if s then - (1) else 1) * (inject_Z (Zpos m) * 2 ^ e))%Q
  | _ => 0%Q
  end.

Definition total (l : list Q) : Q := fold_right Qplus 0%Q l.

(** The mean of the squared samples, exactly: the square of the
    root-mean-square energy of the specification. *)
Definition mean_square (chunk : list spec_float) : Q :=
  (total (map (fun x => exact x * exact x) chunk)
   / inject_Z (Z.of_nat (length chunk)))%Q.

(** The relative distance of two neighbours in a format of [prec] bits,
    and the factor by which [k] roundings to binary32 can move a positive
    quantity. *)
Definition step (prec : Z) : Q := (2 ^ (1 - prec))%Q.

Definition band (k : nat) : Q := ((1 + step prec32) ^ Z.of_nat k)%Q.

(** [x] and [y] are within a factor [w] of each other. *)
Definition within (w x y : Q) : Prop := (y <= x * w /\ x <= y * w)%Q.

(** A positive normal number of the format. *)
Definition normal (prec emax : Z) (x : spec_float) : Prop :=
  exists m e,
    x = S754_finite false m e /\ Zdigits2 (Zpos m) = prec /\
    (emin prec emax <= e <= emax - prec)%Z.

(** [x] is what the addition of [n] squares in binary32 has made of
    their exact sum [S]: both are zero, or [x] is a normal number within
    [band n] of [S]. *)
Definition summed (n : nat) (x : spec_float) (S : Q) : Prop :=
  (S == 0 /\ exists s, x = S754_zero s)%Q \/
  ((1 <= n)%nat /\ normal prec32 emax32 x /\
   within (band n) (exact x) S /\
   2 ^ (-100) <= S /\ S <= inject_Z (Z.of_nat n) * 2 ^ 100)%Q.

(** [R[j] + B[j]] on exact sums. *)
Definition plus8 (R B : list Q) : list Q :=
  map (fun p => (fst p + snd p)%Q) (combine R B).

(** A binary32 sample that is zero or of a magnitude from [2^-50] up to
    [2^50]. *)
Definition audible (x : spec_float) : bool :=
  match x with
  | S754_zero _ => true
  | S754_finite _ m e =>
      (Zdigits2 (Zpos m) =? prec32)%Z && (-73 <=? e)%Z && (e <=? 26)%Z
  | _ => false
  end.

(** A threshold that is a number and not negative. *)
Definition threshold (t : spec_float) : bool :=
  match t with
  | S754_zero _ => true
  | S754_finite false _ _ => true
  | _ => false
  end.

(** The binary32 nearest to [m * 2^e], and the binary64. *)
Definition f32 (m e : Z) : spec_float := binary_normalize prec32 emax32 m e false.
Definition f64 (m e : Z) : spec_float := binary_normalize prec64 emax64 m e false.

End Float32.

(** ** More set-ups to run the models on *)

Module Setups.
Import Scenarios.

(** The device table of [Scenarios.host]: device 0 plays only, device 1
    is a microphone with two channels. *)
Definition inputs (i : Z) : option Upkeep.device_info :=
  if (i =? 0)%Z then
    Some {| Upkeep.name := "speakers"%string;
            Upkeep.maxInputChannels := 0;
            Upkeep.defaultSampleRate := inject_Z 48000 |}
  else if (i =? 1)%Z then
    Some {| Upkeep.name := "microphone"%string;
            Upkeep.maxInputChannels := 2;
            Upkeep.defaultSampleRate := inject_Z 44100 |}
  else None.

Definition microphone : Upkeep.device :=
  {| Upkeep.index := 1; Upkeep.device_name := "microphone"%string;
     Upkeep.device_channels := 2;
     Upkeep.device_sample_rate := inject_Z 44100 |}.

(** Three chunks of two samples at the device. *)
Definition three_at_the_device : Manual.world Z :=
  fresh false None (map (@Manual.Chunk Z) (chunks 0 2 3)).

(** A loud and a quiet chunk for [listener]. *)
Definition loud : list PrimFloat.float := [0.5; -0.5]%float.
Definition quiet : list PrimFloat.float := [0; 0]%float.

(** Voice at 9.0 s, then silence at 10.0 s and at 12.5 s. *)
Definition voice_then_silence : list (Listening.call PrimFloat.float) :=
  [Listening.Frame loud false 9.0%float;
   Listening.Frame quiet false 10.0%float;
   Listening.Frame quiet false 12.5%float].

(** [listener], initialized on a host with two devices and listening. *)
Definition listening : Vad.recorder PrimFloat.float :=
  final (Listening.start_listening 0.01%float 2.0%float 30.0%float
           (Some {| Vad.closes := true |}) true true
           (final (Vad._initialize_audio
                     (Some {| Vad.get_device_count := 2 |})
                     (listener None)))).

(** [listening], after a loud chunk. *)
Definition hearing : Vad.recorder PrimFloat.float :=
  final (Vad._audio_callback loud false 9.0%float listening).

Definition ctrl_r : Voice.key := "ctrl_r"%string.

(** A [VoiceRecorder] on [Scenarios.host] after [initialize_components],
    with the record key "ctrl_r" and [readings] at the device. *)
Definition voice (readings : list (Manual.reading Z)) : Voice.VoiceRecorder Z :=
  final (Voice.initialize_components (Some host) 16000 1024 1 None readings
           (Voice.__init__ false ctrl_r)).

(** The hotkey pressed and released at once. *)
Definition tapped : Voice.VoiceRecorder Z :=
  final (Voice.run [Voice.Press ctrl_r; Voice.Release ctrl_r]
           (voice (Manual.mic three_at_the_device))).

(** [AudioRecorder(config)] on [float32] samples, with the default
    threshold: the [float64] nearest to 0.01, and the timeout 2.0 s. *)
Definition listener32 : Vad.recorder spec_float :=
  {| Vad.sample_rate := 16000; Vad.chunk_size := 1024; Vad.channels := 1;
     Vad.device_index := None;
     Vad.is_recording := false; Vad.is_listening := false;
     Vad.audio_data := []; Vad.pyaudio := None; Vad.stream := None;
     Vad.vad_threshold := Float32.f64 5764607523034235 (-59);
     Vad.silence_start_time := None;
     Vad.silence_timeout := Float32.f64 2 0;
     Vad.on_recording_start := Some (Callback 1 Returns);
     Vad.on_recording_stop := Some (Callback 2 Returns) |}.

(** The same, with the threshold converted to [float32] before it is
    compared, as a NumPy that takes Python floats for weak does. *)
Definition listener32_weak : Vad.recorder spec_float :=
  Listening.set_vad_threshold (Float32.f32 10737418 (-30)) listener32.

(** The samples 0.5, -0.5, 0.25, -0.25, and samples of about a
    thousandth. *)
Definition loud32 : list spec_float :=
  [Float32.f32 1 (-1); Float32.f32 (-1) (-1);
   Float32.f32 1 (-2); Float32.f32 (-1) (-2)].

Definition quiet32 : list spec_float :=
  [Float32.f32 1 (-10); Float32.f32 (-1) (-9); Float32.f32 1 (-10);
   Float32.f32 0 0].

(** Three samples next to 0.01: 0.0099999969..., and twice
    0.0100000016...; their root-mean-square energy is 0.01000000008... *)
Definition at_the_threshold : list spec_float :=
  [Float32.f32 10737415 (-30); Float32.f32 10737420 (-30);
   Float32.f32 10737420 (-30)].

(** A [HotkeyHandler] as constructed, with its three callbacks set, and
    no hook registered yet. *)
Definition handler : Hotkeys.world :=
  {| Hotkeys.self :=
       {| Hotkeys.is_active := false; Hotkeys.is_recording := false;
          Hotkeys.on_start_recording := Some (Callback 1 Returns);
          Hotkeys.on_stop_recording := Some (Callback 2 Returns);
          Hotkeys.on_cancel_recording := Some (Callback 3 Raises);
          Hotkeys.record_key := Hotkeys.record_key (fst Hotkeys.__init__);
          Hotkeys.cancel_key_combo :=
            Hotkeys.cancel_key_combo (fst Hotkeys.__init__) |};
     Hotkeys.hooks := [] |}.

(** A [keyboard] library that accepts key hooks and refuses hotkeys. *)
Definition no_hotkeys : Hotkeys.keyboard :=
  {| Hotkeys.accepts := fun r => match r with
                                 | Hotkeys.AddHotkey _ => false
                                 | _ => true
                                 end;
     Hotkeys.unhooks := true |}.

End Setups.

(** ** Facts about traces *)

Section Traces.

Context {state ev : Type} (P : ev -> bool).

Lemma all_ret {A : Type} (a : A) : traces_all P (ret (state := state) a).
Proof. intros s; reflexivity. Qed.

Lemma all_gets {A : Type} (f : state -> A) : traces_all P (gets f).
Proof. intros s; reflexivity. Qed.

Lemma all_modify (f : state -> state) : traces_all P (modify f).
Proof. intros s; reflexivity. Qed.

Lemma all_emit (e : ev) : P e = true -> traces_all P (emit (state := state) e).
Proof. intros H s; cbn. now rewrite H. Qed.

Lemma all_bind {A B : Type} (m : Eff state ev A) (k : A -> Eff state ev B) :
  traces_all P m -> (forall a, traces_all P (k a)) -> traces_all P (bind m k).
Proof.
  intros Hm Hk s. unfold bind, trace.
  specialize (Hm s). destruct (m s) as [[a s1] t1]; cbn in Hm.
  specialize (Hk a s1). destruct (k a s1) as [[b s2] t2]; cbn in *.
  now rewrite forallb_app, Hm, Hk.
Qed.

Lemma all_when (b : bool) (m : Eff state ev unit) :
  traces_all P m -> traces_all P (when b m).
Proof. intros Hm; destruct b; [exact Hm | apply all_ret]. Qed.

End Traces.

Ltac traces :=
  repeat
    match goal with
    | |- traces_all _ (bind _ _) => apply all_bind; [|intros ?]
    | |- traces_all _ (ret _) => apply all_ret
    | |- traces_all _ (gets _) => apply all_gets
    | |- traces_all _ (modify _) => apply all_modify
    | |- traces_all _ (emit _) => apply all_emit; reflexivity
    | |- traces_all _ (when _ _) => apply all_when
    | |- traces_all _ (if ?b then _ else _) => destruct b
    | |- traces_all _ (match ?x with _ => _ end) => destruct x
    end.

Lemma filter_none {A : Type} (f : A -> bool) (l : list A) :
  existsb f l = false -> filter f l = [].
Proof.
  induction l as [|a l IH]; cbn; auto.
  intros H; apply orb_false_iff in H as [Ha Hl]. now rewrite Ha, IH.
Qed.

Lemma length_concat_uniform {A : Type} (F : nat) (frames : list (list A)) :
  Forall (fun f => length f = F) frames ->
  length (concat frames) = length frames * F.
Proof.
  induction 1 as [|f frames Hf _ IH]; cbn; auto.
  rewrite length_app, IH, Hf; reflexivity.
Qed.

Lemma length_set_nth {A : Type} n (x : A) l :
  length (Manual.set_nth n x l) = length l.
Proof.
  revert n; induction l as [|y l IH]; intros [|n]; cbn; auto.
Qed.

Lemma nth_error_set_nth_same {A : Type} n (x : A) l :
  n < length l -> nth_error (Manual.set_nth n x l) n = Some x.
Proof.
  revert n; induction l as [|y l IH]; intros [|n] Hn; cbn in *;
    try lia; auto. apply IH; lia.
Qed.

Unset Implicit Arguments.

Module ManualFacts.
Import Manual.

(** Unfolds one layer of the monad. *)
Ltac monad :=
  repeat (unfold bind, ret, emit, gets, modify, when, get, set, call,
            value, final, trace in *; cbn in *).

Ltac break_match :=
  match goal with
  | |- context [match ?x with _ => _ end] => destruct x eqn:?
  | H : context [match ?x with _ => _ end] |- _ => destruct x eqn:?
  end.

Section Facts.

Context {sample : Type}.

Abbreviation world := (Manual.world sample).
Abbreviation event := (Manual.event sample).
Abbreviation frame := (list sample).
Abbreviation action := (Manual.action sample).

Lemma same_control_refl (w : world) : same_control w w.
Proof. unfold same_control; repeat split. Qed.

Lemma same_control_trans (w1 w2 w3 : world) :
  same_control w1 w2 -> same_control w2 w3 -> same_control w1 w3.
Proof. unfold same_control; intuition congruence. Qed.

(** A thread step logs, and never dispatches a callback or starts or
    joins a thread. *)
Lemma worker_step_control t (w w' : world) tr :
  _recording_worker t w = Some (w', tr) ->
  same_control w w' /\ forallb is_log tr = true.
Proof.
  unfold _recording_worker, same_control; intros H.
  repeat break_match; inversion H; subst; cbn;
    rewrite ?length_set_nth; repeat split; congruence.
Qed.

(** A thread step takes at most one result off the microphone, and
    appends to the buffer exactly the chunk it took, if it took one. *)
Lemma worker_step_mic t (w w' : world) tr :
  _recording_worker t w = Some (w', tr) ->
  exists taken,
    mic w = taken ++ mic w' /\ length taken <= 1 /\
    audio_buffer (self w') = audio_buffer (self w) ++ chunks_of taken.
Proof.
  unfold _recording_worker; intros H.
  repeat break_match; inversion H; subst; cbn;
    try (exists []; cbn; rewrite ?app_nil_r; repeat split; auto; fail).
  - exists [Chunk f]; cbn; rewrite Heql; auto.
  - exists [ReadError]; cbn; rewrite Heql, app_nil_r; auto.
  - exists [ReadError]; cbn; rewrite Heql, app_nil_r; auto.
Qed.

Lemma run_thread_control fuel t (w : world) :
  same_control w (fst (run_thread fuel t w)) /\
  forallb is_log (snd (run_thread fuel t w)) = true.
Proof.
  revert w; induction fuel as [|n IH]; intros w; cbn.
  - split; [apply same_control_refl | reflexivity].
  - destruct (_recording_worker t w) as [[w1 e1]|] eqn:Hs; cbn.
    + destruct (worker_step_control _ _ _ _ Hs) as [Hc Hl].
      specialize (IH w1). destruct (run_thread n t w1) as [w2 e2]; cbn in *.
      destruct IH as [Hc2 Hl2]. split.
      * eapply same_control_trans; eauto.
      * rewrite forallb_app, Hl, Hl2; reflexivity.
    + split; [apply same_control_refl | reflexivity].
Qed.

Lemma chunks_of_app (l1 l2 : list (reading sample)) :
  chunks_of (l1 ++ l2) = chunks_of l1 ++ chunks_of l2.
Proof.
  induction l1 as [|[f|] l1 IH]; cbn; auto. now rewrite IH.
Qed.

(** However long a thread runs, what it appends to the buffer is what it
    took off the microphone, in that order. *)
Lemma run_thread_mic fuel t (w : world) :
  exists taken,
    mic w = taken ++ mic (fst (run_thread fuel t w)) /\
    audio_buffer (self (fst (run_thread fuel t w))) =
      audio_buffer (self w) ++ chunks_of taken.
Proof.
  revert w; induction fuel as [|n IH]; intros w; cbn.
  - exists []; cbn; now rewrite app_nil_r.
  - destruct (_recording_worker t w) as [[w1 e1]|] eqn:Hs; cbn.
    + destruct (worker_step_mic _ _ _ _ Hs) as (k1 & Hm1 & _ & Hb1).
      specialize (IH w1). destruct (run_thread n t w1) as [w2 e2]; cbn in *.
      destruct IH as (k2 & Hm2 & Hb2).
      exists (k1 ++ k2). split.
      * now rewrite <- app_assoc, <- Hm2.
      * now rewrite Hb2, Hb1, chunks_of_app, app_assoc.
    + exists []; cbn; now rewrite app_nil_r.
Qed.

(** *** The capture loop once the flag is set *)

Lemma worker_step_flagged t (w w' : world) tr p :
  stop_recording_event (self w) = true ->
  nth_error (threads w) t = Some p ->
  _recording_worker t w = Some (w', tr) ->
  exists p',
    nth_error (threads w') t = Some p' /\ rank p' < rank p /\
    length (mic w) + reads_left p' <= length (mic w') + reads_left p /\
    stop_recording_event (self w') = true.
Proof.
  intros Hf Hp Hs.
  assert (Hlt : t < length (threads w))
    by (apply nth_error_Some; congruence).
  unfold _recording_worker in Hs. rewrite Hp, Hf in Hs.
  destruct p; repeat break_match; try discriminate;
    inversion Hs; subst; cbn;
    rewrite nth_error_set_nth_same by assumption;
    eexists; (split; [reflexivity|]); cbn; rewrite ?Heql; cbn;
    repeat split; auto; lia.
Qed.

Lemma worker_step_stuck t (w : world) p :
  nth_error (threads w) t = Some p ->
  _recording_worker t w = None ->
  p = Exited \/ (p = AtRead /\ mic w = []).
Proof.
  intros Hp Hs. unfold _recording_worker in Hs. rewrite Hp in Hs.
  destruct p; repeat break_match; try discriminate; auto.
Qed.

Lemma run_thread_flagged fuel t (w : world) p :
  stop_recording_event (self w) = true ->
  nth_error (threads w) t = Some p ->
  let w' := fst (run_thread fuel t w) in
  length (mic w) <= length (mic w') + reads_left p /\
  (rank p <= fuel ->
   finished t w' = true \/ (p = AtRead /\ mic w = [])).
Proof.
  revert w p; induction fuel as [|n IH]; intros w p Hf Hp; cbn.
  - split; [lia|]. intros Hr. destruct p; cbn in Hr; try lia.
    left. unfold finished. now rewrite Hp.
  - destruct (_recording_worker t w) as [[w1 e1]|] eqn:Hs; cbn.
    + destruct (worker_step_flagged _ _ _ _ _ Hf Hp Hs) as (p' & Hp' & Hr & Hm & Hf').
      specialize (IH w1 p' Hf' Hp').
      destruct (run_thread n t w1) as [w2 e2]; cbn in *.
      destruct IH as [IHm IHx]. split; [lia|].
      intros Hfuel. destruct IHx as [Hfin|[Hp1 Hm1]]; [lia|auto|].
      subst p'. cbn in Hr. destruct p; cbn in Hr; lia.
    + split; [lia|]. intros _.
      destruct (worker_step_stuck _ _ _ Hp Hs) as [->|[-> Hm]]; auto.
      left. unfold finished. now rewrite Hp.
Qed.

(** *** The controller's methods, unfolded *)

Lemma logs_do_not_invoke (tr : list event) :
  forallb is_log tr = true -> existsb is_invoke tr = false.
Proof.
  induction tr as [|e tr IH]; cbn; auto.
  intros H; apply andb_true_iff in H as [He Ht].
  destruct e; cbn in *; try discriminate; auto.
Qed.

Lemma join_recording_thread_spec (w : world) :
  same_control w (final (join_recording_thread w)) /\
  existsb is_invoke (trace (join_recording_thread w)) = false /\
  exists taken,
    mic w = taken ++ mic (final (join_recording_thread w)) /\
    audio_buffer (self (final (join_recording_thread w))) =
      audio_buffer (self w) ++ chunks_of taken.
Proof.
  unfold join_recording_thread; monad.
  destruct (recording_thread (self w)) as [t|]; cbn.
  - unfold join.
    pose proof (run_thread_control (join_fuel w) t w) as [Hc Hl].
    pose proof (run_thread_mic (join_fuel w) t w) as (taken & Hm & Hb).
    destruct (run_thread (join_fuel w) t w) as [w1 tr]; cbn in *.
    split; [exact Hc | split].
    + rewrite existsb_app. apply orb_false_iff; split;
        [apply logs_do_not_invoke; exact Hl | reflexivity].
    + exists taken; auto.
  - split; [apply same_control_refl | split; [reflexivity|]].
    exists []; cbn; now rewrite app_nil_r.
Qed.

#[local] Arguments join_recording_thread : simpl never.

Lemma stop_recording_unfold (w : world) :
  is_recording (self w) = true ->
  stop_recording w =
    let pre := note (debug_mode (self w)) StoppingManual ++
               trace (join_recording_thread (stopping w)) in
    match audio_buffer (self (joined w)) with
    | [] => (false, joined w, pre ++ [Log WARNING NoAudioData])
    | _ :: _ =>
        let combined := np_concatenate (audio_buffer (self (joined w))) in
        match py_truediv (Z.of_nat (length combined))
                         (sample_rate (self (joined w))) with
        | None => (false, joined w, pre ++ [Log ERROR ErrorProcessing])
        | Some d =>
            (true, joined w,
             pre ++
             note (debug_mode (self w)) (RecordingComplete (length combined) d) ++
             called OnStop (on_recording_stop (self (joined w)))
                    (Some combined) ErrorInStopCallback)
        end
    end.
Proof.
  intros Hrec. unfold stop_recording, joined, note, called.
  unfold bind at 1. unfold get at 1, gets at 1. rewrite Hrec. cbn [negb].
  monad.
  destruct (debug_mode (self w)); cbn.
  all: change (with_self (set_is_recording false)
                 (with_self (set_stop_recording_event true) w))
         with (stopping w).
  all: destruct (join_recording_thread (stopping w)) as [[u w1] tr]; cbn.
  all: destruct (audio_buffer (self w1)) as [|f fs]; cbn;
         [ now rewrite ?app_nil_r | ].
  all: destruct (py_truediv _ _); cbn; [ | now rewrite ?app_nil_r ].
  all: destruct (on_recording_stop (self w1)) as [c|]; cbn;
         [ destruct (cb_does c); cbn | ].
  all: unfold np_concatenate; rewrite ?app_nil_r, <- ?app_assoc; cbn;
         reflexivity.
Qed.

Lemma cancel_recording_unfold (w : world) :
  is_recording (self w) = true ->
  cancel_recording w =
    (tt, with_self (set_audio_buffer []) (joined w),
     Log INFO Cancelling :: trace (join_recording_thread (stopping w))).
Proof.
  intros Hrec. unfold cancel_recording, joined.
  unfold bind at 1. unfold get at 1, gets at 1. rewrite Hrec. cbn [negb].
  monad.
  change (with_self (set_is_recording false)
            (with_self (set_stop_recording_event true) w))
    with (stopping w).
  destruct (join_recording_thread (stopping w)) as [[u w1] tr]; cbn.
  now rewrite app_nil_r.
Qed.

Lemma start_recording_unfold (w : world) :
  is_recording (self w) = false ->
  start_recording w =
    (true,
     {| self := set_recording_thread (Some (length (threads w)))
                  (set_is_recording true
                     (set_stop_recording_event false
                        (set_audio_buffer [] (self w))));
        threads := threads w ++ [AtOpen];
        mic := mic w |},
     note (debug_mode (self w)) StartingManual ++
     ThreadStart (length (threads w)) ::
     called OnStart (on_recording_start (self w)) None ErrorInStartCallback).
Proof.
  intros Hrec. unfold start_recording, note, called.
  unfold bind at 1. unfold get at 1, gets at 1. rewrite Hrec.
  monad. unfold start_thread, spawn, with_self; cbn.
  destruct (debug_mode (self w)); cbn;
    (destruct (on_recording_start (self w)) as [c|]; cbn;
     [ destruct (cb_does c) | ]); reflexivity.
Qed.

Lemma stop_recording_idle (w : world) :
  is_recording (self w) = false ->
  stop_recording w = (false, w, [Log WARNING NotCurrentlyRecording]).
Proof.
  intros Hrec. unfold stop_recording.
  unfold bind at 1. unfold get at 1, gets at 1. rewrite Hrec. reflexivity.
Qed.

Lemma cancel_recording_idle (w : world) :
  is_recording (self w) = false -> cancel_recording w = (tt, w, []).
Proof.
  intros Hrec. unfold cancel_recording.
  unfold bind at 1. unfold get at 1, gets at 1. rewrite Hrec. reflexivity.
Qed.

Lemma joined_control (w : world) :
  is_recording (self (joined w)) = false /\
  stop_recording_event (self (joined w)) = true /\
  sample_rate (self (joined w)) = sample_rate (self w) /\
  on_recording_stop (self (joined w)) = on_recording_stop (self w) /\
  length (threads (joined w)) = length (threads w).
Proof.
  destruct (join_recording_thread_spec (stopping w)) as [Hc _].
  unfold joined. unfold same_control in Hc. cbn in Hc. intuition.
Qed.

Lemma dispatch_is_invoke (h : hook) (tr : list event) :
  existsb is_invoke tr = false -> existsb (dispatches h) tr = false.
Proof.
  induction tr as [|e tr IH]; cbn; auto.
  intros H; apply orb_false_iff in H as [He Ht].
  rewrite (IH Ht), orb_false_r.
  destruct e; cbn in *; try discriminate; destruct h; reflexivity.
Qed.

(** While nobody calls [start_recording], an idle recorder stays idle and
    dispatches nothing. *)
Lemma idle_run (l : list action) (w : world) :
  is_recording (self w) = false ->
  ~ In Start l ->
  is_recording (self (final (run l w))) = false /\
  existsb is_invoke (trace (run l w)) = false /\
  ((forall t, ~ In (Tick t) l) ->
     audio_buffer (self (final (run l w))) = audio_buffer (self w)).
Proof.
  revert w; induction l as [|a l IH]; intros w Hrec Hl.
  - cbn; auto.
  - assert (Hl' : ~ In Start l) by (intros H; apply Hl; now right).
    cbn [run]. unfold bind.
    assert (Hstep : is_recording (self (final (perform a w))) = false /\
                    existsb is_invoke (trace (perform a w)) = false /\
                    ((forall t, a <> Tick t) ->
                     audio_buffer (self (final (perform a w))) =
                       audio_buffer (self w))).
    { destruct a as [| | |t|x]; cbn [perform]; [| | | |cbn; auto].
      - exfalso; apply Hl; now left.
      - unfold bind. rewrite (stop_recording_idle _ Hrec); cbn; auto.
      - rewrite (cancel_recording_idle _ Hrec); cbn; auto.
      - destruct (_recording_worker t w) as [[w1 tr]|] eqn:Hs; cbn; auto.
        destruct (worker_step_control _ _ _ _ Hs) as [Hc Hlog].
        split; [unfold same_control in Hc; intuition congruence|].
        split; [now apply logs_do_not_invoke|].
        intros Hn; exfalso; now apply (Hn t). }
    destruct (perform a w) as [[u w1] t1]; cbn in Hstep.
    destruct Hstep as (Hrec1 & Hinv1 & Hbuf1).
    specialize (IH w1 Hrec1 Hl').
    destruct (run l w1) as [[u2 w2] t2]; cbn in *.
    destruct IH as (Hrec2 & Hinv2 & Hbuf2).
    split; [exact Hrec2|]. split.
    + rewrite existsb_app. apply orb_false_iff; split; assumption.
    + intros Ht. rewrite Hbuf2, Hbuf1; auto.
      * intros t' ->. apply (Ht t'). now left.
      * intros t' Hin. apply (Ht t'). now right.
Qed.

(** *** The controller: rejected start, cancel, empty session *)

(** C3.  [start_recording] called while a recording is active returns
    [False] ("Already recording") and changes nothing: the recorder
    object, with its buffer and its stop flag, the list of threads and
    the microphone are the same afterwards, and the trace holds the
    warning only, so no thread was started. *)
Theorem start_while_recording_rejected (w : world) :
  is_recording (self w) = true ->
  value (start_recording w) = false /\
  final (start_recording w) = w /\
  audio_buffer (self (final (start_recording w))) = audio_buffer (self w) /\
  stop_recording_event (self (final (start_recording w))) =
    stop_recording_event (self w) /\
  threads (final (start_recording w)) = threads w /\
  trace (start_recording w) = [Log WARNING AlreadyRecording].
Proof.
  intros Hrec.
  assert (E : start_recording w = (false, w, [Log WARNING AlreadyRecording])).
  { unfold start_recording.
    unfold bind at 1. unfold get at 1, gets at 1. now rewrite Hrec. }
  rewrite E; cbn; repeat split; reflexivity.
Qed.

(** C1.  [cancel_recording] called while recording empties the buffer,
    returns the recorder to idle and dispatches no callback; a
    [stop_recording] after it is turned down, and whatever the caller,
    the threads and the device do next, short of a new [start_recording],
    no [on_recording_stop] is dispatched: the cancelled session never
    yields an utterance. *)
Theorem cancel_discards_session (w : world) (l : list action) :
  is_recording (self w) = true ->
  ~ In Start l ->
  audio_buffer (self (final (cancel_recording w))) = [] /\
  is_recording (self (final (cancel_recording w))) = false /\
  existsb is_invoke (trace (cancel_recording w)) = false /\
  value (stop_recording (final (cancel_recording w))) = false /\
  existsb (dispatches OnStop)
    (trace (run l (final (cancel_recording w)))) = false.
Proof.
  intros Hrec Hl. rewrite (cancel_recording_unfold _ Hrec).
  destruct (joined_control w) as (Hidle & _).
  destruct (join_recording_thread_spec (stopping w)) as (_ & Hinv & _).
  cbn [final value trace fst snd].
  assert (Hidle' : is_recording
            (self (with_self (set_audio_buffer []) (joined w))) = false)
    by exact Hidle.
  split; [reflexivity|]. split; [exact Hidle|]. split; [exact Hinv|]. split.
  - now rewrite (stop_recording_idle _ Hidle').
  - apply dispatch_is_invoke. now apply idle_run.
Qed.

Lemma stop_recording_final (w : world) :
  is_recording (self w) = true -> final (stop_recording w) = joined w.
Proof.
  intros Hrec. rewrite (stop_recording_unfold _ Hrec). cbv zeta.
  destruct (audio_buffer (self (joined w))); [reflexivity|].
  destruct (py_truediv _ _); reflexivity.
Qed.

(** C4.  When the join in [stop_recording] returns with the buffer still
    empty, [stop_recording] returns [False] without raising, changes
    nothing after the join, leaves [is_recording] false, dispatches no
    callback, and its own last record is the warning "No audio data
    recorded": its trace is the debug note, what the joined thread
    logged, and that warning. *)
Theorem stop_with_no_frames (w : world) :
  is_recording (self w) = true ->
  audio_buffer (self (joined w)) = [] ->
  value (stop_recording w) = false /\
  final (stop_recording w) = joined w /\
  is_recording (self (final (stop_recording w))) = false /\
  existsb is_invoke (trace (stop_recording w)) = false /\
  trace (stop_recording w) =
    (note (debug_mode (self w)) StoppingManual ++
     trace (join_recording_thread (stopping w))) ++
    [Log WARNING NoAudioData].
Proof.
  intros Hrec Hbuf.
  pose proof (stop_recording_final _ Hrec) as Hfin.
  rewrite (stop_recording_unfold _ Hrec) in *. cbv zeta in *.
  destruct (joined_control w) as (Hidle & _).
  destruct (join_recording_thread_spec (stopping w)) as (_ & Hinv & _).
  rewrite Hbuf in *. cbn [final value trace fst snd] in *.
  split; [reflexivity|]. split; [reflexivity|]. split; [exact Hidle|].
  split; [|reflexivity].
  rewrite !existsb_app. rewrite Bool.orb_false_r.
  apply orb_false_iff; split; [|exact Hinv].
  unfold note; now destruct (debug_mode (self w)).
Qed.

(** *** The capture loop observes the flag *)

Lemma chunks_of_length (l : list (reading sample)) :
  length (chunks_of l) <= length l.
Proof.
  induction l as [|[f|] l IH]; cbn; lia.
Qed.

(** C7.  With the stop flag set, a capture thread, however long it runs,
    finishes at most one more read (it takes at most one more result off
    the device queue) and appends at most one more chunk; and three steps
    are enough for it to end, unless it is waiting in a read for which the
    device has nothing yet.  The length of a read in seconds is outside
    the model. *)
Theorem capture_loop_observes_stop (fuel : nat) (t : tid) (w : world) :
  stop_recording_event (self w) = true ->
  t < length (threads w) ->
  length (mic w) <= length (mic (fst (run_thread fuel t w))) + 1 /\
  length (audio_buffer (self (fst (run_thread fuel t w)))) <=
    length (audio_buffer (self w)) + 1 /\
  (3 <= fuel ->
   finished t (fst (run_thread fuel t w)) = true \/
   (nth_error (threads w) t = Some AtRead /\ mic w = [])).
Proof.
  intros Hf Ht.
  destruct (nth_error (threads w) t) as [p|] eqn:Hp;
    [|apply nth_error_None in Hp; lia].
  destruct (run_thread_flagged fuel t w p Hf Hp) as [Hm Hx].
  destruct (run_thread_mic fuel t w) as (taken & Hmic & Hbuf).
  assert (Hr : reads_left p <= 1) by (destruct p; cbn; lia).
  split; [lia|]. split.
  - rewrite Hbuf, length_app.
    pose proof (chunks_of_length taken) as Hc.
    assert (length (mic w) = length taken + length (mic (fst (run_thread fuel t w))))
      by (rewrite Hmic at 1; now rewrite length_app).
    lia.
  - intros Hfuel.
    assert (Hrk : rank p <= fuel) by (destruct p; cbn; lia).
    destruct (Hx Hrk) as [Hfin|[-> Hnil]]; auto.
Qed.

(** *** What [stop_recording] hands over *)

Lemma filter_called h cb (arg : option (list sample)) m :
  filter is_invoke (called h cb arg m) = handed h cb arg.
Proof.
  unfold called, handed. destruct cb as [c|]; cbn; auto.
  now destruct (cb_does c).
Qed.

(** A stop that finds a non-empty buffer, at a non-zero sample rate. *)
Lemma stop_recording_some (w : world) :
  is_recording (self w) = true ->
  audio_buffer (self (joined w)) <> [] ->
  sample_rate (self w) <> 0%Z ->
  let combined := np_concatenate (audio_buffer (self (joined w))) in
  let d := (inject_Z (Z.of_nat (length combined)) /
            inject_Z (sample_rate (self w)))%Q in
  value (stop_recording w) = true /\
  filter is_invoke (trace (stop_recording w)) =
    handed OnStop (on_recording_stop (self w)) (Some combined) /\
  (debug_mode (self w) = true ->
   In (Log INFO (RecordingComplete (length combined) d))
      (trace (stop_recording w))) /\
  (forall c, on_recording_stop (self w) = Some c -> cb_does c = Returns ->
   filter is_error (trace (stop_recording w)) =
     filter is_error (trace (join_recording_thread (stopping w)))).
Proof.
  intros Hrec Hbuf Hrate. cbv zeta.
  rewrite (stop_recording_unfold _ Hrec). cbv zeta.
  destruct (joined_control w) as (_ & _ & Hsr & Hcb & _).
  destruct (join_recording_thread_spec (stopping w)) as (_ & Hinv & _).
  destruct (audio_buffer (self (joined w))) as [|f fs] eqn:Hb;
    [congruence|].
  rewrite Hsr, Hcb. unfold py_truediv.
  destruct (Z.eqb_spec (sample_rate (self w)) 0) as [E|_]; [congruence|].
  cbn [value final trace fst snd]. split; [reflexivity|]. split; [|split].
  - rewrite !filter_app, filter_called, (filter_none _ _ Hinv).
    unfold note; destruct (debug_mode (self w)); reflexivity.
  - intros Hd. rewrite Hd. apply in_or_app; right.
    apply in_or_app; left. now left.
  - intros c Hc Hret. rewrite Hc. unfold called. rewrite Hret.
    rewrite !filter_app. unfold note.
    destruct (debug_mode (self w)); cbn; now rewrite app_nil_r.
Qed.

(** C2, amended.  When the join in [stop_recording] returns with
    [N >= 1] chunks of [F] samples each in the buffer, and the sample
    rate is not zero, [stop_recording] returns [True] and changes nothing
    after the join; the one callback it dispatches is [on_recording_stop]
    (when one is set), with the concatenation of the chunks in buffer
    order, which has [N * F] samples; the duration it computes (and logs
    in debug mode) is that count divided by the sample rate.  For 10
    chunks of 1024 samples at 16000 Hz: 10240 samples and 0.64 s. *)
Theorem stop_concatenates_frames (w : world) (frames : list frame)
    (N F : nat) :
  is_recording (self w) = true ->
  audio_buffer (self (joined w)) = frames ->
  length frames = N ->
  Forall (fun f => length f = F) frames ->
  1 <= N ->
  sample_rate (self w) <> 0%Z ->
  let d := (inject_Z (Z.of_nat (N * F)) / inject_Z (sample_rate (self w)))%Q in
  value (stop_recording w) = true /\
  final (stop_recording w) = joined w /\
  length (concat frames) = N * F /\
  filter is_invoke (trace (stop_recording w)) =
    handed OnStop (on_recording_stop (self w)) (Some (concat frames)) /\
  (debug_mode (self w) = true ->
   In (Log INFO (RecordingComplete (N * F) d)) (trace (stop_recording w))) /\
  (N = 10 -> F = 1024 -> sample_rate (self w) = 16000%Z ->
   length (concat frames) = 10240 /\ (d == 64 # 100)%Q).
Proof.
  intros Hrec Hbuf HN HF H1 Hrate. cbv zeta.
  assert (Hne : audio_buffer (self (joined w)) <> [])
    by (rewrite Hbuf; destruct frames; cbn in HN; [lia | discriminate]).
  destruct (stop_recording_some w Hrec Hne Hrate) as (Hv & Hi & Hd & _).
  rewrite Hbuf in Hi, Hd. unfold np_concatenate in Hi, Hd.
  assert (Hlen : length (concat frames) = N * F)
    by (rewrite <- HN; now apply length_concat_uniform).
  rewrite Hlen in Hd.
  split; [exact Hv|]. split; [exact (stop_recording_final _ Hrec)|].
  split; [exact Hlen|]. split; [exact Hi|]. split; [exact Hd|].
  intros -> -> H16. rewrite Hlen, H16. split; vm_compute; reflexivity.
Qed.

(** *** A session that a read fault ends *)

Lemma run_thread_stuck fuel t (w : world) :
  _recording_worker t w = None -> run_thread fuel t w = (w, []).
Proof. intros H; destruct fuel; cbn; now rewrite ?H. Qed.

Lemma run_thread_add a b t (w : world) :
  run_thread (a + b) t w =
    (fst (run_thread b t (fst (run_thread a t w))),
     snd (run_thread a t w) ++ snd (run_thread b t (fst (run_thread a t w)))).
Proof.
  revert w; induction a as [|a IH]; intros w; cbn.
  - now destruct (run_thread b t w).
  - destruct (_recording_worker t w) as [[w1 e1]|] eqn:Hs.
    + rewrite IH. destruct (run_thread a t w1) as [w2 e2]; cbn.
      now rewrite app_assoc.
    + cbn. now rewrite (run_thread_stuck b t w Hs).
Qed.

Lemma step_open t (w : world) pa s :
  nth_error (threads w) t = Some AtOpen ->
  pyaudio (self w) = Some pa ->
  open_input pa (device_index (self w)) = Some s ->
  _recording_worker t w =
    Some (goto t AtLoop (with_self (set_stream (Some s)) w),
          note (debug_mode (self w)) StreamOpened).
Proof. intros Hp Ha Ho. unfold _recording_worker. now rewrite Hp, Ha, Ho. Qed.

Lemma step_loop_on t (w : world) :
  nth_error (threads w) t = Some AtLoop ->
  stop_recording_event (self w) = false ->
  _recording_worker t w = Some (goto t AtRead w, []).
Proof. intros Hp Hf. unfold _recording_worker. now rewrite Hp, Hf. Qed.

Lemma step_read_chunk t (w : world) s f m :
  nth_error (threads w) t = Some AtRead ->
  stream (self w) = Some s ->
  mic w = Chunk f :: m ->
  _recording_worker t w =
    Some (goto t AtLoop
            (with_self (set_audio_buffer (audio_buffer (self w) ++ [f]))
                       (pop_mic w)),
          []).
Proof. intros Hp Hs Hm. unfold _recording_worker. now rewrite Hp, Hs, Hm. Qed.

Lemma step_read_error t (w : world) s m :
  nth_error (threads w) t = Some AtRead ->
  stream (self w) = Some s ->
  mic w = ReadError :: m ->
  stop_recording_event (self w) = false ->
  _recording_worker t w =
    Some (goto t AtFinally (pop_mic w), [Log ERROR ErrorReadingAudio]).
Proof. intros Hp Hs Hm Hf. unfold _recording_worker. now rewrite Hp, Hs, Hm, Hf. Qed.

Lemma step_finally t (w : world) s :
  nth_error (threads w) t = Some AtFinally ->
  stream (self w) = Some s ->
  _recording_worker t w =
    Some (if closes s
          then (goto t Exited (with_self (set_stream None) w), [])
          else (goto t Exited w, [Log ERROR ErrorClosingStream])).
Proof.
  intros Hp Hs. unfold _recording_worker. rewrite Hp, Hs. now destruct (closes s).
Qed.

(** The loop reads the chunks the microphone holds, one after the other,
    and appends them in that order. *)
Lemma run_thread_chunks t s (fs : list frame) m (w : world) :
  nth_error (threads w) t = Some AtLoop ->
  stop_recording_event (self w) = false ->
  stream (self w) = Some s ->
  mic w = map Chunk fs ++ m ->
  nth_error (threads (fst (run_thread (2 * length fs) t w))) t = Some AtLoop /\
  stop_recording_event (self (fst (run_thread (2 * length fs) t w))) = false /\
  stream (self (fst (run_thread (2 * length fs) t w))) = Some s /\
  mic (fst (run_thread (2 * length fs) t w)) = m /\
  audio_buffer (self (fst (run_thread (2 * length fs) t w))) =
    audio_buffer (self w) ++ fs /\
  snd (run_thread (2 * length fs) t w) = [].
Proof.
  revert w; induction fs as [|f fs IH]; intros w Hp Hf Hs Hm.
  - cbn in *. rewrite app_nil_r. repeat split; auto.
  - assert (Ht : t < length (threads w))
      by (apply nth_error_Some; congruence).
    replace (2 * length (f :: fs)) with (S (S (2 * length fs)))
      by (cbn; lia).
    cbn [run_thread]. rewrite (step_loop_on _ _ Hp Hf).
    assert (Hp1 : nth_error (threads (goto t AtRead w)) t = Some AtRead)
      by (cbn; now apply nth_error_set_nth_same).
    rewrite (step_read_chunk t (goto t AtRead w) s f (map Chunk fs ++ m)
               Hp1 Hs Hm).
    set (w2 := goto t AtLoop _).
    assert (Hp2 : nth_error (threads w2) t = Some AtLoop)
      by (cbn; apply nth_error_set_nth_same;
          now rewrite length_set_nth).
    assert (Hm2 : mic w2 = map Chunk fs ++ m) by (cbn; now rewrite Hm).
    destruct (IH w2 Hp2 Hf Hs Hm2) as (H1 & H2 & H3 & H4 & H5 & H6).
    destruct (run_thread (2 * length fs) t w2) as [w3 e3]; cbn in *.
    repeat split; auto. now rewrite H5, <- app_assoc.
Qed.

Lemma join_finished t (w : world) :
  recording_thread (self w) = Some t ->
  finished t w = true ->
  join_recording_thread w = (tt, w, [ThreadJoin t true]).
Proof.
  intros Hth Hfin. unfold join_recording_thread.
  unfold bind, get, gets. rewrite Hth. unfold join.
  assert (Hs : _recording_worker t w = None).
  { unfold finished in Hfin. unfold _recording_worker.
    destruct (nth_error (threads w) t) as [[]|]; try discriminate; auto. }
  rewrite (run_thread_stuck _ _ _ Hs). cbn. now rewrite Hfin.
Qed.

Lemma finished_stuck t (w : world) :
  finished t w = true -> _recording_worker t w = None.
Proof.
  unfold finished, _recording_worker.
  destruct (nth_error (threads w) t) as [[]|]; try discriminate; auto.
Qed.

(** At the loop test with a fault next on the microphone: three steps end
    the thread, and the fault is logged. *)
Lemma run_thread_fault t s rest extra (w : world) :
  nth_error (threads w) t = Some AtLoop ->
  stop_recording_event (self w) = false ->
  stream (self w) = Some s ->
  mic w = ReadError :: rest ->
  finished t (fst (run_thread (3 + extra) t w)) = true /\
  mic (fst (run_thread (3 + extra) t w)) = rest /\
  audio_buffer (self (fst (run_thread (3 + extra) t w))) =
    audio_buffer (self w) /\
  In (Log ERROR ErrorReadingAudio) (snd (run_thread (3 + extra) t w)).
Proof.
  intros Hp Hf Hs Hm.
  assert (Ht : t < length (threads w))
    by (apply nth_error_Some; congruence).
  rewrite run_thread_add. cbn [run_thread].
  rewrite (step_loop_on _ _ Hp Hf).
  assert (Hp1 : nth_error (threads (goto t AtRead w)) t = Some AtRead)
    by (cbn; now apply nth_error_set_nth_same).
  rewrite (step_read_error t (goto t AtRead w) s rest Hp1 Hs Hm Hf).
  set (w2 := goto t AtFinally _).
  assert (Hp2 : nth_error (threads w2) t = Some AtFinally)
    by (cbn; apply nth_error_set_nth_same; now rewrite length_set_nth).
  rewrite (step_finally t w2 s Hp2 Hs).
  assert (Hlen : t < length (threads w2))
    by (cbn; now rewrite !length_set_nth).
  destruct (closes s); cbn [fst snd app].
  - set (w3 := goto t Exited _).
    assert (Hfin : finished t w3 = true)
      by (unfold finished; cbn;
          now rewrite nth_error_set_nth_same by
            (now rewrite !length_set_nth)).
    rewrite (run_thread_stuck extra t w3 (finished_stuck _ _ Hfin)).
    cbn. rewrite Hm. repeat split; auto.
  - set (w3 := goto t Exited _).
    assert (Hfin : finished t w3 = true)
      by (unfold finished; cbn;
          now rewrite nth_error_set_nth_same by
            (now rewrite !length_set_nth)).
    rewrite (run_thread_stuck extra t w3 (finished_stuck _ _ Hfin)).
    cbn. rewrite Hm. repeat split; auto.
Qed.

Lemma session_until_fault t s pa (fs : list frame) rest extra (w : world) :
  nth_error (threads w) t = Some AtOpen ->
  stop_recording_event (self w) = false ->
  pyaudio (self w) = Some pa ->
  open_input pa (device_index (self w)) = Some s ->
  mic w = map Chunk fs ++ ReadError :: rest ->
  audio_buffer (self w) = [] ->
  let r := run_thread (1 + (2 * length fs + (3 + extra))) t w in
  finished t (fst r) = true /\
  audio_buffer (self (fst r)) = fs /\
  mic (fst r) = rest /\
  In (Log ERROR ErrorReadingAudio) (snd r).
Proof.
  intros Hp Hf Ha Ho Hm Hb. cbv zeta.
  assert (Ht : t < length (threads w))
    by (apply nth_error_Some; congruence).
  rewrite run_thread_add. cbn [run_thread].
  rewrite (step_open _ _ _ _ Hp Ha Ho). cbn [fst snd].
  set (w1 := goto t AtLoop _).
  assert (Hp1 : nth_error (threads w1) t = Some AtLoop)
    by (cbn; now apply nth_error_set_nth_same).
  assert (Hs1 : stream (self w1) = Some s) by reflexivity.
  destruct (run_thread_chunks t s fs (ReadError :: rest) w1 Hp1 Hf Hs1 Hm)
    as (H1 & H2 & H3 & H4 & H5 & H6).
  rewrite run_thread_add. rewrite H6.
  destruct (run_thread_fault t s rest extra _ H1 H2 H3 H4)
    as (G1 & G2 & G3 & G4).
  cbn [fst snd]. rewrite G3, H5. cbn in Hb |- *. rewrite Hb.
  repeat split; auto.
  apply in_or_app; right. exact G4.
Qed.

(** C5, amended.  Let a recorder whose device opens start a session, the
    microphone deliver the [k >= 1] chunks [fs] and then a read fault,
    and the capture thread run until that fault ends it (which it logs).
    Then the buffer holds exactly [fs]; [stop_recording] returns [True]
    and hands [on_recording_stop] (when set) the concatenation of [fs];
    and with a callback that returns, [stop_recording] writes no error
    record. *)
Theorem read_fault_keeps_partial_audio (w : world) (fs : list frame)
    (rest : list (reading sample)) (pa : PyAudio) (s : Stream) (fuel : nat) :
  is_recording (self w) = false ->
  pyaudio (self w) = Some pa ->
  open_input pa (device_index (self w)) = Some s ->
  mic w = map Chunk fs ++ ReadError :: rest ->
  1 <= length fs ->
  sample_rate (self w) <> 0%Z ->
  2 * length fs + 4 <= fuel ->
  let t := length (threads w) in
  let session := run_thread fuel t (final (start_recording w)) in
  finished t (fst session) = true /\
  audio_buffer (self (fst session)) = fs /\
  mic (fst session) = rest /\
  In (Log ERROR ErrorReadingAudio) (snd session) /\
  is_recording (self (fst session)) = true /\
  value (stop_recording (fst session)) = true /\
  filter is_invoke (trace (stop_recording (fst session))) =
    handed OnStop (on_recording_stop (self w)) (Some (concat fs)) /\
  (forall c, on_recording_stop (self w) = Some c -> cb_does c = Returns ->
   filter is_error (trace (stop_recording (fst session))) = []).
Proof.
  intros Hidle Ha Ho Hm Hk Hrate Hfuel. cbv zeta.
  rewrite (start_recording_unfold _ Hidle). cbn [final fst snd].
  set (t := length (threads w)). set (w1 := Build_world _ _ _).
  assert (Hp : nth_error (threads w1) t = Some AtOpen)
    by (cbn; unfold t; now rewrite nth_error_app2, Nat.sub_diag by lia).
  replace fuel with (1 + (2 * length fs + (3 + (fuel - (2 * length fs + 4)))))
    by lia.
  destruct (session_until_fault t s pa fs rest (fuel - (2 * length fs + 4)) w1
              Hp eq_refl Ha Ho Hm eq_refl) as (Hfin & Hbuf & Hmic & Hlog).
  destruct (run_thread_control
              (1 + (2 * length fs + (3 + (fuel - (2 * length fs + 4))))) t w1)
    as [Hc _].
  set (w2 := fst (run_thread _ t w1)) in *.
  destruct Hc as (Hrec & Hflag & Hth & Hsr & Hdbg & _ & Hcb & _).
  cbn in Hrec, Hth, Hsr, Hcb.
  assert (Hj : join_recording_thread (stopping w2) =
               (tt, stopping w2, [ThreadJoin t true])).
  { apply join_finished; [exact Hth | exact Hfin]. }
  assert (Hjw : joined w2 = stopping w2) by (unfold joined; now rewrite Hj).
  assert (Hne : audio_buffer (self (joined w2)) <> []).
  { rewrite Hjw. cbn. rewrite Hbuf. destruct fs; cbn in Hk; [lia|discriminate]. }
  assert (Hrate2 : sample_rate (self w2) <> 0%Z) by congruence.
  destruct (stop_recording_some w2 Hrec Hne Hrate2) as (Hv & Hi & _ & He).
  rewrite Hjw in Hi. cbn in Hi. rewrite Hbuf, Hcb in Hi.
  repeat split; auto.
  intros c Hc Hret. rewrite (He c) by congruence. now rewrite Hj.
Qed.

(** The join picks up at most one chunk: the one whose read was under way
    when the flag was set. *)
Lemma joined_buffer (w : world) :
  exists extra,
    length extra <= 1 /\
    audio_buffer (self (joined w)) = audio_buffer (self w) ++ extra.
Proof.
  unfold joined, join_recording_thread, bind, get, gets, final.
  cbn [fst snd]. change (recording_thread (self (stopping w)))
    with (recording_thread (self w)).
  destruct (recording_thread (self w)) as [t|]; cbn.
  - unfold join.
    destruct (run_thread_mic (join_fuel (stopping w)) t (stopping w))
      as (taken & Hm & Hb).
    assert (Htaken : length taken <= 1).
    { destruct (nth_error (threads (stopping w)) t) as [p|] eqn:Hp.
      - destruct (run_thread_flagged (join_fuel (stopping w)) t (stopping w)
                    p eq_refl Hp) as [Hlen _].
        assert (length (mic (stopping w)) =
                length taken +
                length (mic (fst (run_thread (join_fuel (stopping w)) t
                                    (stopping w)))))
          by (rewrite Hm at 1; now rewrite length_app).
        assert (reads_left p <= 1) by (destruct p; cbn; lia). lia.
      - assert (Hs : _recording_worker t (stopping w) = None)
          by (unfold _recording_worker; now rewrite Hp).
        rewrite (run_thread_stuck _ _ _ Hs) in Hm. cbn in Hm.
        destruct taken as [|x taken]; [cbn; lia|].
        exfalso. apply (f_equal (@length _)) in Hm.
        cbn in Hm. rewrite length_app in Hm. lia. }
    destruct (run_thread (join_fuel (stopping w)) t (stopping w))
      as [w1 tr]; cbn in *.
    exists (chunks_of taken). split; [|exact Hb].
    pose proof (chunks_of_length taken). lia.
  - exists []. cbn. split; [lia|]. now rewrite app_nil_r.
Qed.

(** *** The buffer between two sessions *)

Lemma stop_recording_true (w : world) :
  is_recording (self w) = true ->
  value (stop_recording w) = true ->
  audio_buffer (self (joined w)) <> [] /\ sample_rate (self w) <> 0%Z.
Proof.
  intros Hrec. rewrite (stop_recording_unfold _ Hrec). cbv zeta.
  destruct (joined_control w) as (_ & _ & Hsr & _).
  destruct (audio_buffer (self (joined w))) as [|f fs]; [discriminate|].
  rewrite Hsr. unfold py_truediv.
  destruct (Z.eqb_spec (sample_rate (self w)) 0); [discriminate|].
  intros _. split; [discriminate | assumption].
Qed.

(** While the controller is not called, its fields stay, and the buffer
    grows by exactly what leaves the device queue. *)
Lemma run_capture (l : list action) (w : world) :
  only_capture l ->
  same_control w (final (run l w)) /\
  exists taken,
    mic w ++ heard l = taken ++ mic (final (run l w)) /\
    audio_buffer (self (final (run l w))) =
      audio_buffer (self w) ++ chunks_of taken.
Proof.
  revert w; induction l as [|a l IH]; intros w Hl.
  - cbn. split; [apply same_control_refl|].
    exists []; cbn; now rewrite !app_nil_r.
  - assert (Hl' : only_capture l) by (intros b Hb; apply Hl; now right).
    destruct (Hl a (or_introl eq_refl)) as [[t ->]|[x ->]].
    + cbn [run perform heard]. unfold bind.
      destruct (_recording_worker t w) as [[w1 e1]|] eqn:Hs.
      * destruct (worker_step_control _ _ _ _ Hs) as [Hc _].
        destruct (worker_step_mic _ _ _ _ Hs) as (k1 & Hm1 & _ & Hb1).
        destruct (IH w1 Hl') as (Hc2 & k2 & Hm2 & Hb2).
        destruct (run l w1) as [[u w2] e2]; cbn in *.
        split; [eapply same_control_trans; eauto|].
        exists (k1 ++ k2). split.
        -- now rewrite Hm1, <- !app_assoc, Hm2.
        -- now rewrite Hb2, Hb1, chunks_of_app, app_assoc.
      * destruct (IH w Hl') as (Hc2 & k2 & Hm2 & Hb2).
        destruct (run l w) as [[u w2] e2]; cbn in *.
        split; [exact Hc2|]. exists k2; auto.
    + cbn [run perform heard]. unfold bind, modify.
      destruct (IH (hear x w) Hl') as (Hc2 & k2 & Hm2 & Hb2).
      destruct (run l (hear x w)) as [[u w2] e2]; cbn in *.
      split; [exact Hc2|]. exists k2. split; [|exact Hb2].
      now rewrite <- Hm2, <- app_assoc.
Qed.

(** C10, amended.  After a [stop_recording] that returned [True]:
    - the buffer still holds the chunks whose concatenation was handed to
      [on_recording_stop];
    - calls of [stop_recording] and [cancel_recording], in any number and
      order, leave the buffer as it is (both return at their first test);
    - the next [start_recording] empties the buffer and then starts the
      new thread;
    - and whatever the threads and the device then do until the next
      [stop_recording], the buffer that this stop finds is exactly the
      chunks that left the device queue after that start, in order, and
      their concatenation is what the stop hands over when it returns
      [True]. *)
Theorem buffer_kept_until_next_start (w : world) (calls moves : list action) :
  is_recording (self w) = true ->
  value (stop_recording w) = true ->
  only_stop_cancel calls ->
  only_capture moves ->
  let w1 := final (stop_recording w) in
  let w2 := final (start_recording w1) in
  let last := stop_recording (final (run moves w2)) in
  (audio_buffer (self w1) <> [] /\
   filter is_invoke (trace (stop_recording w)) =
     handed OnStop (on_recording_stop (self w))
            (Some (concat (audio_buffer (self w1))))) /\
  audio_buffer (self (final (run calls w1))) = audio_buffer (self w1) /\
  (audio_buffer (self w2) = [] /\
   threads w2 = threads w1 ++ [AtOpen] /\
   In (ThreadStart (length (threads w1))) (trace (start_recording w1))) /\
  exists taken,
    mic w1 ++ heard moves = taken ++ mic (final last) /\
    audio_buffer (self (final last)) = chunks_of taken /\
    (value last = true ->
     filter is_invoke (trace last) =
       handed OnStop (on_recording_stop (self w))
              (Some (concat (chunks_of taken)))).
Proof.
  intros Hrec Hok Hcalls Hmoves. cbv zeta.
  destruct (stop_recording_true _ Hrec Hok) as [Hne Hrate].
  destruct (stop_recording_some w Hrec Hne Hrate) as (_ & Hi & _).
  rewrite (stop_recording_final _ Hrec).
  destruct (joined_control w) as (Hidle & _ & Hsr & Hcb & _).
  split; [split; [exact Hne | exact Hi]|]. split.
  { apply idle_run; [exact Hidle| |].
    - intros Hin. destruct (Hcalls _ Hin); discriminate.
    - intros t Hin. destruct (Hcalls _ Hin); discriminate. }
  rewrite (start_recording_unfold _ Hidle). cbn [final fst snd].
  set (w2 := Build_world _ _ _).
  split.
  { split; [reflexivity|]. split; [reflexivity|].
    apply in_or_app; right. now left. }
  destruct (run_capture moves w2 Hmoves) as (Hc & k1 & Hm1 & Hb1).
  set (w3 := final (run moves w2)) in *.
  destruct Hc as (Hrec3 & _ & _ & Hsr3 & _ & _ & Hcb3 & _).
  cbn in Hrec3, Hsr3, Hcb3, Hm1, Hb1.
  rewrite (stop_recording_final _ Hrec3).
  destruct (join_recording_thread_spec (stopping w3)) as (_ & _ & k2 & Hm2 & Hb2).
  fold (joined w3) in Hm2, Hb2. cbn in Hm2, Hb2.
  exists (k1 ++ k2). split; [|split].
  - now rewrite Hm1, <- app_assoc, <- Hm2.
  - now rewrite Hb2, Hb1, chunks_of_app.
  - intros Hok3.
    destruct (stop_recording_true _ Hrec3 Hok3) as [Hne3 Hrate3].
    destruct (stop_recording_some w3 Hrec3 Hne3 Hrate3) as (_ & Hi3 & _).
    rewrite Hi3, Hcb3, Hcb. unfold np_concatenate.
    now rewrite Hb2, Hb1, chunks_of_app.
Qed.

(** *** Who runs the callbacks of the manual recorder *)

(** [start_recording] and [stop_recording] call the callbacks themselves,
    on the thread of their caller: after the capture thread was started
    and [is_recording] was set, respectively after the thread was joined,
    [is_recording] cleared and the buffer concatenated.  The state they
    leave does not depend on what the callback does.  The capture thread
    never runs a callback. *)
Lemma manual_callbacks_direct (w : world) :
  (forall t w' tr, _recording_worker t w = Some (w', tr) ->
     existsb is_invoke tr = false) /\
  (is_recording (self w) = false ->
   trace (start_recording w) =
     note (debug_mode (self w)) StartingManual ++
     ThreadStart (length (threads w)) ::
     called OnStart (on_recording_start (self w)) None ErrorInStartCallback /\
   is_recording (self (final (start_recording w))) = true) /\
  (is_recording (self w) = true ->
   forallb asynchronous
     (note (debug_mode (self w)) StoppingManual ++
      trace (join_recording_thread (stopping w))) = true /\
   exists before,
     trace (stop_recording w) =
       (note (debug_mode (self w)) StoppingManual ++
        trace (join_recording_thread (stopping w))) ++ before /\
     is_recording (self (final (stop_recording w))) = false).
Proof.
  split; [|split].
  - intros t w' tr Hs. apply logs_do_not_invoke.
    now destruct (worker_step_control _ _ _ _ Hs).
  - intros Hidle. rewrite (start_recording_unfold _ Hidle). auto.
  - intros Hrec. split.
    + destruct (join_recording_thread_spec (stopping w)) as (_ & Hinv & _).
      rewrite forallb_app. apply andb_true_iff; split.
      * unfold note; now destruct (debug_mode (self w)).
      * revert Hinv. generalize (trace (join_recording_thread (stopping w))).
        induction l as [|e l IH]; cbn; auto.
        intros H; apply orb_false_iff in H as [He Hl].
        rewrite (IH Hl), andb_true_r. now destruct e.
    + rewrite (stop_recording_final _ Hrec).
      destruct (joined_control w) as (Hidle & _).
      rewrite (stop_recording_unfold _ Hrec). cbv zeta.
      destruct (audio_buffer (self (joined w))); [|destruct (py_truediv _ _)];
        cbn [trace snd]; eexists; split; try reflexivity; exact Hidle.
Qed.

End Facts.
(** *** The set-ups, run *)

Import Scenarios.

Example three_chunks_buffer :
  audio_buffer (self three_chunks) = [[0; 1]; [2; 3]; [4; 5]]%Z /\
  is_recording (self three_chunks) = true /\
  threads three_chunks = [AtLoop] /\ mic three_chunks = [].
Proof. vm_compute. repeat split; reflexivity. Qed.

Example three_chunks_stop :
  stop_recording three_chunks =
    (true,
     {| self := set_stream None
                  (set_stop_recording_event true
                     (set_is_recording false (self three_chunks)));
        threads := [Exited]; mic := [] |},
     [ThreadJoin 0 true;
      Invoke Direct OnStop (Callback 2 Returns) (Some [0; 1; 2; 3; 4; 5]%Z)]).
Proof. vm_compute. reflexivity. Qed.

Lemma count_length (from : Z) (n : nat) : length (count from n) = n.
Proof. revert from; induction n as [|n IH]; intros from; cbn; auto. Qed.

Lemma chunks_uniform (from : Z) (size n : nat) :
  Forall (fun f => length f = size) (chunks from size n).
Proof.
  revert from; induction n as [|n IH]; intros from; cbn; constructor;
    auto using count_length.
Qed.

Example ten_chunks_in_order :
  concat (audio_buffer (self ten_chunks)) = count 0 10240.
Proof. vm_compute. reflexivity. Qed.

Lemma start_while_recording_rejected_witness :
  is_recording (self three_chunks) = true /\
  value (start_recording three_chunks) = false /\
  final (start_recording three_chunks) = three_chunks /\
  trace (start_recording three_chunks) = [Log WARNING AlreadyRecording].
Proof.
  pose proof (start_while_recording_rejected three_chunks eq_refl)
    as (H1 & H2 & _ & _ & _ & H6).
  repeat split; assumption.
Defined.

Lemma cancel_discards_session_witness :
  is_recording (self three_chunks) = true /\
  audio_buffer (self (final (cancel_recording three_chunks))) = [] /\
  existsb is_invoke (trace (cancel_recording three_chunks)) = false /\
  existsb (dispatches OnStop)
    (trace (run [Stop; Tick 0; Cancel; Stop]
              (final (cancel_recording three_chunks)))) = false.
Proof.
  assert (Hl : ~ In (@Start Z) [Stop; Tick 0; Cancel; Stop])
    by (cbn; intuition discriminate).
  pose proof (cancel_discards_session three_chunks _ eq_refl Hl)
    as (H1 & _ & H3 & _ & H5).
  repeat split; assumption.
Defined.

Lemma stop_with_no_frames_witness :
  is_recording (self just_started) = true /\
  audio_buffer (self (joined just_started)) = [] /\
  value (stop_recording just_started) = false /\
  is_recording (self (final (stop_recording just_started))) = false /\
  trace (stop_recording just_started) =
    [ThreadJoin 0 true; Log WARNING NoAudioData].
Proof.
  pose proof (stop_with_no_frames just_started eq_refl eq_refl)
    as (H1 & _ & H3 & _ & H5).
  split; [reflexivity|]. split; [reflexivity|]. split; [exact H1|].
  split; [exact H3|]. exact H5.
Defined.

Lemma capture_loop_observes_stop_witness :
  stop_recording_event (self flagged) = true /\
  nth_error (threads flagged) 0 = Some AtRead /\
  length (mic flagged) = 3 /\
  length (mic (fst (run_thread 10 0 flagged))) = 2 /\
  length (mic flagged) <= length (mic (fst (run_thread 10 0 flagged))) + 1 /\
  finished 0 (fst (run_thread 10 0 flagged)) = true.
Proof.
  assert (Ht : 0 < length (threads flagged)) by (cbn; lia).
  assert (Hf : 3 <= 10) by lia.
  pose proof (capture_loop_observes_stop 10 0 flagged eq_refl Ht)
    as (H1 & _ & H3).
  repeat split; try reflexivity; try assumption.
Defined.

Lemma stop_concatenates_frames_witness :
  is_recording (self ten_chunks) = true /\
  audio_buffer (self (joined ten_chunks)) = chunks 0 1024 10 /\
  value (stop_recording ten_chunks) = true /\
  length (concat (chunks 0 1024 10)) = 10 * 1024 /\
  filter is_invoke (trace (stop_recording ten_chunks)) =
    [Invoke Direct OnStop (Callback 2 Returns)
       (Some (concat (chunks 0 1024 10)))] /\
  In (Log INFO (RecordingComplete (10 * 1024)
        (inject_Z (Z.of_nat (10 * 1024)) / inject_Z 16000)%Q))
     (trace (stop_recording ten_chunks)) /\
  (inject_Z (Z.of_nat (10 * 1024)) / inject_Z 16000 == 64 # 100)%Q.
Proof.
  assert (Hbuf : audio_buffer (self (joined ten_chunks)) = chunks 0 1024 10)
    by (vm_compute; reflexivity).
  assert (Hrate : sample_rate (self ten_chunks) <> 0%Z)
    by (cbn; discriminate).
  assert (HN : 1 <= 10) by lia.
  pose proof (stop_concatenates_frames ten_chunks (chunks 0 1024 10) 10 1024
                eq_refl Hbuf eq_refl (chunks_uniform 0 1024 10) HN Hrate)
    as (H1 & _ & H2 & H3 & H4 & H5).
  split; [reflexivity|]. split; [exact Hbuf|]. split; [exact H1|].
  split; [exact H2|]. split; [exact H3|]. split; [exact (H4 eq_refl)|].
  exact (proj2 (H5 eq_refl eq_refl eq_refl)).
Defined.

(** C2 as stated, without the bound on [N], fails for a session that read
    nothing: there are [N = 0] chunks, and [stop_recording] returns
    [False] and hands nothing over. *)
Lemma empty_session_yields_no_waveform :
  ~ (forall (w : Manual.world Z) (frames : list (list Z)) (N F : nat),
       is_recording (self w) = true ->
       audio_buffer (self (joined w)) = frames ->
       length frames = N ->
       Forall (fun f => length f = F) frames ->
       sample_rate (self w) <> 0%Z ->
       value (stop_recording w) = true /\
       filter is_invoke (trace (stop_recording w)) =
         handed OnStop (on_recording_stop (self w)) (Some (concat frames))).
Proof.
  intros H.
  assert (Hrate : sample_rate (self just_started) <> 0%Z)
    by (cbn; discriminate).
  destruct (H just_started [] 0 1024 eq_refl eq_refl eq_refl
              (Forall_nil _) Hrate) as [Hv _].
  vm_compute in Hv. discriminate.
Qed.

Lemma read_fault_keeps_partial_audio_witness :
  mic faulty = map (@Chunk Z) (chunks 0 4 5) ++ [ReadError] /\
  audio_buffer (self (fst (run_thread 14 0 (final (start_recording faulty)))))
    = chunks 0 4 5 /\
  In (Log ERROR ErrorReadingAudio)
     (snd (run_thread 14 0 (final (start_recording faulty)))) /\
  value (stop_recording
           (fst (run_thread 14 0 (final (start_recording faulty))))) = true /\
  filter is_invoke
    (trace (stop_recording
              (fst (run_thread 14 0 (final (start_recording faulty)))))) =
    [Invoke Direct OnStop (Callback 2 Returns) (Some (count 0 20))] /\
  filter is_error
    (trace (stop_recording
              (fst (run_thread 14 0 (final (start_recording faulty)))))) = [].
Proof.
  assert (Hk : 1 <= length (chunks 0 4 5)) by (cbn; lia).
  assert (Hrate : sample_rate (self faulty) <> 0%Z) by (cbn; discriminate).
  assert (Hfuel : 2 * length (chunks 0 4 5) + 4 <= 14) by (cbn; lia).
  pose proof (read_fault_keeps_partial_audio faulty (chunks 0 4 5) []
                host {| closes := true |} 14
                eq_refl eq_refl eq_refl eq_refl Hk Hrate Hfuel)
    as (_ & H2 & _ & H4 & _ & H6 & H7 & H8).
  split; [reflexivity|]. split; [exact H2|]. split; [exact H4|].
  split; [exact H6|]. split; [exact H7|].
  exact (H8 (Callback 2 Returns) eq_refl eq_refl).
Defined.

(** C5 as stated, without the bound on [k], fails when the device fails at
    the first read: the thread ends with an empty buffer, and
    [stop_recording] returns [False] and hands nothing over. *)
Lemma read_fault_at_first_read_yields_nothing :
  ~ (forall (w : Manual.world Z) (fs : list (list Z))
            (rest : list (Manual.reading Z)) (pa : PyAudio) (s : Stream)
            (fuel : nat),
       is_recording (self w) = false ->
       pyaudio (self w) = Some pa ->
       open_input pa (device_index (self w)) = Some s ->
       mic w = map (@Chunk Z) fs ++ ReadError :: rest ->
       sample_rate (self w) <> 0%Z ->
       2 * length fs + 4 <= fuel ->
       value (stop_recording
                (fst (run_thread fuel (length (threads w))
                        (final (start_recording w))))) = true).
Proof.
  intros H.
  assert (Hrate : sample_rate (self dead) <> 0%Z) by (cbn; discriminate).
  assert (Hfuel : 2 * length (@nil (list Z)) + 4 <= 4) by (cbn; lia).
  pose proof (H dead [] [] host {| closes := true |} 4
                eq_refl eq_refl eq_refl eq_refl Hrate Hfuel) as Hv.
  vm_compute in Hv. discriminate.
Qed.

Example dead_session :
  let w := fst (run_thread 4 0 (final (start_recording dead))) in
  finished 0 w = true /\ audio_buffer (self w) = [] /\
  value (stop_recording w) = false /\
  trace (stop_recording w) = [ThreadJoin 0 true; Log WARNING NoAudioData].
Proof. vm_compute. repeat split; reflexivity. Qed.

Lemma buffer_kept_until_next_start_witness :
  let w1 := final (stop_recording two_of_five) in
  let w2 := final (start_recording w1) in
  let last := stop_recording (final (run (ticks 1 4) w2)) in
  value (stop_recording two_of_five) = true /\
  audio_buffer (self w1) = [[0; 1]; [2; 3]]%Z /\
  audio_buffer (self (final (run [Cancel; Stop; Cancel] w1))) =
    audio_buffer (self w1) /\
  audio_buffer (self w2) = [] /\
  exists taken,
    mic w1 ++ heard (ticks 1 4) = taken ++ mic (final last) /\
    audio_buffer (self (final last)) = chunks_of taken /\
    filter is_invoke (trace last) =
      [Invoke Direct OnStop (Callback 2 Returns)
         (Some (concat (chunks_of taken)))].
Proof.
  assert (Hcalls : only_stop_cancel (sample := Z) [Cancel; Stop; Cancel])
    by (intros a Ha; cbn in Ha; intuition auto).
  assert (Hmoves : only_capture (ticks 1 4))
    by (intros a Ha; cbn in Ha; left; exists 1; intuition auto).
  pose proof (buffer_kept_until_next_start two_of_five
                [Cancel; Stop; Cancel] (ticks 1 4)
                eq_refl eq_refl Hcalls Hmoves)
    as (_ & H2 & (H3 & _) & taken & Hm & Hb & Hi).
  cbv zeta. split; [reflexivity|]. split; [reflexivity|].
  split; [exact H2|]. split; [exact H3|].
  exists taken. split; [exact Hm|]. split; [exact Hb|].
  exact (Hi eq_refl).
Defined.

(** C10 as stated fails where it says that the next [cancel_recording]
    clears the frames of a stopped session: [is_recording] is false after
    the stop, so [cancel_recording] returns at once and the frames stay. *)
Lemma cancel_after_stop_clears_nothing :
  ~ (forall w : Manual.world Z,
       is_recording (self w) = true ->
       value (stop_recording w) = true ->
       audio_buffer
         (self (final (cancel_recording (final (stop_recording w))))) = []).
Proof.
  intros H. specialize (H three_chunks eq_refl eq_refl).
  vm_compute in H. discriminate.
Qed.

Example cancel_after_stop :
  audio_buffer
    (self (final (cancel_recording (final (stop_recording three_chunks)))))
  = [[0; 1]; [2; 3]; [4; 5]]%Z.
Proof. vm_compute. reflexivity. Qed.

(** C6 as stated fails for the manual recorder: [start_recording] calls
    [on_recording_start] itself, on the thread of its caller, and so does
    [stop_recording] with [on_recording_stop]. *)
Lemma manual_callbacks_are_not_threads :
  ~ (forall w : Manual.world Z,
       forallb asynchronous (trace (start_recording w)) = true /\
       forallb asynchronous (trace (stop_recording w)) = true).
Proof.
  intros H. destruct (H (fresh false None [])) as [Hs _].
  vm_compute in Hs. discriminate.
Qed.

Example manual_start_trace :
  trace (start_recording (fresh false None (@nil (Manual.reading Z)))) =
    [ThreadStart 0; Invoke Direct OnStart (Callback 1 Returns) None].
Proof. vm_compute. reflexivity. Qed.

End ManualFacts.

(** ** Facts about the recorder with voice-activity detection *)

Module VadFacts.
Import Vad.

Section Facts.

Context {F : Type} {num : Numeric F}.

Abbreviation recorder := (Vad.recorder F).

(** Every callback that the VAD recorder dispatches is made the target of
    a daemon thread. *)
Lemma stop_recording_internal_async :
  traces_all asynchronous (_stop_recording_internal (F := F)).
Proof. unfold _stop_recording_internal, dispatch_thread. traces. Qed.

Lemma handle_voice_detected_async (chunk : list F) :
  traces_all asynchronous (_handle_voice_detected chunk).
Proof. unfold _handle_voice_detected, dispatch_thread. traces. Qed.

Lemma handle_silence_detected_async (now : F) :
  traces_all asynchronous (_handle_silence_detected now).
Proof.
  unfold _handle_silence_detected. traces.
  apply stop_recording_internal_async.
Qed.

Lemma audio_callback_async (chunk : list F) (status : bool) (now : F) :
  traces_all asynchronous (_audio_callback chunk status now).
Proof.
  unfold _audio_callback. traces.
  - apply handle_voice_detected_async.
  - apply handle_silence_detected_async.
Qed.

Lemma stop_listening_async :
  traces_all asynchronous (stop_listening (F := F)).
Proof.
  unfold stop_listening. traces. apply stop_recording_internal_async.
Qed.

(** [_initialize_audio] replaces an index at or above the device count by
    [None]; any smaller index, negative ones included, stays. *)
Lemma initialize_audio_index (pa : PyAudio) (r : recorder) :
  value (_initialize_audio (Some pa) r) = Done /\
  device_index (final (_initialize_audio (Some pa) r)) =
    match device_index r with
    | Some i => if (i >=? get_device_count pa)%Z then None else Some i
    | None => None
    end.
Proof.
  unfold _initialize_audio, bind, ret, emit, gets, modify, value, final.
  cbn. destruct (device_index r) as [i|] eqn:Hi; cbn; auto.
  destruct (i >=? get_device_count pa)%Z; cbn; auto.
Qed.

(** A stop with audio in the deque: the deque is emptied, the recorder
    is idle again, and [on_recording_stop] is made the target of a new
    thread with the concatenation of the chunks. *)
Lemma stop_recording_internal_dispatch (r : recorder) (f : list F)
    (fs : list (list F)) (cb : callback) :
  is_recording r = true ->
  audio_data r = f :: fs ->
  sample_rate r <> 0%Z ->
  on_recording_stop r = Some cb ->
  value (_stop_recording_internal r) = Done /\
  is_recording (final (_stop_recording_internal r)) = false /\
  audio_data (final (_stop_recording_internal r)) = [] /\
  filter is_invoke (trace (_stop_recording_internal r)) =
    [Invoke DaemonThread OnStop cb (Some (concat (f :: fs)))].
Proof.
  intros Hrec Hbuf Hrate Hcb.
  unfold _stop_recording_internal, dispatch_thread, bind, ret, emit, gets,
    modify, value, final, trace.
  rewrite Hrec. cbn. rewrite Hbuf. cbn. unfold py_truediv.
  destruct (Z.eqb_spec (sample_rate r) 0) as [E|_]; [congruence|].
  cbn. rewrite Hcb. cbn. auto.
Qed.

End Facts.

End VadFacts.
(** ** The two recorders side by side *)

(** [ManualAudioRecorder._initialize_audio] treats the index like
    [AudioRecorder._initialize_audio] does. *)
Lemma manual_initialize_audio_index {sample : Type} (pa : Manual.PyAudio)
    (w : Manual.world sample) :
  value (Manual._initialize_audio (Some pa) w) = true /\
  Manual.device_index (Manual.self (final (Manual._initialize_audio (Some pa) w))) =
    match Manual.device_index (Manual.self w) with
    | Some i => if (i >=? Manual.get_device_count pa)%Z then None else Some i
    | None => None
    end.
Proof.
  unfold Manual._initialize_audio, Manual.get, Manual.set, bind, ret, emit,
    gets, modify, when, value, final.
  cbn. destruct (Manual.debug_mode (Manual.self w)); cbn;
    (destruct (Manual.device_index (Manual.self w)) as [i|] eqn:Hi; cbn;
     [destruct (i >=? Manual.get_device_count pa)%Z; cbn|]); auto.
Qed.

(** C6, amended.  The recorder with voice-activity detection makes every
    callback it dispatches the target of a daemon thread of its own: in
    [_audio_callback] (which starts a recording on voice and stops it on
    a silence timeout), in [_stop_recording_internal] and in
    [stop_listening]; a stop with audio dispatches [on_recording_stop] in
    this way.  The manual recorder calls its callbacks itself, on the
    thread of whoever called [start_recording] or [stop_recording]:
    [on_recording_start] after the capture thread was started and
    [is_recording] set, [on_recording_stop] after the thread was joined
    and [is_recording] cleared (nothing before that point of
    [stop_recording] is a direct call).  Its capture thread never runs a
    callback. *)
Theorem callbacks_dispatched_per_recorder {sample F : Type} {num : Numeric F}
    (r : Vad.recorder F) (chunk : list F) (status : bool) (now : F)
    (w : Manual.world sample) :
  (forallb asynchronous (trace (Vad._audio_callback chunk status now r)) = true /\
   forallb asynchronous (trace (Vad._stop_recording_internal r)) = true /\
   forallb asynchronous (trace (Vad.stop_listening r)) = true /\
   (forall f fs cb,
      Vad.is_recording r = true -> Vad.audio_data r = f :: fs ->
      Vad.sample_rate r <> 0%Z -> Vad.on_recording_stop r = Some cb ->
      filter is_invoke (trace (Vad._stop_recording_internal r)) =
        [Invoke DaemonThread OnStop cb (Some (concat (f :: fs)))])) /\
  (forall t w' tr, Manual._recording_worker t w = Some (w', tr) ->
     existsb is_invoke tr = false) /\
  (Manual.is_recording (Manual.self w) = false ->
   trace (Manual.start_recording w) =
     Manual.note (Manual.debug_mode (Manual.self w)) Manual.StartingManual ++
     ThreadStart (length (Manual.threads w)) ::
     Manual.called OnStart (Manual.on_recording_start (Manual.self w))
       None Manual.ErrorInStartCallback /\
   Manual.is_recording (Manual.self (final (Manual.start_recording w))) = true) /\
  (Manual.is_recording (Manual.self w) = true ->
   forallb asynchronous
     (Manual.note (Manual.debug_mode (Manual.self w)) Manual.StoppingManual ++
      trace (Manual.join_recording_thread (Manual.stopping w))) = true /\
   exists rest,
     trace (Manual.stop_recording w) =
       (Manual.note (Manual.debug_mode (Manual.self w)) Manual.StoppingManual ++
        trace (Manual.join_recording_thread (Manual.stopping w))) ++ rest /\
     Manual.is_recording (Manual.self (final (Manual.stop_recording w))) = false).
Proof.
  split; [|exact (ManualFacts.manual_callbacks_direct w)].
  split; [apply VadFacts.audio_callback_async|].
  split; [apply VadFacts.stop_recording_internal_async|].
  split; [apply VadFacts.stop_listening_async|].
  intros f fs cb H1 H2 H3 H4.
  now destruct (VadFacts.stop_recording_internal_dispatch r f fs cb H1 H2 H3 H4)
    as (_ & _ & _ & H).
Qed.

(** *** A run of the detector on machine floats *)

Example loud_chunk_is_voice :
  Vad._detect_voice_activity (Scenarios.listener None)
    [0.5; -0.5; 0.25; -0.25]%float = true.
Proof. vm_compute. reflexivity. Qed.

Example empty_chunk_is_silence :
  Vad._detect_voice_activity (Scenarios.listener None) [] = false.
Proof. vm_compute. reflexivity. Qed.

Example quiet_chunk_is_silence :
  Vad._detect_voice_activity (Scenarios.listener None)
    [0.001; -0.002; 0.001; 0]%float = false.
Proof. vm_compute. reflexivity. Qed.

(** Voice, voice, then silence at 10.0 s and at 12.5 s with a timeout of
    2 s: one [on_recording_start] and one [on_recording_stop], each on a
    thread of its own. *)
Example voice_then_silence :
  let loud := [0.5; -0.5]%float in
  let quiet := [0; 0]%float in
  trace ((Vad._audio_callback loud false 9.0%float ;;
          Vad._audio_callback loud false 9.5%float ;;
          Vad._audio_callback quiet false 10.0%float ;;
          Vad._audio_callback quiet false 12.5%float) (Scenarios.listener None)) =
    [Log INFO Vad.VoiceDetected;
     Invoke DaemonThread OnStart (Callback 1 Returns) None;
     Log INFO Vad.SilenceTimeout;
     Log INFO (Vad.RecordingStopped 4 (inject_Z 4 / inject_Z 16000));
     Invoke DaemonThread OnStop (Callback 2 Returns)
       (Some [0.5; -0.5; 0.5; -0.5]%float)].
Proof. vm_compute. reflexivity. Qed.

(** C9, at the index -1 with two devices present.  Both recorders finish
    [_initialize_audio] without raising and without the "out of range"
    warning, and keep [device_index = -1]: the test
    [device_index >= device_count] does not catch an index below zero,
    so there is no fall-back to the default device. *)
Theorem negative_device_index_is_kept :
  let w := Scenarios.configured (Some (-1)%Z) in
  let pa : Vad.PyAudio := {| Vad.get_device_count := 2 |} in
  (value (Manual._initialize_audio (Some Scenarios.host) w) = true /\
   trace (Manual._initialize_audio (Some Scenarios.host) w) = [] /\
   Manual.device_index
     (Manual.self (final (Manual._initialize_audio (Some Scenarios.host) w)))
     = Some (-1)%Z) /\
  (value (Vad._initialize_audio (Some pa) (Scenarios.listener (Some (-1)%Z))) =
     Vad.Done /\
   trace (Vad._initialize_audio (Some pa) (Scenarios.listener (Some (-1)%Z))) =
     [Log INFO Vad.PyAudioInitialized] /\
   Vad.device_index
     (final (Vad._initialize_audio (Some pa) (Scenarios.listener (Some (-1)%Z))))
     = Some (-1)%Z).
Proof. vm_compute. repeat split; reflexivity. Qed.

(** An index at or above the device count does fall back. *)
Example large_device_index_falls_back :
  let w := Scenarios.configured (Some 8%Z) in
  value (Manual._initialize_audio (Some Scenarios.host) w) = true /\
  trace (Manual._initialize_audio (Some Scenarios.host) w) =
    [Log WARNING (Manual.DeviceIndexOutOfRange 8)] /\
  Manual.device_index
    (Manual.self (final (Manual._initialize_audio (Some Scenarios.host) w)))
    = None.
Proof. vm_compute. repeat split; reflexivity. Qed.

(** ** Sessions of the manual recorder, over whole runs *)

Lemma logs_filter {message sample : Type} (P : effect message sample -> bool)
    (tr : list (effect message sample)) :
  (forall l m, P (Log l m) = false) ->
  forallb is_log tr = true -> filter P tr = [].
Proof.
  intros HP. induction tr as [|e tr IH]; cbn; auto.
  intros H; apply andb_true_iff in H as [He Ht].
  destruct e; cbn in He; try discriminate. now rewrite HP, IH.
Qed.

Lemma no_invoke_filter {message sample : Type} (h : hook)
    (tr : list (effect message sample)) :
  existsb is_invoke tr = false -> filter (dispatches h) tr = [].
Proof.
  induction tr as [|e tr IH]; cbn; auto.
  intros H; apply orb_false_iff in H as [He Ht].
  rewrite (IH Ht).
  destruct e; cbn in *; try discriminate; destruct h; reflexivity.
Qed.

Module SessionFacts.
Import Manual.
Import ManualFacts.
Import Upkeep.

Section Facts.

Context {sample : Type}.

Abbreviation world := (Manual.world sample).
Abbreviation event := (Manual.event sample).
Abbreviation action := (Manual.action sample).

Lemma note_no_start b m : filter is_thread_start (@note sample b m) = [].
Proof. now destruct b. Qed.

Lemma note_no_dispatch h b m : filter (dispatches h) (@note sample b m) = [].
Proof. now destruct b. Qed.

Lemma called_no_start h cb (arg : option (list sample)) m :
  filter is_thread_start (called h cb arg m) = [].
Proof. destruct cb as [c|]; cbn; auto. now destruct (cb_does c). Qed.

Lemma called_dispatch_le h h' cb (arg : option (list sample)) m :
  length (filter (dispatches h') (called h cb arg m)) <= 1.
Proof.
  destruct cb as [c|]; cbn; auto.
  destruct h, h'; cbn; destruct (cb_does c); cbn; lia.
Qed.

Lemma called_other_hook cb (arg : option (list sample)) m :
  filter (dispatches OnStop) (called OnStart cb arg m) = [].
Proof. destruct cb as [c|]; cbn; auto. now destruct (cb_does c). Qed.

Lemma join_trace_quiet (w : world) :
  filter is_thread_start (trace (join_recording_thread w)) = [] /\
  forall h, filter (dispatches h) (trace (join_recording_thread w)) = [].
Proof.
  unfold join_recording_thread, bind, get, gets, trace; cbn.
  destruct (recording_thread (self w)) as [t|]; cbn; [|auto].
  unfold join. pose proof (run_thread_control (join_fuel w) t w) as [_ Hl].
  destruct (run_thread (join_fuel w) t w) as [w1 tr]; cbn in *.
  split; [|intros h]; rewrite filter_app, logs_filter; auto;
    cbn; now destruct h.
Qed.

Lemma start_recording_busy (w : world) :
  is_recording (self w) = true ->
  start_recording w = (false, w, [Log WARNING AlreadyRecording]).
Proof.
  intros Hrec. unfold start_recording.
  unfold bind at 1. unfold get at 1, gets at 1. now rewrite Hrec.
Qed.

(** What one action adds to the two counts, and what it makes of
    [is_recording]. *)
Lemma perform_counts (a : action) (w : world) :
  utterances_in (trace (perform a w)) +
    b2n (is_recording (self (final (perform a w)))) <=
  starts_in (trace (perform a w)) + b2n (is_recording (self w)) /\
  starts_in (trace (perform a w)) + b2n (is_recording (self w)) <=
    releases [a] + b2n (is_recording (self (final (perform a w)))).
Proof.
  unfold utterances_in, starts_in.
  destruct a as [| | |t|x]; cbn [perform releases].
  - (* Start *)
    unfold bind. destruct (is_recording (self w)) eqn:Hrec.
    + rewrite (start_recording_busy _ Hrec); cbn. rewrite Hrec; cbn; lia.
    + rewrite (start_recording_unfold _ Hrec); cbn [trace final fst snd ret].
      rewrite app_nil_r, !filter_app, note_no_start, note_no_dispatch.
      cbn [filter is_thread_start dispatches app length self is_recording
           set_recording_thread set_is_recording b2n].
      rewrite called_no_start, called_other_hook. cbn. lia.
  - (* Stop *)
    unfold bind. destruct (is_recording (self w)) eqn:Hrec.
    + destruct (joined_control w) as (Hidle & _).
      destruct (join_trace_quiet (stopping w)) as [Hs Hd].
      rewrite (stop_recording_unfold _ Hrec). cbv zeta.
      destruct (audio_buffer (self (joined w))) as [|f fs];
        [|destruct (py_truediv _ _)];
        cbn [trace final fst snd ret]; rewrite Hidle;
        rewrite ?app_nil_r, !filter_app, ?Hs, ?Hd, ?note_no_start,
          ?note_no_dispatch, ?called_no_start; cbn; try lia.
      match goal with
      | |- context [called ?h ?cb ?arg ?m] =>
          pose proof (called_dispatch_le h OnStop cb arg m)
      end.
      lia.
    + rewrite (stop_recording_idle _ Hrec); cbn. rewrite Hrec; cbn; lia.
  - (* Cancel *)
    destruct (is_recording (self w)) eqn:Hrec.
    + rewrite (cancel_recording_unfold _ Hrec).
      destruct (joined_control w) as (Hidle & _).
      destruct (join_trace_quiet (stopping w)) as [Hs Hd].
      cbn [trace final fst snd filter is_thread_start dispatches].
      rewrite Hs, Hd.
      change (is_recording (self (with_self (set_audio_buffer []) (joined w))))
        with (is_recording (self (joined w))).
      rewrite Hidle; cbn; lia.
    + rewrite (cancel_recording_idle _ Hrec); cbn. rewrite Hrec; cbn; lia.
  - (* Tick *)
    destruct (_recording_worker t w) as [[w1 tr]|] eqn:Hstep;
      cbn [trace final fst snd]; [|cbn; lia].
    destruct (worker_step_control _ _ _ _ Hstep) as [Hc Hl].
    destruct Hc as (-> & _).
    rewrite !logs_filter; auto; cbn; lia.
  - (* Hear *)
    cbn. lia.
Qed.

Lemma run_counts (l : list action) (w : world) :
  utterances_in (trace (run l w)) +
    b2n (is_recording (self (final (run l w)))) <=
  starts_in (trace (run l w)) + b2n (is_recording (self w)) /\
  starts_in (trace (run l w)) + b2n (is_recording (self w)) <=
    releases l + b2n (is_recording (self (final (run l w)))).
Proof.
  revert w; induction l as [|a l IH]; intros w.
  - cbn. lia.
  - cbn [run]. unfold bind.
    pose proof (perform_counts a w) as Ha.
    destruct (perform a w) as [[u w1] t1]; cbn [trace final fst snd] in Ha.
    specialize (IH w1).
    destruct (run l w1) as [[u2 w2] t2]; cbn [trace final fst snd] in *.
    unfold utterances_in, starts_in in *.
    rewrite !filter_app, !length_app.
    assert (Hr : releases (a :: l) = releases [a] + releases l)
      by (destruct a; reflexivity).
    rewrite Hr. lia.
Qed.

(** X1.  Over any run of controller calls, thread steps and device
    deliveries, from any state: [on_recording_stop] is dispatched at most
    once for each capture thread that the run started, plus once for a
    session that was already under way.  No session yields two
    utterances, and none is yielded without a session. *)
Theorem utterances_never_outnumber_sessions (l : list action) (w : world) :
  utterances_in (trace (run l w)) <=
    starts_in (trace (run l w)) + b2n (is_recording (self w)).
Proof. pose proof (run_counts l w). lia. Qed.

(** X2.  Over any run, from any state: a capture thread is started at most
    once more than [stop_recording] and [cancel_recording] were called
    (and not even that once more when a session was already under way):
    a session is never started on top of one that was not stopped or
    cancelled. *)
Theorem one_session_at_a_time (l : list action) (w : world) :
  starts_in (trace (run l w)) + b2n (is_recording (self w))
    <= releases l + 1.
Proof.
  pose proof (run_counts l w).
  assert (b2n (is_recording (self (final (run l w)))) <= 1)
    by (destruct (is_recording _); cbn; lia).
  lia.
Qed.

(** *** An idle recorder does not capture *)

Lemma perform_flag (a : action) (w : world) :
  flag_follows w -> flag_follows (final (perform a w)).
Proof.
  unfold flag_follows. intros Hw.
  destruct a as [| | |t|x]; cbn [perform].
  - unfold bind. destruct (is_recording (self w)) eqn:Hrec.
    + rewrite (start_recording_busy _ Hrec); cbn. now rewrite Hrec.
    + rewrite (start_recording_unfold _ Hrec); cbn. now right.
  - unfold bind. destruct (is_recording (self w)) eqn:Hrec.
    + pose proof (stop_recording_final _ Hrec) as Hfin.
      destruct (joined_control w) as (Hidle & Hflag & _).
      unfold final in Hfin.
      destruct (stop_recording w) as [[b w1] tr]; cbn in *. subst w1.
      right. now rewrite Hidle, Hflag.
    + rewrite (stop_recording_idle _ Hrec); cbn. now rewrite Hrec.
  - destruct (is_recording (self w)) eqn:Hrec.
    + rewrite (cancel_recording_unfold _ Hrec).
      destruct (joined_control w) as (Hidle & Hflag & _).
      right. cbn. now rewrite Hidle, Hflag.
    + rewrite (cancel_recording_idle _ Hrec); cbn. now rewrite Hrec.
  - destruct (_recording_worker t w) as [[w1 tr]|] eqn:Hstep;
      cbn [final fst snd]; [|exact Hw].
    destruct (worker_step_control _ _ _ _ Hstep) as [Hc _].
    destruct Hc as (Hr & Hf & _ & _ & _ & _ & _ & Hlen).
    destruct Hw as [Hnil|Hw].
    + left. rewrite Hnil in Hlen. now apply length_zero_iff_nil.
    + right. now rewrite Hr, Hf.
  - exact Hw.
Qed.

Lemma run_flag (l : list action) (w : world) :
  flag_follows w -> flag_follows (final (run l w)).
Proof.
  revert w; induction l as [|a l IH]; intros w Hw; [exact Hw|].
  cbn [run]. unfold bind.
  pose proof (perform_flag a w Hw) as Ha.
  destruct (perform a w) as [[u w1] t1]; cbn [final fst snd] in Ha.
  specialize (IH w1 Ha).
  now destruct (run l w1) as [[u2 w2] t2].
Qed.

(** X3.  Start from a recorder that has no thread yet and let the controller,
    the threads and the device do anything.  Whenever the recorder is then
    idle ([is_recording] false), every capture thread has its stop flag
    set: however long a thread still runs, it takes at most one more
    result from the device and appends at most one more chunk, and three
    steps end it, unless it waits in a read that the device does not
    serve. *)
Theorem idle_recorder_is_not_capturing (l : list action) (w0 : world)
    (t : tid) (fuel : nat) :
  threads w0 = [] ->
  is_recording (self (final (run l w0))) = false ->
  let w := final (run l w0) in
  let w' := fst (run_thread fuel t w) in
  length (mic w) <= length (mic w') + 1 /\
  (exists extra,
     length extra <= 1 /\
     audio_buffer (self w') = audio_buffer (self w) ++ extra) /\
  (3 <= fuel -> t < length (threads w) ->
   finished t w' = true \/
   (nth_error (threads w) t = Some AtRead /\ mic w = [])).
Proof.
  intros Hnil Hidle. cbv zeta.
  pose proof (run_flag l w0 (or_introl Hnil)) as Hflag.
  set (w := final (run l w0)) in *.
  destruct (nth_error (threads w) t) as [p|] eqn:Hp.
  - assert (Hf : stop_recording_event (self w) = true).
    { destruct Hflag as [Hno|Hf]; [now rewrite Hno, nth_error_nil in Hp|].
      now rewrite Hf, Hidle. }
    destruct (run_thread_flagged fuel t w p Hf Hp) as [Hm Hx].
    destruct (run_thread_mic fuel t w) as (taken & Hmic & Hbuf).
    assert (Hr : reads_left p <= 1) by (destruct p; cbn; lia).
    assert (Hlen : length (mic w) =
                   length taken + length (mic (fst (run_thread fuel t w))))
      by (rewrite Hmic at 1; now rewrite length_app).
    split; [lia|]. split.
    + exists (chunks_of taken). split; [|exact Hbuf].
      pose proof (chunks_of_length taken). lia.
    + intros Hfuel _.
      assert (Hrk : rank p <= fuel) by (destruct p; cbn; lia).
      destruct (Hx Hrk) as [Hfin|[-> Hmt]]; auto.
  - assert (Hs : _recording_worker t w = None)
      by (unfold _recording_worker; now rewrite Hp).
    rewrite (run_thread_stuck fuel t w Hs). cbn [fst].
    split; [lia|]. split.
    + exists []. cbn. split; [lia|]. now rewrite app_nil_r.
    + intros _ Ht. apply nth_error_None in Hp. lia.
Qed.

(** *** What [stop_recording] takes from the buffer *)

(** X4.  While no capture thread of an earlier session is alive, a
    [stop_recording] that finds chunks in the buffer when it is called
    loses none of them: it returns [True] and hands [on_recording_stop]
    (when set) the concatenation of those chunks, in order, followed by
    at most one more chunk, the one whose read was under way.  (A thread
    that an earlier join gave up on runs on during this join and can add
    chunks of its own; [join] steps the joined thread only, so the
    statement is for the recorder whose other threads have ended.) *)
Theorem stop_hands_over_the_buffer (w : world) :
  one_thread w ->
  is_recording (self w) = true ->
  audio_buffer (self w) <> [] ->
  sample_rate (self w) <> 0%Z ->
  exists extra,
    length extra <= 1 /\
    value (stop_recording w) = true /\
    audio_buffer (self (final (stop_recording w))) =
      audio_buffer (self w) ++ extra /\
    filter is_invoke (trace (stop_recording w)) =
      handed OnStop (on_recording_stop (self w))
        (Some (concat (audio_buffer (self w) ++ extra))).
Proof.
  intros _ Hrec Hbuf Hrate.
  destruct (joined_buffer w) as (extra & Hlen & Hj).
  assert (Hne : audio_buffer (self (joined w)) <> []).
  { rewrite Hj. destruct (audio_buffer (self w)); [congruence|discriminate]. }
  destruct (stop_recording_some w Hrec Hne Hrate) as (Hv & Hi & _).
  exists extra. split; [exact Hlen|]. split; [exact Hv|]. split.
  - now rewrite (stop_recording_final _ Hrec).
  - rewrite Hi. unfold np_concatenate. now rewrite Hj.
Qed.

(** *** The callbacks and the state of the recorder *)

Lemma worker_callbacks (c1 c2 : option callback) t (w : world) :
  _recording_worker t (with_callbacks c1 c2 w) =
    match _recording_worker t w with
    | Some (w1, tr) => Some (with_callbacks c1 c2 w1, tr)
    | None => None
    end.
Proof.
  destruct w as [r th m].
  unfold _recording_worker, with_callbacks, with_self; cbn.
  destruct (nth_error th t) as [[]|]; cbn; auto.
  - destruct (pyaudio r) as [pa|]; cbn; auto.
    destruct (open_input pa (device_index r)); cbn; auto.
  - destruct (stop_recording_event r); cbn; auto.
  - destruct (stream r); cbn; auto.
    destruct m as [|[f|] m]; cbn; auto.
  - destruct (stream r) as [s|]; cbn; auto.
    destruct (closes s); cbn; auto.
Qed.

Lemma run_thread_callbacks (c1 c2 : option callback) fuel t (w : world) :
  run_thread fuel t (with_callbacks c1 c2 w) =
    (with_callbacks c1 c2 (fst (run_thread fuel t w)),
     snd (run_thread fuel t w)).
Proof.
  revert w; induction fuel as [|n IH]; intros w; cbn; auto.
  rewrite worker_callbacks.
  destruct (_recording_worker t w) as [[w1 e1]|]; cbn; auto.
  rewrite IH. now destruct (run_thread n t w1).
Qed.

Lemma join_callbacks (c1 c2 : option callback) (w : world) :
  join_recording_thread (with_callbacks c1 c2 w) =
    (tt, with_callbacks c1 c2 (final (join_recording_thread w)),
     trace (join_recording_thread w)).
Proof.
  unfold join_recording_thread, bind, get, gets, final, trace; cbn.
  destruct (recording_thread (self w)) as [t|]; cbn; auto.
  unfold join.
  change (join_fuel (with_callbacks c1 c2 w)) with (join_fuel w).
  rewrite run_thread_callbacks.
  destruct (run_thread (join_fuel w) t w) as [w1 tr]; cbn. reflexivity.
Qed.

Lemma joined_callbacks (c1 c2 : option callback) (w : world) :
  joined (with_callbacks c1 c2 w) = with_callbacks c1 c2 (joined w).
Proof.
  unfold joined.
  change (stopping (with_callbacks c1 c2 w))
    with (with_callbacks c1 c2 (stopping w)).
  now rewrite join_callbacks.
Qed.

(** X5.  What the three methods of the controller return, and the state they
    leave, do not depend on the callbacks: whether [on_recording_start]
    and [on_recording_stop] are set, and whether they return or raise,
    shows in the trace only.  A failing callback cannot leave the
    recorder half-started or half-stopped. *)
Theorem callbacks_cannot_corrupt (w : world) (c1 c2 : option callback) :
  let w' := with_callbacks c1 c2 w in
  (value (start_recording w') = value (start_recording w) /\
   final (start_recording w') =
     with_callbacks c1 c2 (final (start_recording w))) /\
  (value (stop_recording w') = value (stop_recording w) /\
   final (stop_recording w') =
     with_callbacks c1 c2 (final (stop_recording w))) /\
  final (cancel_recording w') =
    with_callbacks c1 c2 (final (cancel_recording w)).
Proof.
  cbv zeta. destruct (is_recording (self w)) eqn:Hrec.
  - assert (Hrec' : is_recording (self (with_callbacks c1 c2 w)) = true)
      by exact Hrec.
    split; [|split].
    + rewrite (start_recording_busy _ Hrec), (start_recording_busy _ Hrec').
      auto.
    + rewrite (stop_recording_final _ Hrec), (stop_recording_final _ Hrec').
      split; [|apply joined_callbacks].
      rewrite (stop_recording_unfold _ Hrec), (stop_recording_unfold _ Hrec').
      cbv zeta. rewrite joined_callbacks.
      change (audio_buffer (self (with_callbacks c1 c2 (joined w))))
        with (audio_buffer (self (joined w))).
      change (sample_rate (self (with_callbacks c1 c2 (joined w))))
        with (sample_rate (self (joined w))).
      destruct (audio_buffer (self (joined w))); [reflexivity|].
      destruct (py_truediv _ _); reflexivity.
    + rewrite (cancel_recording_unfold _ Hrec),
        (cancel_recording_unfold _ Hrec'). cbn [final fst snd].
      now rewrite joined_callbacks.
  - assert (Hrec' : is_recording (self (with_callbacks c1 c2 w)) = false)
      by exact Hrec.
    split; [|split].
    + rewrite (start_recording_unfold _ Hrec),
        (start_recording_unfold _ Hrec'). auto.
    + rewrite (stop_recording_idle _ Hrec), (stop_recording_idle _ Hrec').
      auto.
    + rewrite (cancel_recording_idle _ Hrec),
        (cancel_recording_idle _ Hrec'). auto.
Qed.

(** *** The device is released when a session ends *)

Lemma set_nth_app_last {A : Type} (old : list A) (p x : A) :
  set_nth (length old) x (old ++ [p]) = old ++ [x].
Proof. induction old as [|y old IH]; cbn; auto. now rewrite IH. Qed.

Lemma run_cons (a : action) (l : list action) (w : world) :
  final (run (a :: l) w) = final (run l (final (perform a w))) /\
  trace (run (a :: l) w) =
    trace (perform a w) ++ trace (run l (final (perform a w))).
Proof.
  cbn [run]. unfold bind.
  destruct (perform a w) as [[u w1] t1]; cbn.
  now destruct (run l w1) as [[u2 w2] t2].
Qed.

Lemma perform_start (w : world) :
  final (perform Start w) = final (start_recording w) /\
  trace (perform Start w) = trace (start_recording w).
Proof.
  cbn [perform]. unfold bind.
  destruct (start_recording w) as [[b w1] tr]; cbn. now rewrite app_nil_r.
Qed.

Lemma tending_thread old p (w : world) t :
  tending old p w ->
  nth_error (threads w) t =
    if t <? length old then Some Exited
    else if t =? length old then Some p else None.
Proof.
  intros (Hth & Hold & _). rewrite Hth.
  destruct (Nat.ltb_spec t (length old)) as [Hlt|Hge].
  - rewrite nth_error_app1 by assumption.
    destruct (nth_error old t) as [q|] eqn:Hq.
    + apply nth_error_In in Hq. rewrite Forall_forall in Hold.
      now rewrite (Hold q Hq).
    + apply nth_error_None in Hq. lia.
  - destruct (Nat.eqb_spec t (length old)) as [->|Hne].
    + now rewrite nth_error_app2, Nat.sub_diag by lia.
    + apply nth_error_None. rewrite length_app; cbn. lia.
Qed.

Lemma worker_step_tending old p t (w w' : world) tr :
  tending old p w ->
  _recording_worker t w = Some (w', tr) ->
  exists p', tending old p' w'.
Proof.
  intros Hinv Hstep.
  pose proof (tending_thread old p w t Hinv) as Hp.
  destruct Hinv as (Hth & Hold & Hnone & Hcl & Hpa).
  unfold _recording_worker in Hstep. rewrite Hp in Hstep.
  destruct (Nat.ltb_spec t (length old)) as [Hlt|Hge]; [discriminate|].
  destruct (Nat.eqb_spec t (length old)) as [->|Hne]; [|discriminate].
  assert (Hgo : forall q (u : world),
            threads u = threads w ->
            threads (goto (length old) q u) = old ++ [q]).
  { intros q u Hu. cbn. now rewrite Hu, Hth, set_nth_app_last. }
  destruct p.
  - (* AtOpen *)
    destruct (pyaudio (self w)) as [pa|] eqn:Ha.
    + pose proof (Hpa pa eq_refl) as Hclosing. rewrite <- Ha in Hpa.
      destruct (open_input pa (device_index (self w))) as [s|] eqn:Ho;
        inversion Hstep; subst; clear Hstep.
      * exists AtLoop. split; [now apply Hgo|]. split; [exact Hold|].
        split; [intros [|]; discriminate|]. split.
        -- cbn. intros s' Hs'. inversion Hs'; subst.
           exact (Hclosing _ _ Ho).
        -- exact Hpa.
      * exists AtFinally. split; [now apply Hgo|]. split; [exact Hold|].
        split; [intros [|]; discriminate|]. split; assumption.
    + rewrite <- Ha in Hpa. inversion Hstep; subst; clear Hstep.
      exists AtFinally. split; [now apply Hgo|]. split; [exact Hold|].
      split; [intros [|]; discriminate|]. split; assumption.
  - (* AtLoop *)
    destruct (stop_recording_event (self w));
      inversion Hstep; subst; clear Hstep;
      eexists; (split; [now apply Hgo|]); (split; [exact Hold|]);
      (split; [intros [|]; discriminate|]); split; assumption.
  - (* AtRead *)
    destruct (stream (self w)) as [s|] eqn:Hs.
    + destruct (mic w) as [|[f|] m] eqn:Hm; [discriminate| |];
        inversion Hstep; subst; clear Hstep;
        eexists; (split; [now apply Hgo|]); (split; [exact Hold|]);
        (split; [intros [|]; discriminate|]); split; cbn;
        try rewrite Hs; assumption.
    + inversion Hstep; subst; clear Hstep.
      exists AtFinally. split; [now apply Hgo|]. split; [exact Hold|].
      split; [intros [|]; discriminate|].
      split; cbn; rewrite ?Hs; assumption.
  - (* AtFinally *)
    destruct (stream (self w)) as [s|] eqn:Hs.
    + rewrite (Hcl s eq_refl) in Hstep.
      inversion Hstep; subst; clear Hstep.
      exists Exited. split; [now apply Hgo|]. split; [exact Hold|].
      split; [reflexivity|]. split; [discriminate|exact Hpa].
    + inversion Hstep; subst; clear Hstep.
      exists Exited. split; [now apply Hgo|]. split; [exact Hold|].
      split; [intros _; exact Hs|].
      split; cbn; rewrite ?Hs; assumption.
  - discriminate.
Qed.

Lemma run_thread_tending old p fuel t (w : world) :
  tending old p w -> exists p', tending old p' (fst (run_thread fuel t w)).
Proof.
  revert p w; induction fuel as [|n IH]; intros p w Hinv; cbn.
  - now exists p.
  - destruct (_recording_worker t w) as [[w1 e1]|] eqn:Hstep; cbn;
      [|now exists p].
    destruct (worker_step_tending _ _ _ _ _ _ Hinv Hstep) as (p1 & H1).
    destruct (IH p1 w1 H1) as (p2 & H2).
    destruct (run_thread n t w1) as [w2 e2]; cbn in *. now exists p2.
Qed.

Lemma run_capture_tending old p (l : list action) (w : world) :
  tending old p w -> only_capture l ->
  exists p', tending old p' (final (run l w)).
Proof.
  revert p w; induction l as [|a l IH]; intros p w Hinv Hl.
  - now exists p.
  - assert (Hl' : only_capture l) by (intros b Hb; apply Hl; now right).
    rewrite (proj1 (run_cons a l w)).
    destruct (Hl a (or_introl eq_refl)) as [[t ->]|[x ->]]; cbn [perform].
    + destruct (_recording_worker t w) as [[w1 e1]|] eqn:Hstep;
        cbn [final fst snd]; [|now apply (IH p)].
      destruct (worker_step_tending _ _ _ _ _ _ Hinv Hstep) as (p1 & H1).
      now apply (IH p1).
    + apply (IH p); [|exact Hl']. exact Hinv.
Qed.

(** X6.  Take a recorder with nothing under way, on a host whose streams can
    be closed; start a session and let the capture thread and the device
    do anything.  Then [stop_recording], and [cancel_recording] as well,
    leave nothing under way again: the thread has ended, the stream was
    closed and [self.stream] is [None], the recorder is idle.  The one
    exception is a thread that is waiting in a read for which the device
    has nothing when the call is made: the join gives up on it. *)
Theorem session_releases_the_device (w : world) (moves : list action) :
  settled w ->
  (forall pa, pyaudio (self w) = Some pa -> closing pa) ->
  only_capture moves ->
  let w1 := final (run (Start :: moves) w) in
  (settled (final (stop_recording w1)) /\
   settled (final (cancel_recording w1))) \/
  (nth_error (threads w1) (length (threads w)) = Some AtRead /\
   mic w1 = []).
Proof.
  intros (Hidle & Hstream & Hold) Hpa Hmoves. cbv zeta.
  rewrite (proj1 (run_cons Start moves w)), (proj1 (perform_start w)).
  rewrite (start_recording_unfold _ Hidle). cbn [final fst snd].
  set (t := length (threads w)). set (w0 := Build_world _ _ _).
  assert (H0 : tending (threads w) AtOpen w0).
  { split; [reflexivity|]. split; [exact Hold|].
    split; [intros _; exact Hstream|]. split; [|exact Hpa].
    cbn. rewrite Hstream. discriminate. }
  destruct (run_capture_tending _ _ moves w0 H0 Hmoves) as (p1 & H1).
  destruct (run_capture moves w0 Hmoves) as (Hc & _).
  set (w1 := final (run moves w0)) in *.
  destruct Hc as (Hrec & _ & Hth & _). cbn in Hrec, Hth.
  assert (Hs1 : tending (threads w) p1 (stopping w1)) by exact H1.
  assert (Hp1 : nth_error (threads (stopping w1)) t = Some p1).
  { rewrite (tending_thread _ _ _ t Hs1). unfold t.
    now rewrite Nat.ltb_irrefl, Nat.eqb_refl. }
  assert (Hj : joined w1 =
               fst (run_thread (join_fuel (stopping w1)) t (stopping w1))).
  { unfold joined, join_recording_thread, bind, get, gets, final.
    cbn [fst snd self stopping with_self].
    change (recording_thread
              (set_is_recording false
                 (set_stop_recording_event true (self w1))))
      with (recording_thread (self w1)).
    rewrite Hth. unfold join.
    now destruct (run_thread _ t _) as [w2 tr]. }
  destruct (run_thread_flagged (join_fuel (stopping w1)) t (stopping w1) p1
              eq_refl Hp1) as [_ Hend].
  destruct (run_thread_tending _ _ (join_fuel (stopping w1)) t _ Hs1)
    as (p2 & H2).
  rewrite <- Hj in Hend, H2.
  assert (Hrank : rank p1 <= join_fuel (stopping w1))
    by (unfold join_fuel; destruct p1; cbn; lia).
  destruct (Hend Hrank) as [Hfin|[-> Hmic]]; [left|right; auto].
  assert (Hsettled : settled (joined w1)).
  { destruct (joined_control w1) as (Hidle1 & _).
    pose proof (tending_thread _ _ _ t H2) as Hp2.
    unfold t in Hp2. rewrite Nat.ltb_irrefl, Nat.eqb_refl in Hp2.
    unfold finished in Hfin. fold t in Hp2. rewrite Hp2 in Hfin.
    destruct H2 as (Hth2 & Hold2 & Hnone2 & _).
    destruct p2; try discriminate.
    split; [exact Hidle1|]. split; [apply Hnone2; now right|].
    rewrite Hth2. apply Forall_app; split; [exact Hold2|].
    now constructor. }
  split.
  - now rewrite (stop_recording_final _ Hrec).
  - rewrite (cancel_recording_unfold _ Hrec). exact Hsettled.
Qed.

(** *** [cleanup] *)

Lemma relabel_invoke {m1 m2 : Type} (f : m1 -> m2) (tr : list (effect m1 sample)) :
  existsb is_invoke (map (relabel f) tr) = existsb is_invoke tr.
Proof.
  induction tr as [|e tr IH]; cbn; auto. rewrite IH. now destruct e.
Qed.

#[local] Arguments cancel_recording : simpl never.

Lemma cleanup_unfold (ok : bool) (w : world) :
  cleanup ok w =
    let w1 := if is_recording (self w)
              then final (cancel_recording w) else w in
    let tr1 := if is_recording (self w)
               then map (relabel Lifecycle) (trace (cancel_recording w))
               else [] in
    (tt,
     match pyaudio (self w1) with
     | Some _ => with_self (set_pyaudio None) w1
     | None => w1
     end,
     tr1 ++
     match pyaudio (self w1) with
     | Some _ => if ok then [] else [Log ERROR ErrorTerminatingPyAudio]
     | None => []
     end ++
     if debug_mode (self w1) then [Log INFO CleanedUp] else []).
Proof.
  unfold cleanup, lift.
  unfold bind, gets, when, modify, emit, ret, final, trace. cbn.
  destruct (is_recording (self w)); cbn.
  - destruct (cancel_recording w) as [[u w1] tr]; cbn.
    destruct (pyaudio (self w1)); cbn;
      [destruct ok; cbn|]; destruct (debug_mode (self w1)); cbn;
      now rewrite ?app_nil_r.
  - destruct (pyaudio (self w)); cbn;
      [destruct ok; cbn|]; destruct (debug_mode (self w)); cbn;
      reflexivity.
Qed.

(** X7.  [cleanup], from any state and whether or not [terminate()] raises:
    the recorder is idle afterwards and holds no PyAudio object; no
    callback was dispatched, so a session that was under way is
    discarded, its buffer emptied, while the buffer of an idle recorder
    is left alone.  A second [cleanup] (the destructor calls it again)
    changes nothing and writes at most its debug note: [terminate()] is
    not called twice. *)
Theorem cleanup_discards_and_releases (w : world) (ok ok' : bool) :
  let after := cleanup ok w in
  is_recording (self (final after)) = false /\
  pyaudio (self (final after)) = None /\
  existsb is_invoke (trace after) = false /\
  audio_buffer (self (final after)) =
    (if is_recording (self w) then [] else audio_buffer (self w)) /\
  final (__del__ ok' (final after)) = final after /\
  trace (__del__ ok' (final after)) =
    (if debug_mode (self w) then [Log INFO CleanedUp] else []).
Proof.
  cbv zeta. unfold __del__. rewrite !cleanup_unfold. cbv zeta.
  cbn [final trace fst snd].
  set (w1 := if is_recording (self w) then final (cancel_recording w) else w).
  assert (H1 : is_recording (self w1) = false /\
               debug_mode (self w1) = debug_mode (self w) /\
               audio_buffer (self w1) =
                 (if is_recording (self w) then [] else audio_buffer (self w)) /\
               existsb is_invoke
                 (if is_recording (self w)
                  then map (relabel Lifecycle) (trace (cancel_recording w))
                  else []) = false).
  { unfold w1. destruct (is_recording (self w)) eqn:Hrec; [|auto].
    rewrite (cancel_recording_unfold _ Hrec). cbn [final trace fst snd].
    destruct (joined_control w) as (Hidle & _).
    destruct (join_recording_thread_spec (stopping w)) as (Hc & Hinv & _).
    destruct Hc as (_ & _ & _ & _ & Hdbg & _).
    split; [exact Hidle|]. split; [exact Hdbg|]. split; [reflexivity|].
    cbn [map relabel existsb is_invoke]. now rewrite relabel_invoke. }
  destruct H1 as (Hidle & Hdbg & Hbuf & Hinv).
  set (w2 := match pyaudio (self w1) with
             | Some _ => with_self (set_pyaudio None) w1
             | None => w1
             end).
  assert (H2 : is_recording (self w2) = false /\ pyaudio (self w2) = None /\
               debug_mode (self w2) = debug_mode (self w) /\
               audio_buffer (self w2) = audio_buffer (self w1)).
  { unfold w2. destruct (pyaudio (self w1)) eqn:Hpa; cbn; auto. }
  destruct H2 as (Hidle2 & Hpa2 & Hdbg2 & Hbuf2).
  rewrite Hidle2, Hpa2, Hdbg2.
  split; [reflexivity|]. split; [reflexivity|]. split; [|split].
  - rewrite !existsb_app, Hinv.
    destruct (pyaudio (self w1)); [destruct ok|];
      destruct (debug_mode (self w1)); reflexivity.
  - now rewrite Hbuf2.
  - split; reflexivity.
Qed.

Lemma worker_step_barren old p t (w w' : world) tr :
  barren old p w ->
  _recording_worker t w = Some (w', tr) ->
  mic w' = mic w /\ self w' = self w /\ exists p', barren old p' w'.
Proof.
  intros (Hth & Hold & Hpa & Hs & Hp) Hstep.
  assert (Hnth : nth_error (threads w) t =
                 if t <? length old then Some Exited
                 else if t =? length old then Some p else None).
  { apply (tending_thread old p w t).
    split; [exact Hth|]. split; [exact Hold|].
    split; [intros _; exact Hs|]. split; intros x Hx; congruence. }
  unfold _recording_worker in Hstep. rewrite Hnth, Hpa, Hs in Hstep.
  destruct (Nat.ltb_spec t (length old)) as [Hlt|Hge]; [discriminate|].
  destruct (Nat.eqb_spec t (length old)) as [->|Hne]; [|discriminate].
  destruct Hp as [->|[->| ->]]; inversion Hstep; subst; clear Hstep;
    (split; [reflexivity|]); (split; [reflexivity|]);
    eexists; (split; [cbn; rewrite Hth; apply set_nth_app_last|]);
    (split; [exact Hold|]); (split; [exact Hpa|]); (split; [exact Hs|]);
    auto.
Qed.

Lemma run_thread_barren old p fuel t (w : world) :
  barren old p w ->
  mic (fst (run_thread fuel t w)) = mic w /\
  self (fst (run_thread fuel t w)) = self w.
Proof.
  revert p w; induction fuel as [|n IH]; intros p w Hinv; cbn; auto.
  destruct (_recording_worker t w) as [[w1 e1]|] eqn:Hstep; cbn; auto.
  destruct (worker_step_barren _ _ _ _ _ _ Hinv Hstep) as (Hm & Hself & p1 & H1).
  destruct (IH p1 w1 H1) as [Hm2 Hs2].
  destruct (run_thread n t w1) as [w2 e2]; cbn in *.
  split; congruence.
Qed.

Lemma run_capture_barren old p (l : list action) (w : world) :
  barren old p w -> only_capture l ->
  mic (final (run l w)) = mic w ++ heard l /\
  self (final (run l w)) = self w /\
  exists p', barren old p' (final (run l w)).
Proof.
  revert p w; induction l as [|a l IH]; intros p w Hinv Hl.
  - cbn. rewrite app_nil_r. split; [reflexivity|]. split; [reflexivity|].
    now exists p.
  - assert (Hl' : only_capture l) by (intros b Hb; apply Hl; now right).
    rewrite (proj1 (run_cons a l w)).
    destruct (Hl a (or_introl eq_refl)) as [[t ->]|[x ->]];
      cbn [perform heard].
    + destruct (_recording_worker t w) as [[w1 e1]|] eqn:Hstep;
        cbn [final fst snd]; [|now apply (IH p)].
      destruct (worker_step_barren _ _ _ _ _ _ Hinv Hstep)
        as (Hm & Hself & p1 & H1).
      rewrite <- Hm, <- Hself. now apply (IH p1).
    + destruct (IH p (hear x w) Hinv Hl') as (Hm & Hself & p' & H').
      cbn [modify final fst snd]. rewrite Hm. cbn [hear mic].
      rewrite <- app_assoc. split; [reflexivity|]. split; [exact Hself|].
      now exists p'.
Qed.

(** X8.  A recorder that was cleaned up while nothing was under way still
    accepts [start_recording], which returns [True] and starts a thread;
    but the thread cannot open a stream, so the session takes nothing
    from the device, whatever the device delivers, its buffer stays
    empty, and [stop_recording] returns [False] and dispatches no
    callback. *)
Theorem no_capture_after_cleanup (w : world) (ok : bool)
    (moves : list action) :
  settled w ->
  only_capture moves ->
  let w0 := final (cleanup ok w) in
  let w1 := final (run (Start :: moves) w0) in
  value (start_recording w0) = true /\
  starts_in (trace (start_recording w0)) = 1 /\
  mic w1 = mic w ++ heard moves /\
  audio_buffer (self w1) = [] /\
  value (stop_recording w1) = false /\
  existsb is_invoke (trace (stop_recording w1)) = false /\
  mic (final (stop_recording w1)) = mic w ++ heard moves.
Proof.
  intros (Hidle & Hstream & Hold) Hmoves. cbv zeta.
  rewrite cleanup_unfold. cbv zeta. rewrite Hidle. cbn [final fst snd].
  set (w0 := match pyaudio (self w) with
             | Some _ => with_self (set_pyaudio None) w
             | None => w
             end).
  assert (H0 : is_recording (self w0) = false /\ pyaudio (self w0) = None /\
               stream (self w0) = None /\ threads w0 = threads w /\
               mic w0 = mic w).
  { unfold w0. destruct (pyaudio (self w)) eqn:Hpa; cbn; auto. }
  destruct H0 as (Hidle0 & Hpa0 & Hs0 & Hth0 & Hm0).
  rewrite (proj1 (run_cons Start moves w0)), (proj1 (perform_start w0)).
  rewrite (start_recording_unfold _ Hidle0). cbn [value final trace fst snd].
  set (t := length (threads w0)). set (ws := Build_world _ _ _).
  assert (Hb : barren (threads w) AtOpen ws).
  { split; [cbn; now rewrite Hth0|]. split; [exact Hold|].
    split; [exact Hpa0|]. split; [exact Hs0|]. now left. }
  destruct (run_capture_barren _ _ moves ws Hb Hmoves)
    as (Hm1 & Hself1 & p1 & H1).
  set (w1 := final (run moves ws)) in *.
  assert (Hrec1 : is_recording (self w1) = true) by now rewrite Hself1.
  assert (Hbuf1 : audio_buffer (self w1) = []) by now rewrite Hself1.
  assert (Hj : mic (joined w1) = mic w1 /\ audio_buffer (self (joined w1)) = []).
  { unfold joined, join_recording_thread, bind, get, gets, final.
    cbn [fst snd]. destruct (recording_thread (self (stopping w1))) as [t'|].
    - unfold join.
      assert (Hbs : barren (threads w) p1 (stopping w1)) by exact H1.
      destruct (run_thread_barren _ _ (join_fuel (stopping w1)) t' _ Hbs)
        as [Hm Hs].
      destruct (run_thread _ t' _) as [w2 tr]; cbn in *.
      rewrite Hm, Hs. cbn. auto.
    - cbn. auto. }
  destruct Hj as [Hjm Hjb].
  split; [reflexivity|]. split.
  { unfold starts_in. rewrite filter_app, note_no_start.
    cbn [filter is_thread_start app]. now rewrite called_no_start. }
  split; [now rewrite Hm1; cbn; rewrite Hm0|]. split; [exact Hbuf1|].
  pose proof (stop_recording_final _ Hrec1) as Hfin.
  destruct (join_recording_thread_spec (stopping w1)) as (_ & Hinv & _).
  rewrite (stop_recording_unfold _ Hrec1) in *. cbv zeta in *.
  rewrite Hjb in *. cbn [value final trace fst snd] in *.
  split; [reflexivity|]. split.
  - rewrite !existsb_app, Hinv. cbn. rewrite Bool.orb_false_r.
    unfold note. now destruct (debug_mode (self w1)).
  - rewrite Hjm, Hm1. cbn. now rewrite Hm0.
Qed.

(** *** [get_audio_devices] *)

Lemma In_range (n i : Z) : In i (range n) <-> (0 <= i < n)%Z.
Proof.
  unfold range. rewrite in_map_iff. split.
  - intros (k & <- & Hk). apply in_seq in Hk. lia.
  - intros Hi. exists (Z.to_nat i). split; [lia|]. apply in_seq. lia.
Qed.

Lemma range_sorted (n : Z) : Sorted.StronglySorted Z.lt (range n).
Proof.
  unfold range. generalize 0 as a. generalize (Z.to_nat n) as k.
  induction k as [|k IH]; intros a; cbn; constructor; [apply IH|].
  apply Forall_forall. intros x Hx. apply in_map_iff in Hx as (j & <- & Hj).
  apply in_seq in Hj. lia.
Qed.

Lemma filter_sorted (P : Z -> bool) (l : list Z) :
  Sorted.StronglySorted Z.lt l -> Sorted.StronglySorted Z.lt (filter P l).
Proof.
  induction 1 as [|a l Hl IH Ha]; cbn; [constructor|].
  destruct (P a); [|exact IH]. constructor; [exact IH|].
  apply Forall_forall. intros x Hx. apply filter_In in Hx as [Hx _].
  rewrite Forall_forall in Ha. now apply Ha.
Qed.

Lemma listing_fold (info : Z -> option device_info) (l : list Z)
    (acc : list device) :
  fold_left
    (fun devices i =>
       match info i with
       | Some d => if (maxInputChannels d >? 0)%Z
                   then devices ++ [entry i d] else devices
       | None => devices
       end) l acc =
  acc ++ flat_map (fun i => match info i with
                            | Some d => if (maxInputChannels d >? 0)%Z
                                        then [entry i d] else []
                            | None => []
                            end) l.
Proof.
  revert acc; induction l as [|i l IH]; intros acc; cbn;
    [now rewrite app_nil_r|].
  rewrite IH. destruct (info i) as [d|]; [|reflexivity].
  destruct (maxInputChannels d >? 0)%Z; [|reflexivity].
  now rewrite <- app_assoc.
Qed.

Lemma get_audio_devices_unfold (info : Z -> option device_info)
    (r : Manual.recorder sample) :
  get_audio_devices info r =
    match pyaudio r with
    | None => []
    | Some pa =>
        flat_map (fun i => match info i with
                           | Some d => if (maxInputChannels d >? 0)%Z
                                       then [entry i d] else []
                           | None => []
                           end)
                 (range (get_device_count pa))
    end.
Proof.
  unfold get_audio_devices. destruct (pyaudio r) as [pa|]; [|reflexivity].
  now rewrite listing_fold.
Qed.

Lemma listed_indices (info : Z -> option device_info) (l : list Z) :
  map index
    (flat_map (fun i => match info i with
                        | Some d => if (maxInputChannels d >? 0)%Z
                                    then [entry i d] else []
                        | None => []
                        end) l) =
  filter (listable info) l.
Proof.
  induction l as [|i l IH]; cbn; auto. unfold listable at 1.
  destruct (info i) as [d|]; [|exact IH].
  destruct (maxInputChannels d >? 0)%Z; cbn; now rewrite IH.
Qed.

(** X9.  [get_audio_devices] lists exactly the devices whose index [i] lies
    in [0 <= i < get_device_count()], whose information can be read and
    which have at least one input channel, each with its own name,
    channel count and sample rate; the list is in rising order of index,
    without repetition; a recorder without a PyAudio object lists
    nothing; a device whose query raises is passed over and does not end
    the listing. *)
Theorem listed_devices_are_the_inputs (info : Z -> option device_info)
    (r : Manual.recorder sample) :
  (forall e : device,
     In e (get_audio_devices info r) <->
     exists pa d,
       pyaudio r = Some pa /\
       (0 <= index e < get_device_count pa)%Z /\
       info (index e) = Some d /\
       (maxInputChannels d > 0)%Z /\
       e = entry (index e) d) /\
  Sorted.StronglySorted Z.lt (map index (get_audio_devices info r)) /\
  (pyaudio r = None -> get_audio_devices info r = []).
Proof.
  rewrite get_audio_devices_unfold. split; [|split].
  - intros e. destruct (pyaudio r) as [pa|].
    + rewrite in_flat_map. split.
      * intros (i & Hi & He). apply In_range in Hi.
        destruct (info i) as [d|] eqn:Hd; [|contradiction].
        destruct (Z.gtb_spec (maxInputChannels d) 0) as [Hc|Hc];
          [|contradiction].
        destruct He as [<-|[]]. cbn. exists pa, d. repeat split; auto; lia.
      * intros (pa' & d & Hpa & Hi & Hd & Hc & He).
        inversion Hpa; subst pa'. exists (index e).
        split; [now apply In_range|]. rewrite Hd.
        destruct (Z.gtb_spec (maxInputChannels d) 0) as [_|Hn]; [|lia].
        left. now symmetry.
    + split; [contradiction|]. intros (pa & d & Hpa & _). discriminate.
  - destruct (pyaudio r) as [pa|]; [|constructor].
    rewrite listed_indices. apply filter_sorted, range_sorted.
  - now intros ->.
Qed.

(** X10.  An index that [get_audio_devices] offers passes the validation of
    [_initialize_audio] on the same host: configured as [device_index],
    it is kept as it is, and no "out of range" warning is written. *)
Theorem listed_device_passes_validation (info : Z -> option device_info)
    (w : world) (pa : PyAudio) (e : device) :
  pyaudio (self w) = Some pa ->
  In e (get_audio_devices info (self w)) ->
  let configured := with_self (set_device_index (Some (index e))) w in
  value (_initialize_audio (Some pa) configured) = true /\
  device_index (self (final (_initialize_audio (Some pa) configured))) =
    Some (index e) /\
  (forall i, ~ In (Log WARNING (DeviceIndexOutOfRange i))
                  (trace (_initialize_audio (Some pa) configured))).
Proof.
  intros Hpa He. cbv zeta.
  rewrite get_audio_devices_unfold, Hpa in He.
  apply in_flat_map in He as (i & Hi & He). apply In_range in Hi.
  assert (Hidx : index e = i).
  { destruct (info i) as [d|]; [|contradiction].
    destruct (maxInputChannels d >? 0)%Z; [|contradiction].
    now destruct He as [<-|[]]. }
  rewrite Hidx.
  unfold _initialize_audio, get, set, bind, ret, emit, gets, modify, when,
    value, final, trace. cbn.
  destruct (debug_mode (self w)); cbn;
    (destruct (Z.geb_spec i (get_device_count pa)) as [Hge|_]; [lia|]);
    cbn; repeat split; auto;
    intros j Hin; intuition discriminate.
Qed.

End Facts.

(** *** The set-ups, run *)

Import Scenarios.
Import Setups.

Lemma idle_recorder_is_not_capturing_witness :
  let w := final (run [Start; Tick 0; Tick 0; Stop] three_at_the_device) in
  threads three_at_the_device = [] /\
  is_recording (self w) = false /\
  length (mic w) <= length (mic (fst (run_thread 5 0 w))) + 1 /\
  (finished 0 (fst (run_thread 5 0 w)) = true \/
   (nth_error (threads w) 0 = Some AtRead /\ mic w = [])).
Proof.
  cbv zeta.
  pose proof (idle_recorder_is_not_capturing
                [Start; Tick 0; Tick 0; Stop] three_at_the_device 0 5
                eq_refl eq_refl) as (H1 & _ & H3).
  split; [reflexivity|]. split; [reflexivity|]. split; [exact H1|].
  apply H3; [lia|vm_compute; lia].
Defined.

Lemma three_chunks_one_thread : one_thread three_chunks.
Proof.
  intros t p Hp Hlive. destruct t as [|t].
  - reflexivity.
  - destruct t; discriminate Hp.
Qed.

Lemma stop_hands_over_the_buffer_witness :
  exists extra : list (list Z),
    length extra <= 1 /\
    value (stop_recording three_chunks) = true /\
    audio_buffer (self (final (stop_recording three_chunks))) =
      audio_buffer (self three_chunks) ++ extra /\
    filter is_invoke (trace (stop_recording three_chunks)) =
      handed OnStop (on_recording_stop (self three_chunks))
        (Some (concat (audio_buffer (self three_chunks) ++ extra))).
Proof.
  apply stop_hands_over_the_buffer;
    [exact three_chunks_one_thread | reflexivity | vm_compute; discriminate
    | vm_compute; discriminate].
Defined.

Lemma host_closing : closing host.
Proof. intros i s H. cbn in H. now inversion H. Qed.

Lemma ticks_only_capture (t : tid) (n : nat) : only_capture (ticks t n).
Proof.
  induction n as [|n IH]; intros a Ha; [destruct Ha|].
  destruct Ha as [<-|Ha]; [left; now exists t|now apply IH].
Qed.

Lemma three_at_the_device_settled : settled three_at_the_device.
Proof. split; [reflexivity|]. split; [reflexivity|]. constructor. Qed.

Lemma session_releases_the_device_witness :
  let w1 := final (run (Start :: ticks 0 4) three_at_the_device) in
  (settled (final (stop_recording w1)) /\
   settled (final (cancel_recording w1))) \/
  (nth_error (threads w1) (length (threads three_at_the_device)) =
     Some AtRead /\
   mic w1 = []).
Proof.
  apply session_releases_the_device.
  - exact three_at_the_device_settled.
  - intros pa Hpa. vm_compute in Hpa. inversion Hpa. exact host_closing.
  - apply ticks_only_capture.
Defined.

Lemma no_capture_after_cleanup_witness :
  let w0 := final (cleanup true three_at_the_device) in
  let w1 := final (run (Start :: ticks 0 4) w0) in
  value (start_recording w0) = true /\
  starts_in (trace (start_recording w0)) = 1 /\
  mic w1 = mic three_at_the_device ++ heard (ticks 0 4) /\
  audio_buffer (self w1) = [] /\
  value (stop_recording w1) = false /\
  existsb is_invoke (trace (stop_recording w1)) = false /\
  mic (final (stop_recording w1)) =
    mic three_at_the_device ++ heard (ticks 0 4).
Proof.
  exact (no_capture_after_cleanup three_at_the_device true (ticks 0 4)
           three_at_the_device_settled (ticks_only_capture 0 4)).
Defined.

Lemma microphone_is_listed :
  get_audio_devices inputs (self three_at_the_device) = [microphone].
Proof. vm_compute. reflexivity. Qed.

Lemma listed_device_passes_validation_witness :
  let configured :=
    with_self (set_device_index (Some (index microphone)))
      three_at_the_device in
  value (_initialize_audio (Some host) configured) = true /\
  device_index (self (final (_initialize_audio (Some host) configured))) =
    Some 1%Z /\
  (forall i, ~ In (Log WARNING (DeviceIndexOutOfRange i))
                  (trace (_initialize_audio (Some host) configured))).
Proof.
  assert (Hin : In microphone
                  (get_audio_devices inputs (self three_at_the_device)))
    by (rewrite microphone_is_listed; now left).
  exact (listed_device_passes_validation inputs three_at_the_device host
           microphone eq_refl Hin).
Defined.

(** The same counts on a run with two sessions, the second one
    cancelled: two capture threads, one utterance. *)
Example two_sessions_one_utterance :
  let tr := trace (run (Start :: ticks 0 3 ++ Stop :: Start :: ticks 1 3 ++
                        [Cancel; Stop]) three_at_the_device) in
  starts_in tr = 2 /\ utterances_in tr = 1.
Proof. vm_compute. split; reflexivity. Qed.

(** [cleanup] during a session, then the destructor. *)
Example cleanup_during_a_session :
  let after := cleanup true three_chunks in
  audio_buffer (self (final after)) = [] /\
  pyaudio (self (final after)) = None /\
  threads (final after) = [Exited] /\
  trace (__del__ true (final after)) = [].
Proof. vm_compute. repeat split; reflexivity. Qed.

End SessionFacts.
(** ** Facts about listening with voice-activity detection *)

Lemma filter_dispatches_invoke {message sample : Type} (h : hook)
    (tr : list (effect message sample)) :
  filter (dispatches h) (filter is_invoke tr) = filter (dispatches h) tr.
Proof.
  induction tr as [|e tr IH]; cbn; auto.
  destruct e; cbn; rewrite ?IH; auto.
Qed.

Lemma handed_over_invoke {message sample : Type}
    (tr : list (effect message sample)) :
  handed_over (filter is_invoke tr) = handed_over tr.
Proof.
  induction tr as [|e tr IH]; cbn; auto.
  destruct e; cbn; rewrite ?IH; auto.
Qed.

Lemma handed_over_app {message sample : Type}
    (t1 t2 : list (effect message sample)) :
  handed_over (t1 ++ t2) = handed_over t1 ++ handed_over t2.
Proof.
  induction t1 as [|e t1 IH]; cbn; auto.
  destruct e as [| | |how [] cb [a|]]; cbn; rewrite ?IH; auto.
Qed.

Module ListeningFacts.
Import Vad.
Import Listening.

Section Facts.

Context {F : Type} {num : Numeric F}.

Abbreviation recorder := (Vad.recorder F).
Abbreviation call := (Listening.call F).

Ltac unmonad :=
  unfold bind, ret, emit, gets, modify, when, value, final, trace in *;
  cbn in *.

(** [_stop_recording_internal] on a recorder that is recording. *)
Lemma stop_internal_spec (r : recorder) :
  is_recording r = true ->
  let res := _stop_recording_internal r in
  (is_recording (final res) = false /\
   silence_start_time (final res) = None /\
   audio_data (final res) = [] /\
   is_listening (final res) = is_listening r /\
   stream (final res) = stream r /\
   same_setup r (final res)) /\
  filter is_invoke (trace res) =
    match audio_data r with
    | [] => []
    | _ :: _ =>
        if (sample_rate r =? 0)%Z then []
        else dispatched OnStop (on_recording_stop r)
               (Some (concat (audio_data r)))
    end /\
  (value res = Raised <-> audio_data r <> [] /\ sample_rate r = 0%Z) /\
  (In (Log WARNING NoAudioCaptured) (trace res) <-> audio_data r = []).
Proof.
  intros Hrec. cbv zeta.
  unfold _stop_recording_internal, dispatch_thread, same_setup, dispatched,
    np_concatenate, py_truediv.
  unmonad. rewrite Hrec. cbn.
  destruct (audio_data r) as [|f fs] eqn:Hd; cbn.
  - repeat split; auto; try (intros [H _]; congruence);
      try discriminate.
  - destruct (Z.eqb_spec (sample_rate r) 0) as [Hz|Hz]; cbn.
    + repeat split; auto; try discriminate; try contradiction.
    + destruct (on_recording_stop r) as [c|] eqn:Hcb; cbn;
        repeat split; auto; try discriminate;
        try (intros [_ H]; congruence);
        try (intros [H|[H|H]]; discriminate || contradiction);
        try (intros [H|H]; discriminate || contradiction).
Qed.


#[local] Arguments _stop_recording_internal : simpl never.

(** [_handle_silence_detected], case by case. *)
Lemma silence_spec (now : F) (r : recorder) :
  _handle_silence_detected now r =
    if is_recording r then
      match silence_start_time r with
      | None => (Done, set_silence_start_time (Some now) r, [])
      | Some t0 =>
          if gt (minus now t0) (silence_timeout r)
          then (value (_stop_recording_internal r),
                final (_stop_recording_internal r),
                Log INFO SilenceTimeout :: trace (_stop_recording_internal r))
          else (Done, r, [])
      end
    else (Done, r, []).
Proof.
  unfold _handle_silence_detected. unmonad.
  destruct (is_recording r); cbn; auto.
  destruct (silence_start_time r) as [t0|]; cbn; auto.
  destruct (gt (minus now t0) (silence_timeout r)); cbn; auto.
  now destruct (_stop_recording_internal r) as [[e r1] tr].
Qed.

#[local] Arguments _handle_silence_detected : simpl never.

(** [_audio_callback] on a chunk in which voice is detected. *)
Lemma frame_voice (chunk : list F) (status : bool) (now : F) (r : recorder) :
  _detect_voice_activity r chunk = true ->
  let res := _audio_callback chunk status now r in
  (is_recording (final res) = true /\
   audio_data (final res) =
     (if is_recording r then audio_data r else []) ++ [chunk] /\
   silence_start_time (final res) = None /\
   is_listening (final res) = is_listening r /\
   stream (final res) = stream r /\
   same_setup r (final res)) /\
  filter is_invoke (trace res) =
    (if is_recording r then []
     else dispatched OnStart (on_recording_start r) None) /\
  ~ In (Log WARNING NoAudioCaptured) (trace res).
Proof.
  intros Hv. cbv zeta.
  unfold _audio_callback, _handle_voice_detected, dispatch_thread,
    same_setup, dispatched, _detect_voice_activity in *.
  destruct status; unmonad; rewrite Hv; cbn;
  destruct (is_recording r) eqn:Hrec; cbn;
    try (destruct (on_recording_start r) as [c|] eqn:Hcb; cbn);
    repeat split; auto; intuition discriminate.
Qed.

(** [_audio_callback] on a chunk in which no voice is detected. *)
Lemma frame_silence (chunk : list F) (status : bool) (now : F) (r : recorder) :
  _detect_voice_activity r chunk = false ->
  let res := _audio_callback chunk status now r in
  let sil := _handle_silence_detected now r in
  final res = final sil /\
  filter is_invoke (trace res) = filter is_invoke (trace sil) /\
  (In (Log WARNING NoAudioCaptured) (trace res) <->
   In (Log WARNING NoAudioCaptured) (trace sil)).
Proof.
  intros Hv. cbv zeta.
  unfold _audio_callback, _detect_voice_activity in *.
  destruct status; unmonad; rewrite Hv;
  destruct (_handle_silence_detected now r) as [[e r1] tr]; cbn;
  destruct e; cbn; rewrite ?app_nil_r, ?filter_app; cbn;
    rewrite ?app_nil_r; repeat split; auto;
    rewrite ?in_app_iff; cbn; intuition discriminate.
Qed.

Lemma stop_listening_spec (r : recorder) :
  stop_listening r =
    if is_listening r then
      if is_recording r then
        match value (_stop_recording_internal r) with
        | Raised =>
            (Raised, final (_stop_recording_internal r),
             Log INFO StoppingListening :: trace (_stop_recording_internal r))
        | Done =>
            (Done,
             set_is_listening false
               (match stream (final (_stop_recording_internal r)) with
                | Some _ => set_stream None (final (_stop_recording_internal r))
                | None => final (_stop_recording_internal r)
                end),
             Log INFO StoppingListening ::
             trace (_stop_recording_internal r) ++
             match stream (final (_stop_recording_internal r)) with
             | Some st => if closes st then []
                          else [Log ERROR ErrorClosingStream]
             | None => []
             end)
        end
      else
        (Done,
         set_is_listening false
           (match stream r with
            | Some _ => set_stream None r
            | None => r
            end),
         Log INFO StoppingListening ::
         match stream r with
         | Some st => if closes st then [] else [Log ERROR ErrorClosingStream]
         | None => []
         end)
    else (Done, r, []).
Proof.
  unfold stop_listening. unmonad.
  destruct (is_listening r); cbn; auto.
  destruct (is_recording r); cbn.
  - destruct (_stop_recording_internal r) as [[e r1] tr]; cbn.
    destruct e; cbn; [|now rewrite app_nil_r].
    destruct (stream r1) as [st|]; cbn; [destruct (closes st); cbn|];
      now rewrite ?app_nil_r.
  - destruct (stream r) as [st|]; cbn; [destruct (closes st); cbn|];
      reflexivity.
Qed.

Lemma force_stop_spec (r : recorder) :
  force_stop_recording r =
    if is_recording r
    then (tt,
          set_silence_start_time None
            (set_audio_data [] (set_is_recording false r)),
          [Log INFO ForceStopping])
    else (tt, r, []).
Proof.
  unfold force_stop_recording. unmonad. now destruct (is_recording r).
Qed.

Lemma same_setup_refl (r : recorder) : same_setup r r.
Proof. unfold same_setup; repeat split. Qed.

Lemma same_setup_trans (r1 r2 r3 : recorder) :
  same_setup r1 r2 -> same_setup r2 r3 -> same_setup r1 r3.
Proof. unfold same_setup; intuition congruence. Qed.

Lemma perform_stop_listening (r : recorder) :
  perform StopListening r =
    (tt, final (stop_listening r), trace (stop_listening r)).
Proof.
  cbn [perform]. unfold bind, ret, final, trace.
  destruct (stop_listening r) as [[e r1] tr]; cbn. now rewrite app_nil_r.
Qed.

(** What a call does to the recording: nothing, or it adds a voiced
    chunk (starting a recording if none is under way), or it stops the
    recording and hands its audio over, or it discards the recording. *)
Lemma perform_cases (c : call) (r : recorder) :
  let res := perform c r in
  same_setup r (final res) /\
  ((is_recording (final res) = is_recording r /\
    audio_data (final res) = audio_data r /\
    filter is_invoke (trace res) = [] /\
    voiced r [c] = [] /\
    ~ In (Log WARNING NoAudioCaptured) (trace res)) \/
   (exists chunk,
      voiced r [c] = [chunk] /\
      is_recording (final res) = true /\
      audio_data (final res) =
        (if is_recording r then audio_data r else []) ++ [chunk] /\
      filter is_invoke (trace res) =
        (if is_recording r then []
         else dispatched OnStart (on_recording_start r) None) /\
      ~ In (Log WARNING NoAudioCaptured) (trace res)) \/
   (is_recording r = true /\ forced c = false /\
    voiced r [c] = [] /\
    is_recording (final res) = false /\
    audio_data (final res) = [] /\
    filter is_invoke (trace res) =
      match audio_data r with
      | [] => []
      | _ :: _ =>
          if (sample_rate r =? 0)%Z then []
          else dispatched OnStop (on_recording_stop r)
                 (Some (concat (audio_data r)))
      end /\
    (In (Log WARNING NoAudioCaptured) (trace res) <-> audio_data r = [])) \/
   (c = ForceStop /\ is_recording r = true /\
    is_recording (final res) = false /\
    audio_data (final res) = [] /\
    filter is_invoke (trace res) = [] /\
    ~ In (Log WARNING NoAudioCaptured) (trace res))).
Proof.
  cbv zeta. destruct c as [chunk status now| |];
    rewrite ?perform_stop_listening; cbn [perform voiced forced].
  - (* a chunk arrives *)
    destruct (_detect_voice_activity r chunk) eqn:Hv.
    + destruct (frame_voice chunk status now r Hv)
        as ((H1 & H2 & _ & _ & _ & Hs) & Hi & Hn).
      split; [exact Hs|]. right; left. exists chunk. auto.
    + destruct (frame_silence chunk status now r Hv) as (Hf & Hi & Hn).
      rewrite Hf, Hi, Hn. rewrite silence_spec.
      destruct (is_recording r) eqn:Hrec;
        [|split; [apply same_setup_refl|]; left; cbn; intuition].
      destruct (silence_start_time r) as [t0|];
        [|split; [unfold same_setup; cbn; intuition|];
          left; cbn; intuition].
      destruct (gt (minus now t0) (silence_timeout r));
        [|split; [apply same_setup_refl|]; left; cbn; intuition].
      destruct (stop_internal_spec r Hrec)
        as ((G1 & _ & G3 & _ & _ & Gs) & Gi & _ & Gn).
      cbn [final trace value fst snd filter is_invoke].
      split; [exact Gs|]. right; right; left.
      repeat split; auto.
      * intros [H|H]; [discriminate|]. now apply Gn.
      * intros H. right. now apply Gn.
  - (* force_stop_recording *)
    rewrite force_stop_spec. destruct (is_recording r) eqn:Hrec.
    + split; [unfold same_setup; cbn; intuition|].
      right; right; right. cbn. intuition discriminate.
    + split; [apply same_setup_refl|]. left; cbn; intuition.
  - (* stop_listening *)
    cbn [final trace fst snd]. rewrite stop_listening_spec.
    destruct (is_listening r);
      [|split; [apply same_setup_refl|]; left; cbn; intuition].
    destruct (is_recording r) eqn:Hrec.
    + destruct (stop_internal_spec r Hrec)
        as ((G1 & _ & G3 & _ & _ & Gs) & Gi & _ & Gn).
      destruct (_stop_recording_internal r) as [[e r1] tr].
      cbn [value final trace fst snd] in *.
      destruct e; cbn [ret final trace fst snd].
      * split.
        { destruct (stream r1); unfold same_setup in *; cbn; intuition. }
        right; right; left.
        assert (Hlog : forall x : list (Vad.event F),
                  x = [] \/ x = [Log ERROR ErrorClosingStream] ->
                  filter is_invoke
                    (Log INFO StoppingListening :: tr ++ x) =
                    filter is_invoke tr /\
                  (In (Log WARNING NoAudioCaptured)
                      (Log INFO StoppingListening :: tr ++ x) <->
                   In (Log WARNING NoAudioCaptured) tr)).
        { intros x Hx. cbn [filter is_invoke].
          rewrite filter_app. split.
          - destruct Hx as [->| ->]; cbn; now rewrite app_nil_r.
          - cbn [In]. rewrite in_app_iff.
            destruct Hx as [->| ->]; cbn; intuition discriminate. }
        destruct (stream r1) as [st|]; cbn [is_recording audio_data
          set_is_listening set_stream];
          [destruct (Hlog (if closes st then []
                           else [Log ERROR ErrorClosingStream]))
             as [L1 L2]; [destruct (closes st); auto|]
          |destruct (Hlog []) as [L1 L2]; [auto|]];
          rewrite L1, L2, Gi, Gn; repeat split; auto.
      * split; [exact Gs|]. right; right; left.
        cbn [filter is_invoke In].
        rewrite Gi. repeat split; auto.
        -- intros [H|H]; [discriminate|]. now apply Gn.
        -- intros H. right. now apply Gn.
    + split.
      { destruct (stream r); unfold same_setup; cbn; intuition. }
      left. destruct (stream r) as [st|]; [destruct (closes st)|]; cbn;
        intuition discriminate.
Qed.

(** *** Runs of the detector *)

Lemma listening_run_cons (c : call) (l : list call) (r : recorder) :
  final (run (c :: l) r) = final (run l (final (perform c r))) /\
  trace (run (c :: l) r) =
    trace (perform c r) ++ trace (run l (final (perform c r))).
Proof.
  cbn [run]. unfold bind, final, trace.
  destruct (perform c r) as [[u r1] t1]; cbn.
  now destruct (run l r1) as [[u2 r2] t2].
Qed.

Lemma voiced_setup (r r' : recorder) (l : list call) :
  same_setup r r' -> voiced r' l = voiced r l.
Proof.
  intros (_ & Ht & _). induction l as [|[chunk st now| |] l IH]; cbn; auto.
  unfold _detect_voice_activity. rewrite Ht, IH. reflexivity.
Qed.

Lemma voiced_cons (r : recorder) (c : call) (l : list call) :
  voiced r (c :: l) = voiced r [c] ++ voiced r l.
Proof.
  destruct c as [chunk st now| |]; cbn; auto.
  now destruct (_detect_voice_activity r chunk).
Qed.

Lemma run_same_setup (l : list call) (r : recorder) :
  same_setup r (final (run l r)).
Proof.
  revert r; induction l as [|c l IH]; intros r; [apply same_setup_refl|].
  rewrite (proj1 (listening_run_cons c l r)).
  destruct (perform_cases c r) as [Hs _].
  eapply same_setup_trans; [exact Hs | apply IH].
Qed.

Lemma perform_has_audio (c : call) (r : recorder) :
  has_audio r ->
  has_audio (final (perform c r)) /\
  ~ In (Log WARNING NoAudioCaptured) (trace (perform c r)).
Proof.
  intros Hr. unfold has_audio in *.
  destruct (perform_cases c r) as [_ H].
  destruct H as [(H1 & H2 & _ & _ & Hn)
               |[(chunk & _ & H1 & H2 & _ & Hn)
               |[(Hrec & _ & _ & H1 & _ & _ & Hn)
               |(_ & _ & H1 & _ & _ & Hn)]]].
  - split; [|exact Hn]. rewrite H1, H2. exact Hr.
  - split; [|exact Hn]. intros _. rewrite H2.
    destruct (if is_recording r then audio_data r else []); discriminate.
  - split; [congruence|]. intros Hin. apply Hn in Hin. now apply Hr.
  - split; [congruence|exact Hn].
Qed.

(** X11.  Let a recorder be given that, if it is recording, holds at least one
    chunk (as after construction, when it is not recording).  Whatever
    chunks the stream then delivers and however [force_stop_recording]
    and [stop_listening] are called in between, a recording under way
    always holds at least one chunk, and the warning "No audio data
    captured" is never written: every recording that is stopped has
    audio to hand over. *)
Theorem recording_always_has_audio (l : list call) (r : recorder) :
  has_audio r ->
  has_audio (final (run l r)) /\
  ~ In (Log WARNING NoAudioCaptured) (trace (run l r)).
Proof.
  revert r; induction l as [|c l IH]; intros r Hr.
  - split; [exact Hr|]. intros [].
  - destruct (listening_run_cons c l r) as [-> ->].
    destruct (perform_has_audio c r Hr) as [H1 Hn1].
    destruct (IH _ H1) as [H2 Hn2].
    split; [exact H2|]. rewrite in_app_iff. tauto.
Qed.

Lemma dispatched_counts h h' cb (arg : option (list F)) :
  length (filter (dispatches h') (dispatched h cb arg)) =
    match cb with
    | Some _ => match h, h' with
                | OnStart, OnStart | OnStop, OnStop => 1
                | _, _ => 0
                end
    | None => 0
    end.
Proof. destruct cb, h, h'; reflexivity. Qed.

(** X12.  With both callbacks set and a sample rate that is not zero, and as
    long as [force_stop_recording] is not called: over any run of chunks
    and [stop_listening] calls, the [on_recording_start] and the
    [on_recording_stop] dispatches pair up.  Counting a recording that
    was under way at the beginning as started and one that is under way
    at the end as not yet stopped, there are as many of the one as of
    the other. *)
Theorem start_and_stop_dispatches_pair_up (l : list call) (r : recorder)
    (c1 c2 : callback) :
  has_audio r ->
  on_recording_start r = Some c1 ->
  on_recording_stop r = Some c2 ->
  sample_rate r <> 0%Z ->
  unforced l ->
  length (filter (dispatches OnStart) (trace (run l r))) +
    b2n (is_recording r) =
  utterances_in (trace (run l r)) + b2n (is_recording (final (run l r))).
Proof.
  unfold utterances_in.
  revert r; induction l as [|c l IH]; intros r Hr Hc1 Hc2 Hrate Hl.
  - reflexivity.
  - destruct (listening_run_cons c l r) as [-> ->].
    assert (Hl' : unforced l) by (intros x Hx; apply Hl; now right).
    assert (Hc : forced c = false) by (apply Hl; now left).
    destruct (perform_has_audio c r Hr) as [Hr1 _].
    destruct (perform_cases c r) as [Hs H].
    destruct Hs as (Hsr & _ & _ & Hs1 & Hs2 & _).
    specialize (IH (final (perform c r)) Hr1).
    rewrite Hs1, Hs2, Hsr in IH. specialize (IH Hc1 Hc2 Hrate Hl').
    rewrite !filter_app, !length_app.
    rewrite <- (filter_dispatches_invoke OnStart (trace (perform c r))).
    rewrite <- (filter_dispatches_invoke OnStop (trace (perform c r))).
    destruct H as [(H1 & _ & Hi & _)
                 |[(chunk & _ & H1 & _ & Hi & _)
                 |[(Hrec & _ & _ & H1 & _ & Hi & _)
                 |(Hf & _)]]].
    + rewrite Hi, H1 in *. cbn in *. lia.
    + rewrite Hi, H1 in *. destruct (is_recording r); cbn in *.
      * lia.
      * rewrite Hc1. cbn in *. lia.
    + rewrite Hi, H1, Hrec in *.
      destruct (audio_data r) as [|f fs] eqn:Hd;
        [exfalso; now apply (Hr Hrec)|].
      destruct (Z.eqb_spec (sample_rate r) 0) as [Hz|_]; [contradiction|].
      rewrite Hc2. cbn in *. lia.
    + subst c. discriminate.
Qed.

Lemma perform_conserves (c : call) (r : recorder) (c2 : callback) :
  tidy r ->
  on_recording_stop r = Some c2 ->
  sample_rate r <> 0%Z ->
  forced c = false ->
  tidy (final (perform c r)) /\
  concat (handed_over (trace (perform c r))) ++
    concat (audio_data (final (perform c r))) =
  concat (audio_data r) ++ concat (voiced r [c]).
Proof.
  intros [Hr Hidle] Hc2 Hrate Hc. unfold tidy, has_audio in *.
  rewrite <- (handed_over_invoke (trace (perform c r))).
  destruct (perform_cases c r) as [_ H].
  destruct H as [(H1 & H2 & Hi & Hv & _)
               |[(chunk & Hv & H1 & H2 & Hi & _)
               |[(Hrec & _ & Hv & H1 & H2 & Hi & _)
               |(Hf & _)]]].
  - rewrite Hi, H1, H2, Hv. cbn. rewrite app_nil_r. auto.
  - rewrite Hi, H1, H2, Hv. split.
    + split; [|discriminate]. intros _.
      destruct (if is_recording r then audio_data r else []); discriminate.
    + destruct (is_recording r) eqn:Hrec.
      * cbn. now rewrite concat_app.
      * rewrite (Hidle eq_refl).
        destruct (on_recording_start r); reflexivity.
  - rewrite Hi, H1, H2, Hv. split; [split; [discriminate|auto]|].
    destruct (audio_data r) as [|f fs] eqn:Hd;
      [exfalso; now apply (Hr Hrec)|].
    destruct (Z.eqb_spec (sample_rate r) 0) as [Hz|_]; [contradiction|].
    rewrite Hc2. cbn. now rewrite !app_nil_r.
  - subst c. discriminate.
Qed.

Lemma run_conserves (l : list call) (r : recorder) (c2 : callback) :
  tidy r ->
  on_recording_stop r = Some c2 ->
  sample_rate r <> 0%Z ->
  unforced l ->
  concat (handed_over (trace (run l r))) ++
    concat (audio_data (final (run l r))) =
  concat (audio_data r) ++ concat (voiced r l).
Proof.
  revert r; induction l as [|c l IH]; intros r Hr Hc2 Hrate Hl.
  - cbn. now rewrite app_nil_r.
  - destruct (listening_run_cons c l r) as [-> ->].
    assert (Hl' : unforced l) by (intros x Hx; apply Hl; now right).
    assert (Hc : forced c = false) by (apply Hl; now left).
    destruct (perform_conserves c r c2 Hr Hc2 Hrate Hc) as [Hr1 H1].
    destruct (perform_cases c r) as [Hs _].
    pose proof (voiced_setup r _ l Hs) as Hv.
    destruct Hs as (Hsr & _ & _ & _ & Hs2 & _).
    specialize (IH (final (perform c r)) Hr1).
    rewrite Hs2, Hsr, Hv in IH. specialize (IH Hc2 Hrate Hl').
    rewrite handed_over_app, concat_app, <- app_assoc, IH.
    rewrite app_assoc, H1, <- app_assoc, <- concat_app, <- voiced_cons.
    reflexivity.
Qed.

(** X13.  Start from a recorder that is not recording and holds no audio, with
    [on_recording_stop] set and a sample rate that is not zero, and let
    the stream deliver any chunks, with [stop_listening] called at any
    point but [force_stop_recording] never.  Then the audio handed to
    [on_recording_stop], utterance after utterance, followed by what the
    recorder still holds, is exactly the chunks in which voice was
    detected, in order of arrival: no voiced chunk is lost or repeated,
    and no silent chunk is ever stored or handed over. *)
Theorem voiced_audio_is_conserved (l : list call) (r : recorder)
    (c2 : callback) :
  is_recording r = false ->
  audio_data r = [] ->
  on_recording_stop r = Some c2 ->
  sample_rate r <> 0%Z ->
  unforced l ->
  concat (handed_over (trace (run l r))) ++
    concat (audio_data (final (run l r))) =
  concat (voiced r l).
Proof.
  intros Hidle Hd Hc2 Hrate Hl.
  assert (Hr : tidy r) by (split; [intros H; congruence|auto]).
  rewrite (run_conserves l r c2 Hr Hc2 Hrate Hl). now rewrite Hd.
Qed.

(** X14.  [force_stop_recording] on a recording under way returns the recorder
    to idle with an empty deque and dispatches nothing; and whatever
    chunks and [stop_listening] calls follow, what [on_recording_stop]
    receives afterwards is made of chunks that arrived after the force
    stop only: the audio that was discarded never reaches a callback. *)
Theorem forced_audio_is_never_delivered (l : list call) (r : recorder)
    (c2 : callback) :
  is_recording r = true ->
  on_recording_stop r = Some c2 ->
  sample_rate r <> 0%Z ->
  unforced l ->
  let r1 := final (force_stop_recording r) in
  is_recording r1 = false /\
  audio_data r1 = [] /\
  silence_start_time r1 = None /\
  existsb is_invoke (trace (force_stop_recording r)) = false /\
  concat (handed_over (trace (run l r1))) ++
    concat (audio_data (final (run l r1))) =
  concat (voiced r l).
Proof.
  intros Hrec Hc2 Hrate Hl. cbv zeta.
  rewrite force_stop_spec, Hrec. cbn [final trace fst snd].
  set (r1 := set_silence_start_time None _).
  split; [reflexivity|]. split; [reflexivity|]. split; [reflexivity|].
  split; [reflexivity|].
  assert (Hr : tidy r1) by (split; [intros H; discriminate|auto]).
  assert (Hs : same_setup r r1) by (unfold same_setup; cbn; intuition).
  rewrite (run_conserves l r1 c2 Hr Hc2 Hrate Hl).
  now rewrite (voiced_setup r r1 l Hs).
Qed.

(** *** The silence timer *)

(** X15.  A recording is never stopped by the first silent chunk after a
    voiced one, however short the timeout (zero or negative included):
    that chunk only starts the silence timer, at its own arrival time.
    The recording is stopped by the next silent chunk exactly when that
    one arrives more than [silence_timeout] after the timer started. *)
Theorem silence_timer_needs_two_silent_chunks (r : recorder)
    (c1 c2 c3 : list F) (s1 s2 s3 : bool) (t1 t2 t3 : F) :
  _detect_voice_activity r c1 = true ->
  _detect_voice_activity r c2 = false ->
  _detect_voice_activity r c3 = false ->
  let two := run [Frame c1 s1 t1; Frame c2 s2 t2] r in
  is_recording (final two) = true /\
  silence_start_time (final two) = Some t2 /\
  utterances_in (trace two) = 0 /\
  is_recording (final (perform (Frame c3 s3 t3) (final two))) =
    negb (gt (minus t3 t2) (silence_timeout r)).
Proof.
  intros Hv1 Hv2 Hv3. cbv zeta.
  destruct (listening_run_cons (Frame c1 s1 t1) [Frame c2 s2 t2] r)
    as [-> ->].
  cbn [perform].
  destruct (frame_voice c1 s1 t1 r Hv1)
    as ((A1 & _ & A3 & _ & _ & As) & Ai & _).
  set (r1 := final (_audio_callback c1 s1 t1 r)) in *.
  assert (Hv2' : _detect_voice_activity r1 c2 = false).
  { unfold _detect_voice_activity in *.
    destruct As as (_ & -> & _). exact Hv2. }
  destruct (listening_run_cons (Frame c2 s2 t2) [] r1) as [-> ->].
  cbn [perform run ret final trace fst snd].
  destruct (frame_silence c2 s2 t2 r1 Hv2') as (Bf & Bi & _).
  rewrite silence_spec, A1, A3 in Bf, Bi. cbn [final trace fst snd] in Bf, Bi.
  set (r2 := final (_audio_callback c2 s2 t2 r1)) in *.
  assert (Hv3' : _detect_voice_activity r2 c3 = false).
  { unfold _detect_voice_activity in *. rewrite Bf. cbn.
    destruct As as (_ & -> & _). exact Hv3. }
  destruct (frame_silence c3 s3 t3 r2 Hv3') as (Cf & _).
  rewrite Cf, silence_spec, Bf. cbn.
  rewrite A1. destruct As as (_ & _ & -> & _).
  split; [reflexivity|]. split; [reflexivity|]. split.
  - unfold utterances_in. rewrite app_nil_r, filter_app, length_app.
    rewrite <- (filter_dispatches_invoke OnStop
                  (trace (_audio_callback c1 s1 t1 r))), Ai.
    rewrite <- (filter_dispatches_invoke OnStop
                  (trace (_audio_callback c2 s2 t2 r1))), Bi.
    destruct (is_recording r); cbn; [reflexivity|].
    now destruct (on_recording_start r).
  - destruct (gt (minus t3 t2) (silence_timeout r)); [|exact A1].
    assert (Hrec1 : is_recording (set_silence_start_time (Some t2) r1) = true)
      by exact A1.
    now destruct (stop_internal_spec _ Hrec1) as ((G1 & _) & _).
Qed.

(** *** [stop_listening] *)

(** X16.  [stop_listening] on a recorder that is listening, at a sample rate
    that is not zero: it returns; the recorder is afterwards neither
    listening nor recording and holds no stream and no audio that was
    recorded; and a recording that was under way is handed to
    [on_recording_stop] in full, as one utterance.  A second
    [stop_listening] does nothing at all. *)
Theorem stop_listening_flushes_and_closes (r : recorder) :
  is_listening r = true ->
  has_audio r ->
  sample_rate r <> 0%Z ->
  let res := stop_listening r in
  value res = Done /\
  is_listening (final res) = false /\
  stream (final res) = None /\
  is_recording (final res) = false /\
  (is_recording r = true -> audio_data (final res) = []) /\
  handed_over (trace res) =
    (if is_recording r
     then match on_recording_stop r with
          | Some _ => [concat (audio_data r)]
          | None => []
          end
     else []) /\
  stop_listening (final res) = (Done, final res, []).
Proof.
  intros Hl Hr Hrate. cbv zeta.
  assert (Hagain : forall u : recorder,
            is_listening u = false -> stop_listening u = (Done, u, [])).
  { intros u Hu. rewrite stop_listening_spec. now rewrite Hu. }
  rewrite stop_listening_spec, Hl.
  destruct (is_recording r) eqn:Hrec.
  - destruct (stop_internal_spec r Hrec)
      as ((G1 & _ & G3 & _ & _ & _) & Gi & Gv & _).
    assert (Hd : audio_data r <> []) by now apply Hr.
    assert (Hdone : value (_stop_recording_internal r) = Done).
    { destruct (value (_stop_recording_internal r)); [reflexivity|].
      exfalso. apply Hrate. now apply Gv. }
    rewrite Hdone. cbn [value final trace fst snd].
    assert (Hh : handed_over (trace (_stop_recording_internal r)) =
                 match on_recording_stop r with
                 | Some _ => [concat (audio_data r)]
                 | None => []
                 end).
    { rewrite <- handed_over_invoke, Gi.
      destruct (audio_data r) as [|f fs]; [congruence|].
      destruct (Z.eqb_spec (sample_rate r) 0); [contradiction|].
      now destruct (on_recording_stop r). }
    destruct (stream (final (_stop_recording_internal r))) as [st|] eqn:Hst;
      cbn [is_listening stream is_recording audio_data set_is_listening
           set_stream handed_over];
      rewrite handed_over_app, Hh;
      repeat split; auto; try (now apply Hagain);
      [destruct (closes st)|]; cbn; now rewrite app_nil_r.
  - cbn [value final trace fst snd].
    destruct (stream r) as [st|] eqn:Hst;
      cbn [is_listening stream is_recording audio_data set_is_listening
           set_stream handed_over];
      repeat split; auto; try discriminate; try (now apply Hagain);
      destruct (closes st); reflexivity.
Qed.

(** *** [start_listening] *)

Lemma lift_spec {A : Type} (m : Eff recorder (Vad.event F) A) (r : recorder) :
  lift m r = (value (m r), final (m r), map (relabel Detector) (trace (m r))).
Proof. unfold lift. now destruct (m r) as [[a r1] tr]. Qed.

Lemma cleanup_spec (terminates : bool) (u : recorder) :
  cleanup terminates u =
    let r1 := final (stop_listening u) in
    let tr1 := map (relabel Detector) (trace (stop_listening u)) in
    match value (stop_listening u) with
    | Raised => (Raised, r1, tr1)
    | Done =>
        (Done,
         match pyaudio r1 with
         | Some _ => set_pyaudio None r1
         | None => r1
         end,
         tr1 ++
         match pyaudio r1 with
         | Some _ => if terminates then []
                     else [Log ERROR ErrorTerminatingPyAudio]
         | None => []
         end ++ [Log INFO CleanedUp])
    end.
Proof.
  unfold cleanup. unfold bind at 1. rewrite lift_spec.
  unfold bind, gets, modify, ret, emit, when, value, final, trace.
  destruct (stop_listening u) as [[e r1] tr]; cbn.
  destruct e; cbn; [|now rewrite app_nil_r].
  destruct (pyaudio r1); cbn; [destruct terminates; cbn|]; reflexivity.
Qed.

Lemma cleanup_idle (terminates : bool) (u : recorder) :
  is_recording u = false ->
  (is_listening u = false -> stream u = None) ->
  value (cleanup terminates u) = Done /\
  is_listening (final (cleanup terminates u)) = false /\
  is_recording (final (cleanup terminates u)) = false /\
  stream (final (cleanup terminates u)) = None /\
  pyaudio (final (cleanup terminates u)) = None.
Proof.
  intros Hrec Hstream. rewrite cleanup_spec, stop_listening_spec, Hrec.
  cbv zeta.
  destruct (is_listening u) eqn:Hl; cbn [value final fst snd].
  - destruct (stream u) as [st|] eqn:Hst; cbn;
      destruct (pyaudio u) eqn:Hpa; cbn; repeat split; auto.
  - specialize (Hstream eq_refl).
    destruct (pyaudio u) eqn:Hpa; cbn; repeat split; auto.
Qed.

#[local] Arguments cleanup : simpl never.

Lemma start_listening_spec (r : recorder)
    (threshold timeout max_duration : F) (opening : option Stream)
    (starts terminates : bool) :
  is_listening r = false ->
  start_listening threshold timeout max_duration opening starts terminates r =
    let r1 := set_silence_timeout timeout (set_vad_threshold threshold r) in
    match pyaudio r, opening with
    | Some _, Some s =>
        let r2 := set_is_listening true (set_stream (Some s) r1) in
        if starts then (Done, r2, [Log INFO StartedListening])
        else (Raised, final (cleanup terminates r2),
              Log ERROR FailedToStartListening :: trace (cleanup terminates r2))
    | _, _ =>
        (Raised, final (cleanup terminates r1),
         Log ERROR FailedToStartListening :: trace (cleanup terminates r1))
    end.
Proof.
  intros Hl. unfold start_listening.
  unfold bind at 1. unfold gets at 1. rewrite Hl.
  unfold bind, gets, modify, ret, emit, when, value, final, trace. cbn.
  destruct (pyaudio r) as [pa|]; cbn.
  - destruct opening as [s|]; cbn.
    + destruct starts; cbn; [reflexivity|].
      destruct (cleanup terminates _) as [[e u] tr]; cbn.
      now rewrite app_nil_r.
    + destruct (cleanup terminates _) as [[e u] tr]; cbn.
      now rewrite app_nil_r.
  - destruct (cleanup terminates _) as [[e u] tr]; cbn.
    now rewrite app_nil_r.
Qed.

(** X17.  [start_listening] on a recorder that is neither listening nor
    recording.  It returns exactly when the recorder holds a PyAudio
    object, the stream opens and the stream starts; the recorder is then
    listening on that stream with the threshold and timeout given.  In
    every other case it raises, and it has then given up everything: the
    recorder is not listening, holds no stream and no PyAudio object any
    more, so that every later [start_listening], with whatever
    arguments and on whatever host, raises as well. *)
Theorem failed_start_listening_is_final (r : recorder)
    (threshold timeout max_duration : F) (opening : option Stream)
    (starts terminates : bool) :
  is_listening r = false ->
  is_recording r = false ->
  stream r = None ->
  let res := start_listening threshold timeout max_duration opening starts
               terminates r in
  (value res = Done <->
   pyaudio r <> None /\ opening <> None /\ starts = true) /\
  (value res = Done ->
   is_listening (final res) = true /\
   stream (final res) = opening /\
   vad_threshold (final res) = threshold /\
   silence_timeout (final res) = timeout /\
   pyaudio (final res) = pyaudio r) /\
  (value res = Raised ->
   is_listening (final res) = false /\
   stream (final res) = None /\
   pyaudio (final res) = None /\
   forall threshold' timeout' max_duration' opening' starts' terminates',
     value (start_listening threshold' timeout' max_duration' opening'
              starts' terminates' (final res)) = Raised).
Proof.
  intros Hl Hrec Hstream. cbv zeta.
  assert (Hdead : forall u : recorder,
            is_listening u = false -> pyaudio u = None ->
            forall th to md op st te,
              value (start_listening th to md op st te u) = Raised).
  { intros u Hu Hpu th to md op st te.
    rewrite (start_listening_spec u th to md op st te Hu), Hpu.
    reflexivity. }
  rewrite (start_listening_spec r threshold timeout max_duration opening
             starts terminates Hl). cbv zeta.
  assert (Hfail : forall u : recorder,
            is_recording u = false ->
            (is_listening u = false -> stream u = None) ->
            is_listening (final (cleanup terminates u)) = false /\
            stream (final (cleanup terminates u)) = None /\
            pyaudio (final (cleanup terminates u)) = None /\
            forall th to md op st te,
              value (start_listening th to md op st te
                       (final (cleanup terminates u))) = Raised).
  { intros u Hu Hsu.
    destruct (cleanup_idle terminates u Hu Hsu) as (_ & H1 & _ & H3 & H4).
    split; [exact H1|]. split; [exact H3|]. split; [exact H4|].
    intros. now apply Hdead. }
  destruct (pyaudio r) as [pa|] eqn:Hpa.
  - destruct opening as [s|].
    + destruct starts; cbn [value final fst snd].
      * split; [split; [intros _; repeat split; congruence|reflexivity]|].
        split; [intros _; repeat split; auto|discriminate].
      * split; [split; [discriminate|intros (_ & _ & H); discriminate]|].
        split; [discriminate|]. intros _.
        apply Hfail; [exact Hrec|discriminate].
    + cbn [value final fst snd].
      split; [split; [discriminate|intros (_ & H & _); congruence]|].
      split; [discriminate|]. intros _.
      apply Hfail; [exact Hrec|intros _; exact Hstream].
  - cbn [value final fst snd].
    split; [split; [discriminate|intros (H & _); congruence]|].
    split; [discriminate|]. intros _.
    apply Hfail; [exact Hrec|intros _; exact Hstream].
Qed.

End Facts.

(** *** The set-ups, run *)

Import Scenarios.
Import Setups.

Lemma listener_has_audio : has_audio (listener None).
Proof. intros H. discriminate H. Qed.

Lemma voice_then_silence_unforced : unforced voice_then_silence.
Proof.
  intros c Hc. cbn in Hc. destruct Hc as [<-|[<-|[<-|[]]]]; reflexivity.
Qed.

Lemma listener_rate : sample_rate (listener None) <> 0%Z.
Proof. cbn. discriminate. Qed.

Lemma recording_always_has_audio_witness :
  has_audio (final (run voice_then_silence (listener None))) /\
  ~ In (Log WARNING NoAudioCaptured)
       (trace (run voice_then_silence (listener None))).
Proof.
  exact (recording_always_has_audio voice_then_silence (listener None)
           listener_has_audio).
Defined.

Lemma start_and_stop_dispatches_pair_up_witness :
  length (filter (dispatches OnStart)
            (trace (run voice_then_silence (listener None)))) +
    b2n (is_recording (listener None)) =
  utterances_in (trace (run voice_then_silence (listener None))) +
    b2n (is_recording (final (run voice_then_silence (listener None)))).
Proof.
  exact (start_and_stop_dispatches_pair_up voice_then_silence (listener None)
           (Callback 1 Returns) (Callback 2 Returns)
           listener_has_audio eq_refl eq_refl listener_rate
           voice_then_silence_unforced).
Defined.

Lemma voiced_audio_is_conserved_witness :
  concat (handed_over (trace (run voice_then_silence (listener None)))) ++
    concat (audio_data (final (run voice_then_silence (listener None)))) =
  concat (voiced (listener None) voice_then_silence).
Proof.
  exact (voiced_audio_is_conserved voice_then_silence (listener None)
           (Callback 2 Returns) eq_refl eq_refl eq_refl listener_rate
           voice_then_silence_unforced).
Defined.

Lemma hearing_rate : sample_rate hearing <> 0%Z.
Proof. vm_compute. discriminate. Qed.

Lemma forced_audio_is_never_delivered_witness :
  let r1 := final (force_stop_recording hearing) in
  is_recording hearing = true /\
  audio_data hearing = [loud] /\
  is_recording r1 = false /\
  audio_data r1 = [] /\
  concat (handed_over (trace (run voice_then_silence r1))) ++
    concat (audio_data (final (run voice_then_silence r1))) =
  concat (voiced hearing voice_then_silence).
Proof.
  cbv zeta.
  assert (Hrec : is_recording hearing = true) by (vm_compute; reflexivity).
  assert (Hcb : on_recording_stop hearing = Some (Callback 2 Returns))
    by (vm_compute; reflexivity).
  pose proof (forced_audio_is_never_delivered voice_then_silence hearing
                (Callback 2 Returns) Hrec Hcb hearing_rate
                voice_then_silence_unforced) as (H1 & H2 & _ & _ & H5).
  split; [exact Hrec|]. split; [vm_compute; reflexivity|].
  split; [exact H1|]. split; [exact H2|]. exact H5.
Defined.

Lemma silence_timer_needs_two_silent_chunks_witness :
  let two := run [Frame loud false 9.0%float; Frame quiet false 10.0%float]
               (listener None) in
  is_recording (final two) = true /\
  silence_start_time (final two) = Some 10.0%float /\
  utterances_in (trace two) = 0 /\
  is_recording
    (final (perform (Frame quiet false 12.5%float) (final two))) =
    negb (gt (minus 12.5%float 10.0%float) (silence_timeout (listener None))).
Proof.
  assert (H1 : _detect_voice_activity (listener None) loud = true)
    by (vm_compute; reflexivity).
  assert (H2 : _detect_voice_activity (listener None) quiet = false)
    by (vm_compute; reflexivity).
  exact (silence_timer_needs_two_silent_chunks (listener None)
           loud quiet quiet false false false
           9.0%float 10.0%float 12.5%float H1 H2 H2).
Defined.

Lemma hearing_has_audio : has_audio hearing.
Proof. intros _. vm_compute. discriminate. Qed.

Lemma stop_listening_flushes_and_closes_witness :
  let res := stop_listening hearing in
  is_listening hearing = true /\
  value res = Done /\
  is_listening (final res) = false /\
  stream (final res) = None /\
  is_recording (final res) = false /\
  handed_over (trace res) = [loud ++ []].
Proof.
  cbv zeta.
  assert (Hl : is_listening hearing = true) by (vm_compute; reflexivity).
  pose proof (stop_listening_flushes_and_closes hearing Hl hearing_has_audio
                hearing_rate) as (H1 & H2 & H3 & H4 & _ & H6 & _).
  split; [exact Hl|]. split; [exact H1|]. split; [exact H2|].
  split; [exact H3|]. split; [exact H4|].
  rewrite H6. vm_compute. reflexivity.
Defined.

Lemma failed_start_listening_is_final_witness :
  let res := start_listening 0.01%float 2.0%float 30.0%float
               (Some {| closes := true |}) true true (listener None) in
  value res = Raised /\
  is_listening (final res) = false /\
  stream (final res) = None /\
  pyaudio (final res) = None /\
  value (start_listening 0.01%float 2.0%float 30.0%float
           (Some {| closes := true |}) true true (final res)) = Raised.
Proof.
  cbv zeta.
  pose proof (failed_start_listening_is_final (listener None)
                0.01%float 2.0%float 30.0%float (Some {| closes := true |})
                true true eq_refl eq_refl eq_refl) as (_ & _ & H).
  assert (Hr : value (start_listening 0.01%float 2.0%float 30.0%float
                        (Some {| closes := true |}) true true
                        (listener None)) = Raised)
    by (vm_compute; reflexivity).
  destruct (H Hr) as (H1 & H2 & H3 & H4).
  split; [exact Hr|]. split; [exact H1|]. split; [exact H2|].
  split; [exact H3|]. apply H4.
Defined.

(** [voice_then_silence] on [listener]: the two loud samples are handed
    over at the second silent chunk, and nothing is left. *)
Example voice_then_silence_run :
  handed_over (trace (run voice_then_silence (listener None))) = [loud] /\
  audio_data (final (run voice_then_silence (listener None))) = [] /\
  voiced (listener None) voice_then_silence = [loud].
Proof. vm_compute. repeat split; reflexivity. Qed.

End ListeningFacts.
(** ** Facts about the hold-to-record front end *)

Module VoiceFacts.
Import Voice.

Section Facts.

Context {sample : Type}.

Abbreviation VoiceRecorder := (Voice.VoiceRecorder sample).
Abbreviation event := (Voice.event sample).
Abbreviation input := (Voice.input sample).
Abbreviation world := (Manual.world sample).

Ltac unmonad :=
  unfold bind, ret, emit, gets, modify, when, value, final, trace in *;
  cbn in *.

Lemma processed_app (a b : list event) :
  processed (a ++ b) = processed a ++ processed b.
Proof.
  induction a as [|x a IHa]; cbn; auto.
  destruct x; cbn; rewrite ?IHa; auto.
Qed.

Lemma sessions_app (a b : list event) :
  sessions (a ++ b) = sessions a + sessions b.
Proof.
  induction a as [|x a IHa]; cbn; auto.
  destruct x as [[]| | |]; cbn; rewrite ?IHa; auto.
Qed.

(** What running the callbacks of a trace does. *)
Lemma reacts_spec (tr : list (Manual.event sample)) (v : VoiceRecorder) :
  is_recording (final (reacts tr v)) = after tr (is_recording v) /\
  debug_mode (final (reacts tr v)) = debug_mode v /\
  hotkey_pressed (final (reacts tr v)) = hotkey_pressed v /\
  target_key (final (reacts tr v)) = target_key v /\
  audio_recorder (final (reacts tr v)) = audio_recorder v /\
  processed (trace (reacts tr v)) = passed_on tr /\
  sessions (trace (reacts tr v)) = starts_in tr.
Proof.
  revert v; induction tr as [|e tr IH]; intros v.
  - cbn. repeat split; reflexivity.
  - cbn [reacts]. unfold bind, final, trace.
    destruct (react e v) as [[u v1] t1] eqn:He.
    specialize (IH v1). unfold final, trace in IH.
    destruct (reacts tr v1) as [[u2 v2] t2]. cbn [fst snd] in *.
    destruct IH as (I1 & I2 & I3 & I4 & I5 & I6 & I7).
    rewrite processed_app, sessions_app, I1, I2, I3, I4, I5, I6, I7.
    unfold react, _on_recording_start, _on_recording_stop, announce in He.
    unfold starts_in.
    destruct e as [l m|t|t b|how h cb arg]; unmonad.
    + inversion He; subst. cbn. repeat split; reflexivity.
    + inversion He; subst. cbn. repeat split; reflexivity.
    + inversion He; subst. cbn. repeat split; reflexivity.
    + destruct how, h; try destruct arg as [a|];
        try destruct (debug_mode v) eqn:Hd;
        inversion He; subst; cbn; repeat split; auto.
Qed.

Lemma on_recorder_spec {A : Type} (m : Manual.M sample A) (w : world)
    (v : VoiceRecorder) :
  let res := m w in
  let out := on_recorder m w v in
  value out = value res /\
  audio_recorder (final out) = Some (final res) /\
  is_recording (final out) = after (trace res) (is_recording v) /\
  debug_mode (final out) = debug_mode v /\
  hotkey_pressed (final out) = hotkey_pressed v /\
  target_key (final out) = target_key v /\
  processed (trace out) = passed_on (trace res) /\
  sessions (trace out) = starts_in (trace res).
Proof.
  cbv zeta. unfold on_recorder.
  destruct (m w) as [[a w1] tr]. cbn [value final trace fst snd].
  pose proof (reacts_spec tr (set_audio_recorder (Some w1) v)) as H.
  destruct (reacts tr (set_audio_recorder (Some w1) v)) as [[u v1] tr1].
  cbn in *. intuition.
Qed.

#[local] Arguments on_recorder : simpl never.

Lemma after_invoke (tr : list (Manual.event sample)) (b : bool) :
  after (filter is_invoke tr) b = after tr b.
Proof.
  revert b; induction tr as [|e tr IH]; intros b; cbn; auto.
  destruct e as [| | |[] [] cb [a|]]; cbn; auto.
Qed.

Lemma passed_on_invoke (tr : list (Manual.event sample)) :
  passed_on (filter is_invoke tr) = passed_on tr.
Proof.
  induction tr as [|e tr IH]; cbn; auto.
  destruct e as [| | |[] [] cb [a|]]; cbn; rewrite ?IH; auto.
Qed.


Lemma manual_stop (w : world) (b : bool) :
  let res := Manual.stop_recording w in
  Manual.is_recording (Manual.self (final res)) = false /\
  Manual.on_recording_start (Manual.self (final res)) =
    Manual.on_recording_start (Manual.self w) /\
  Manual.on_recording_stop (Manual.self (final res)) =
    Manual.on_recording_stop (Manual.self w) /\
  starts_in (trace res) = 0 /\
  (Manual.is_recording (Manual.self w) = false ->
   after (trace res) b = b /\ passed_on (trace res) = [] /\
   final res = w) /\
  (Manual.is_recording (Manual.self w) = true ->
   final res = Manual.joined w /\
   forall c2,
     Manual.on_recording_stop (Manual.self w) = Some c2 ->
     Manual.sample_rate (Manual.self w) <> 0%Z ->
     match Manual.audio_buffer (Manual.self (Manual.joined w)) with
     | [] => after (trace res) b = b /\ passed_on (trace res) = []
     | _ :: _ =>
         after (trace res) b = false /\
         passed_on (trace res) =
           [concat (Manual.audio_buffer (Manual.self (Manual.joined w)))]
     end).
Proof.
  cbv zeta. destruct (Manual.is_recording (Manual.self w)) eqn:Hrec.
  - pose proof (ManualFacts.stop_recording_final _ Hrec) as Hfin.
    destruct (ManualFacts.join_recording_thread_spec (Manual.stopping w))
      as (Hc & Hinv & _).
    destruct (SessionFacts.join_trace_quiet (Manual.stopping w)) as [Hs _].
    fold (Manual.joined w) in Hc.
    destruct Hc as (Hi & _ & _ & Hsr & _ & Hon & Hoff & _).
    cbn in Hi, Hon, Hoff, Hsr.
    rewrite Hfin. split; [exact Hi|]. split; [exact Hon|].
    split; [exact Hoff|]. split.
    { pose proof (SessionFacts.perform_counts (@Manual.Stop sample) w)
        as [_ H2].
      destruct (ManualFacts.stop_recording_final _ Hrec).
      cbn [Manual.perform] in H2.
      unfold bind, ret, final, trace in H2.
      destruct (Manual.stop_recording w) as [[u w1] tr]. cbn in *.
      rewrite app_nil_r in H2. unfold starts_in in *.
      rewrite Hrec in H2. cbn in H2.
      destruct (Manual.is_recording (Manual.self w1)); cbn in H2; lia. }
    split; [discriminate|]. intros _. split; [reflexivity|].
    intros c2 Hc2 Hrate.
    rewrite <- after_invoke, <- passed_on_invoke.
    rewrite (ManualFacts.stop_recording_unfold _ Hrec). cbv zeta.
    destruct (Manual.audio_buffer (Manual.self (Manual.joined w)))
      as [|f fs] eqn:Hbuf.
    + cbn [trace snd]. rewrite !filter_app.
      rewrite (filter_none _ _ Hinv). unfold Manual.note.
      destruct (Manual.debug_mode (Manual.self w)); cbn; auto.
    + rewrite Hsr, Hoff, Hc2. unfold py_truediv.
      destruct (Z.eqb_spec (Manual.sample_rate (Manual.self w)) 0)
        as [Hz|_]; [contradiction|].
      cbn [trace snd]. rewrite !filter_app.
      rewrite (filter_none _ _ Hinv). unfold Manual.note, Manual.called.
      destruct (Manual.debug_mode (Manual.self w)), (cb_does c2); cbn; auto.
  - rewrite (ManualFacts.stop_recording_idle _ Hrec).
    cbn [final trace fst snd]. split; [exact Hrec|].
    split; [reflexivity|]. split; [reflexivity|]. split; [reflexivity|].
    split; [intros _; repeat split; reflexivity|discriminate].
Qed.

Lemma manual_capture (a : Manual.action sample) (w : world) (b : bool) :
  (exists t, a = Manual.Tick t) \/ (exists x, a = Manual.Hear x) ->
  let res := Manual.perform a w in
  after (trace res) b = b /\
  passed_on (trace res) = [] /\
  starts_in (trace res) = 0 /\
  Manual.same_control w (final res).
Proof.
  intros [[t ->]|[x ->]]; cbv zeta; cbn [Manual.perform].
  - destruct (Manual._recording_worker t w) as [[w1 tr]|] eqn:Hstep;
      cbn [final trace fst snd];
      [|repeat split; auto].
    destruct (ManualFacts.worker_step_control _ _ _ _ Hstep) as [Hc Hl].
    rewrite <- after_invoke, <- passed_on_invoke. unfold starts_in.
    rewrite (filter_none _ _ (ManualFacts.logs_do_not_invoke _ Hl)).
    rewrite (logs_filter is_thread_start tr) by auto.
    repeat split; auto; apply Hc.
  - cbn. repeat split; auto.
Qed.

(** [_start_recording] and [_stop_recording], by what they leave. *)
Lemma start_recording_eq (v : VoiceRecorder) (w : world) :
  audio_recorder v = Some w ->
  _start_recording v =
    if is_recording v then (tt, v, [])
    else
      let out := on_recorder Manual.start_recording w v in
      (tt, final out,
       trace out ++
       if value out then [] else [Logged ERROR FailedToStartRecording]).
Proof.
  intros Har. unfold _start_recording.
  unfold bind, gets, when, emit, ret, value, final, trace.
  rewrite Har. destruct (is_recording v); [reflexivity|].
  destruct (on_recorder Manual.start_recording w v) as [[ok v1] tr].
  now destruct ok.
Qed.

Lemma stop_recording_eq (v : VoiceRecorder) (w : world) :
  audio_recorder v = Some w ->
  _stop_recording v =
    if is_recording v then
      let out := on_recorder Manual.stop_recording w v in
      (tt, final out,
       trace out ++
       if value out then [] else [Logged ERROR FailedToStopRecording])
    else (tt, v, []).
Proof.
  intros Har. unfold _stop_recording.
  unfold bind, gets, when, emit, ret, value, final, trace.
  rewrite Har. destruct (is_recording v); [|reflexivity]. cbn [negb].
  destruct (on_recorder Manual.stop_recording w v) as [[ok v1] tr].
  now destruct ok.
Qed.


Lemma stop_recording_spec (v : VoiceRecorder) (w : world) :
  audio_recorder v = Some w ->
  is_recording v = true ->
  let res := Manual.stop_recording w in
  let out := _stop_recording v in
  audio_recorder (final out) = Some (final res) /\
  is_recording (final out) = after (trace res) true /\
  debug_mode (final out) = debug_mode v /\
  hotkey_pressed (final out) = hotkey_pressed v /\
  target_key (final out) = target_key v /\
  processed (trace out) = passed_on (trace res) /\
  sessions (trace out) = starts_in (trace res).
Proof.
  intros Har Hrec. cbv zeta. rewrite (stop_recording_eq v w Har), Hrec.
  cbv zeta. cbn [final trace fst snd].
  pose proof (on_recorder_spec Manual.stop_recording w v) as H.
  cbv zeta in H. rewrite Hrec in H.
  destruct H as (_ & H2 & H3 & H4 & H5 & H6 & H7 & H8).
  rewrite processed_app, sessions_app.
  destruct (value (on_recorder Manual.stop_recording w v)); cbn;
    rewrite ?app_nil_r, ?Nat.add_0_r; repeat split; auto.
Qed.

#[local] Arguments _start_recording : simpl never.
#[local] Arguments _stop_recording : simpl never.

Lemma on_press_eq (k : key) (v : VoiceRecorder) :
  on_press k v =
    if String.eqb k (target_key v) && negb (hotkey_pressed v)
    then (tt, final (_start_recording (set_hotkey_pressed true v)),
          trace (_start_recording (set_hotkey_pressed true v)))
    else (tt, v, []).
Proof.
  unfold on_press, bind, gets, modify, ret, final, trace. cbn.
  destruct (String.eqb k (target_key v) && negb (hotkey_pressed v));
    [|reflexivity].
  now destruct (_start_recording (set_hotkey_pressed true v)) as [[[] v1] tr].
Qed.

Lemma on_release_eq (k : key) (v : VoiceRecorder) :
  on_release k v =
    if String.eqb k (target_key v) && hotkey_pressed v
    then (tt, final (_stop_recording (set_hotkey_pressed false v)),
          trace (_stop_recording (set_hotkey_pressed false v)))
    else (tt, v, []).
Proof.
  unfold on_release, bind, gets, modify, ret, final, trace. cbn.
  destruct (String.eqb k (target_key v) && hotkey_pressed v);
    [|reflexivity].
  now destruct (_stop_recording (set_hotkey_pressed false v)) as [[[] v1] tr].
Qed.

Lemma voice_run_cons (i : input) (l : list input) (v : VoiceRecorder) :
  final (run (i :: l) v) = final (run l (final (perform i v))) /\
  trace (run (i :: l) v) =
    trace (perform i v) ++ trace (run l (final (perform i v))).
Proof.
  cbn [run]. unfold bind, final, trace.
  destruct (perform i v) as [[u v1] t1]; cbn.
  now destruct (run l v1) as [[u2 v2] t2].
Qed.


(** A step of a capture thread or of the device, seen from the
    [VoiceRecorder]. *)
Lemma perform_capture (i : input) (a : Manual.action sample)
    (v : VoiceRecorder) (w : world) :
  audio_recorder v = Some w ->
  (exists t, i = Step t /\ a = Manual.Tick t) \/
  (exists x, i = Sound x /\ a = Manual.Hear x) ->
  let out := perform i v in
  audio_recorder (final out) = Some (final (Manual.perform a w)) /\
  Manual.same_control w (final (Manual.perform a w)) /\
  is_recording (final out) = is_recording v /\
  debug_mode (final out) = debug_mode v /\
  hotkey_pressed (final out) = hotkey_pressed v /\
  target_key (final out) = target_key v /\
  processed (trace out) = [] /\
  sessions (trace out) = 0.
Proof.
  intros Har Hi. cbv zeta.
  assert (Ha : (exists t, a = Manual.Tick t) \/ (exists x, a = Manual.Hear x))
    by (destruct Hi as [(t & _ & ->)|(x & _ & ->)]; eauto).
  assert (E : perform i v = on_recorder (Manual.perform a) w v).
  { destruct Hi as [(t & -> & ->)|(x & -> & ->)]; cbn [perform];
      unfold bind, gets; rewrite Har;
      now destruct (on_recorder _ w v) as [[u v1] tr]. }
  rewrite E.
  pose proof (on_recorder_spec (Manual.perform a) w v) as H.
  cbv zeta in H. destruct H as (_ & H2 & H3 & H4 & H5 & H6 & H7 & H8).
  destruct (manual_capture a w (is_recording v) Ha) as (M1 & M2 & M3 & M4).
  rewrite H2, H3, H4, H5, H6, H7, H8, M1, M2, M3.
  repeat split; auto; apply M4.
Qed.



Lemma locked_step (i : input) (v : VoiceRecorder) :
  locked v ->
  locked (final (perform i v)) /\
  sessions (trace (perform i v)) = 0 /\
  processed (trace (perform i v)) = [].
Proof.
  intros (Hrec & Har & Hcap). unfold locked, capturing in *.
  destruct (audio_recorder v) as [w|] eqn:Hw; [clear Har|congruence].
  destruct i as [k|k|t|x]; cbn [perform].
  - rewrite on_press_eq.
    destruct (String.eqb k (target_key v) && negb (hotkey_pressed v));
      cbn [final trace fst snd].
    2:{ rewrite Hw. repeat split; auto. discriminate. }
    set (v' := set_hotkey_pressed true v).
    assert (Har' : audio_recorder v' = Some w) by exact Hw.
    rewrite (start_recording_eq v' w Har').
    change (is_recording v') with (is_recording v). rewrite Hrec.
    cbn [final trace fst snd]. change (audio_recorder v') with (audio_recorder v).
    rewrite Hw. repeat split; auto. discriminate.
  - rewrite on_release_eq.
    destruct (String.eqb k (target_key v) && hotkey_pressed v);
      cbn [final trace fst snd].
    2:{ rewrite Hw. repeat split; auto. discriminate. }
    set (v' := set_hotkey_pressed false v).
    assert (Har' : audio_recorder v' = Some w) by exact Hw.
    assert (Hrec' : is_recording v' = true) by exact Hrec.
    destruct (stop_recording_spec v' w Har' Hrec')
      as (S1 & S2 & _ & _ & _ & S6 & S7).
    destruct (manual_stop w true) as (M1 & _ & _ & M4 & M5 & _).
    destruct (M5 Hcap) as (M6 & M7 & _).
    rewrite S1, S2, S6, S7, M1, M4, M6, M7.
    repeat split; auto. discriminate.
  - destruct (perform_capture (Step t) (Manual.Tick t) v w Hw)
      as (P1 & P2 & P3 & _ & _ & _ & P7 & P8); [left; eauto|].
    cbn [perform] in *. destruct P2 as (Q1 & _).
    rewrite P1, P3, P7, P8, Q1. repeat split; auto. discriminate.
  - destruct (perform_capture (Sound x) (Manual.Hear x) v w Hw)
      as (P1 & P2 & P3 & _ & _ & _ & P7 & P8); [right; eauto|].
    cbn [perform] in *. destruct P2 as (Q1 & _).
    rewrite P1, P3, P7, P8, Q1. repeat split; auto. discriminate.
Qed.

(** X19.  Once the [VoiceRecorder] believes that a recording is under way
    while its audio recorder is idle, it stays so for good: whatever
    keys are pressed and released from then on, no capture thread is
    ever started again and no audio is given to [_process_audio]; every
    press of the hotkey is taken for a press during a recording, and
    every release ends in "Not currently recording". *)
Theorem locked_recorder_never_records_again (l : list input)
    (v : VoiceRecorder) :
  locked v ->
  locked (final (run l v)) /\
  sessions (trace (run l v)) = 0 /\
  processed (trace (run l v)) = [].
Proof.
  revert v; induction l as [|i l IH]; intros v Hv.
  - split; [exact Hv|]. split; reflexivity.
  - destruct (voice_run_cons i l v) as [-> ->].
    destruct (locked_step i v Hv) as (H1 & H2 & H3).
    destruct (IH _ H1) as (I1 & I2 & I3).
    rewrite sessions_app, processed_app, H2, H3, I2, I3. auto.
Qed.




End Facts.

(** *** The set-ups, run *)

Import Scenarios.
Import Setups.




Lemma tapped_locked : locked tapped.
Proof.
  split; [vm_compute; reflexivity|].
  split; [vm_compute; discriminate|vm_compute; reflexivity].
Qed.

Lemma locked_recorder_never_records_again_witness :
  let later := [Press ctrl_r; Step 0; Release ctrl_r; Press ctrl_r;
                Sound (Manual.Chunk [7%Z]); Release ctrl_r] in
  locked (final (run later tapped)) /\
  sessions (trace (run later tapped)) = 0 /\
  processed (trace (run later tapped)) = [].
Proof.
  exact (locked_recorder_never_records_again _ tapped tapped_locked).
Defined.



(** Held for five steps of the capture thread: two chunks are read and
    processed.  Tapped: nothing is processed, and the next hold is lost. *)
Example held_for_five_steps :
  processed
    (trace (run (Press ctrl_r :: repeat (Step 0) 5 ++ [Release ctrl_r])
              (voice (Manual.mic three_at_the_device)))) =
    [[0; 1; 2; 3]%Z].
Proof. vm_compute. reflexivity. Qed.

Example hold_after_a_tap_is_lost :
  let out := run (Press ctrl_r :: repeat (Step 1) 5 ++ [Release ctrl_r])
               tapped in
  processed (trace out) = [] /\ sessions (trace out) = 0 /\
  is_recording (final out) = true.
Proof. vm_compute. repeat split; reflexivity. Qed.

End VoiceFacts.
(** ** Facts about the global hotkeys *)

Module HotkeysFacts.
Import Hotkeys.

Lemma calls_app (a b : list event) : calls (a ++ b) = calls a ++ calls b.
Proof.
  induction a as [|x a IH]; cbn; auto. destruct x; cbn; now rewrite ?IH.
Qed.

Lemma hotkeys_run_cons (s : signal) (l : list signal) (w : world) :
  final (run (s :: l) w) = final (run l (final (perform s w))) /\
  trace (run (s :: l) w) =
    trace (perform s w) ++ trace (run l (final (perform s w))).
Proof.
  cbn [run]. unfold bind, final, trace.
  destruct (perform s w) as [[u w1] t1]; cbn.
  now destruct (run l w1) as [[u2 w2] t2].
Qed.

(** One signal, by what it calls and what it makes of [is_recording]. *)
Lemma perform_calls (s : signal) (w : world) :
  (calls (trace (perform s w)) = [] /\
   is_recording (self (final (perform s w))) = is_recording (self w)) \/
  (is_recording (self w) = false /\
   calls (trace (perform s w)) = [OnStartRecording] /\
   is_recording (self (final (perform s w))) = true) \/
  (is_recording (self w) = true /\
   calls (trace (perform s w)) = [OnStopRecording] /\
   is_recording (self (final (perform s w))) = false) \/
  (is_recording (self w) = true /\
   calls (trace (perform s w)) = [OnCancelRecording] /\
   is_recording (self (final (perform s w))) = true).
Proof.
  destruct s; cbn [perform];
    unfold _on_record_key_press, _on_record_key_release, _on_cancel_key,
      call, get, set, bind, gets, modify, emit, ret, final, trace; cbn;
    destruct (is_recording (self w)) eqn:Hrec; cbn; auto.
  - destruct (on_start_recording (self w)) as [c|]; cbn; auto.
    right; left. destruct (cb_does c); cbn; auto.
  - destruct (on_stop_recording (self w)) as [c|]; cbn; auto.
    right; right; left. destruct (cb_does c); cbn; auto.
  - destruct (on_cancel_recording (self w)) as [c|]; cbn; auto.
    right; right; right. destruct (cb_does c); cbn; auto.
Qed.

(** X21.  Whatever the keyboard reports, in whatever order (a key that repeats
    while it is held, a release without a press, the cancel combination
    at any time), and whether the callbacks are set, return or raise:
    the handler calls [on_start_recording] and [on_stop_recording] in
    turn, never one of them twice in a row, beginning with the one that
    fits its [is_recording], and it calls [on_cancel_recording] between
    a start and the next stop only. *)
Theorem hotkey_callbacks_take_turns (l : list signal) (w : world) :
  in_turn (is_recording (self w)) (calls (trace (run l w))) = true.
Proof.
  revert w; induction l as [|s l IH]; intros w; [reflexivity|].
  destruct (hotkeys_run_cons s l w) as [_ ->].
  rewrite calls_app. specialize (IH (final (perform s w))).
  destruct (perform_calls s w)
    as [(-> & <-)|[(-> & -> & E)|[(-> & -> & E)|(-> & -> & E)]]];
    cbn; rewrite ?E in IH; exact IH.
Qed.

Lemma stop_listening_inactive (kb : keyboard) (w : world) :
  is_active (self w) = false -> stop_listening kb w = (tt, w, []).
Proof.
  intros H. unfold stop_listening, bind, get, gets. now rewrite H.
Qed.

(** X22.  [start_listening] on a handler that is not active.  When the
    library accepts the three registrations, the handler is active and
    the three hooks are registered, after those that were there; a
    [stop_listening] whose [unhook_all()] returns then leaves no hook at
    all and the handler inactive and not recording.  When the library
    accepts the first registration and refuses a later one,
    [start_listening] raises with the handler inactive, and the hooks
    registered so far stay registered: the [stop_listening] in the
    handler of the exception returns at its first test, and so does
    every later [stop_listening] and [cleanup]. *)
Theorem failed_registration_leaves_hooks (kb kb' : keyboard) (w : world) :
  is_active (self w) = false ->
  let k := record_key (self w) in
  let combo := cancel_key_combo (self w) in
  let res := start_listening kb w in
  (accepts kb (OnPressKey k) = true ->
   accepts kb (OnReleaseKey k) = true ->
   accepts kb (AddHotkey combo) = true ->
   value res = true /\
   is_active (self (final res)) = true /\
   hooks (final res) =
     hooks w ++ [OnPressKey k; OnReleaseKey k; AddHotkey combo] /\
   (unhooks kb' = true ->
    hooks (final (stop_listening kb' (final res))) = [] /\
    is_active (self (final (stop_listening kb' (final res)))) = false /\
    is_recording (self (final (stop_listening kb' (final res)))) = false)) /\
  (accepts kb (OnPressKey k) = true ->
   accepts kb (OnReleaseKey k) && accepts kb (AddHotkey combo) = false ->
   value res = false /\
   is_active (self (final res)) = false /\
   In (OnPressKey k) (hooks (final res)) /\
   final (stop_listening kb' (final res)) = final res /\
   final (cleanup kb' (final res)) = final res).
Proof.
  intros Hact. cbv zeta.
  unfold start_listening, cleanup, register, stop_listening, bind, get, set,
    gets, modify, emit, ret, value, final, trace; cbn.
  rewrite !Hact; cbn.
  split.
  - intros H1 H2 H3.
    repeat (rewrite ?H1, ?H2, ?H3, ?Hact; cbn).
    rewrite <- ?app_assoc; cbn.
    split; [reflexivity|]. split; [reflexivity|]. split; [reflexivity|].
    intros Hu. repeat (rewrite ?Hu; cbn). auto.
  - intros H1 H23.
    repeat (rewrite ?H1, ?Hact; cbn).
    destruct (accepts kb (OnReleaseKey (record_key (self w)))) eqn:H2; cbn.
    + cbn in H23. repeat (rewrite ?H23, ?Hact; cbn).
      repeat split; auto.
      rewrite !in_app_iff. cbn. auto.
    + repeat (rewrite ?Hact; cbn).
      repeat split; auto.
      rewrite !in_app_iff. cbn. auto.
Qed.

(** *** The set-ups, run *)

Import Setups.

Lemma failed_registration_leaves_hooks_witness :
  let res := start_listening no_hotkeys handler in
  value res = false /\
  is_active (self (final res)) = false /\
  In (OnPressKey "right_ctrl"%string) (hooks (final res)) /\
  final (stop_listening no_hotkeys (final res)) = final res /\
  final (cleanup no_hotkeys (final res)) = final res.
Proof.
  exact (proj2 (failed_registration_leaves_hooks no_hotkeys no_hotkeys
                  handler eq_refl) eq_refl eq_refl).
Defined.

(** The record key repeats while held, the cancel combination is pressed
    and raises, the key is released twice. *)
Example key_repeat_starts_once :
  calls (trace (run [KeyDown; KeyDown; KeyDown; CancelCombo; KeyUp; KeyUp;
                     CancelCombo] handler)) =
    [OnStartRecording; OnCancelRecording; OnStopRecording].
Proof. vm_compute. reflexivity. Qed.

End HotkeysFacts.

(** ** Facts about the choice of the model *)

Module DetectorFacts.
Import Detector.

#[local] Open Scope string_scope.

Lemma among_cpu_sizes (s : String.string) :
  among s cpu_sizes = true ->
  among s sizes = true /\ among s ["large"; "medium"]%string = false.
Proof.
  unfold among, cpu_sizes, sizes. cbn. rewrite !orb_false_r.
  intros H. apply orb_true_iff in H as [H|H];
    [|apply orb_true_iff in H as [H|H]];
    apply String.eqb_eq in H; subst s; split; reflexivity.
Qed.

(** What [select_model_for_device] returns, case by case. *)
Lemma select_cases (dev size : String.string) :
  let r := fst (select_model_for_device dev size) in
  fits dev r = true /\
  (r = size \/ r = "base"%string) /\
  (fits dev size = true ->
   select_model_for_device dev size = (size, [])).
Proof.
  cbv zeta. unfold select_model_for_device, fits.
  destruct (String.eqb dev "cpu") eqn:Hcpu.
  - destruct (among size ["large"; "medium"]%string) eqn:Hbig; cbn [fst].
    + split; [reflexivity|]. split; [now right|].
      intros H. destruct (among_cpu_sizes size H). congruence.
    + fold cpu_sizes. destruct (among size cpu_sizes) eqn:Hs; cbn [fst].
      * repeat split; auto.
      * split; [reflexivity|]. split; [now right|]. discriminate.
  - destruct (among dev ["cuda"; "mps"]%string) eqn:Hgpu; cbn [fst].
    + fold sizes. destruct (among size sizes) eqn:Hs; cbn [fst].
      * repeat split; auto.
      * split; [reflexivity|]. split; [now right|]. discriminate.
    + split; [reflexivity|]. split; [now right|].
      intros H. apply String.eqb_eq in H. now subst size.
Qed.

Lemma fits_sizes (dev size : String.string) :
  fits dev size = true -> In size sizes.
Proof.
  unfold fits.
  assert (Hin : among size sizes = true -> In size sizes).
  { unfold among. intros H. apply existsb_exists in H as (x & Hx & E).
    apply String.eqb_eq in E. now subst x. }
  destruct (String.eqb dev "cpu").
  - intros H. apply Hin. now apply among_cpu_sizes.
  - destruct (among dev ["cuda"; "mps"]%string); [exact Hin|].
    intros H. apply String.eqb_eq in H. subst size. cbn. auto.
Qed.

Lemma fits_cpu (size : String.string) :
  fits "cpu" size = true -> In size cpu_sizes.
Proof.
  unfold fits. rewrite String.eqb_refl. unfold among. intros H.
  apply existsb_exists in H as (x & Hx & E).
  apply String.eqb_eq in E. now subst x.
Qed.

(** X23.  [select_model_for_device] always answers with a size that suits the
    device by its own rule: one of the five sizes of Whisper; on "cpu"
    one of tiny, base and small, never medium or large; on a device it
    does not know, base.  It answers with the preferred size when that
    one suits the device, and with "base" otherwise; asked again with its
    own answer, it repeats it and warns no more. *)
Theorem selected_model_suits_the_device (dev size : String.string) :
  let r := fst (select_model_for_device dev size) in
  fits dev r = true /\
  In r sizes /\
  (dev = "cpu"%string -> In r cpu_sizes) /\
  (fits dev size = true -> r = size) /\
  (fits dev size = false -> r = "base"%string) /\
  select_model_for_device dev r = (r, []).
Proof.
  cbv zeta. destruct (select_cases dev size) as (Hfit & Hr & Hkeep).
  split; [exact Hfit|]. split; [exact (fits_sizes _ _ Hfit)|].
  split; [|split; [|split]].
  - intros ->. now apply fits_cpu.
  - intros H. now rewrite (Hkeep H).
  - intros H. destruct Hr as [Hr|Hr]; [|exact Hr].
    rewrite Hr in Hfit. congruence.
  - destruct (select_cases dev (fst (select_model_for_device dev size)))
      as (_ & _ & Hagain).
    exact (Hagain Hfit).
Qed.

#[local] Arguments select_model_for_device : simpl never.

(** The state that [_load_model] leaves, and its result, when no model
    is held and no load is under way. *)
Lemma load_model_state (whisper : String.string -> String.string -> bool)
    (t : WhisperTranscriber) :
  model t = None ->
  is_loading t = false ->
  let size := model_size t in
  let dev := device t in
  let size' := fst (select_model_for_device "cpu" size) in
  (value (_load_model whisper t), final (_load_model whisper t)) =
    if whisper size dev then
      (Some true,
       set_is_loading false
         (set_model (Some (size, dev)) (set_is_loading true t)))
    else if negb (String.eqb dev "cpu") then
      if whisper size' "cpu" then
        (Some true,
         set_is_loading false
           (set_model (Some (size', "cpu"))
              (set_model_size size'
                 (set_device "cpu" (set_is_loading true t)))))
      else
        (Some false,
         set_is_loading false
           (set_model_size size' (set_device "cpu" (set_is_loading true t))))
    else (Some false, set_is_loading false (set_is_loading true t)).
Proof.
  intros Hmodel Hl. cbv zeta.
  unfold _load_model, load, emits, bind, ret, emit, gets, modify, when,
    value, final.
  rewrite Hmodel, Hl. cbn.
  destruct (debug_mode t); cbn;
    (destruct (whisper (model_size t) (device t)); cbn; [reflexivity|]);
    (destruct (String.eqb (device t) "cpu"); cbn; [reflexivity|]);
    destruct (select_model_for_device "cpu" (model_size t))
      as [size' warnings]; cbn;
    destruct (whisper size' "cpu"); reflexivity.
Qed.

(** [_load_model] on a transcriber in a consistent state. *)
Lemma load_model_consistent
    (whisper : String.string -> String.string -> bool)
    (t : WhisperTranscriber) :
  consistent t ->
  value (_load_model whisper t) <> None /\
  consistent (final (_load_model whisper t)) /\
  (value (_load_model whisper t) = Some true <->
   model (final (_load_model whisper t)) <> None).
Proof.
  intros (Hl & Hfit & Hm). unfold consistent.
  destruct (model t) as [[s d]|] eqn:Hmodel.
  - rewrite <- Hmodel in Hm.
    assert (E : _load_model whisper t = (Some true, t, []))
      by (unfold _load_model, bind, gets, ret; now rewrite Hmodel).
    rewrite E. cbn [value final fst snd].
    split; [discriminate|]. split; [auto|].
    rewrite Hmodel. split; [discriminate|reflexivity].
  - pose proof (load_model_state whisper t Hmodel Hl) as E. cbv zeta in E.
    destruct (select_cases "cpu" (model_size t)) as (Sfit & _).
    set (size' := fst (select_model_for_device "cpu" (model_size t))) in *.
    destruct (whisper (model_size t) (device t)).
    + apply pair_equal_spec in E as [Ev Ef]. rewrite Ev, Ef. cbn.
      split; [discriminate|]. split.
      * split; [reflexivity|]. split; [exact Hfit|].
        intros size dev H. inversion H. auto.
      * split; [discriminate|reflexivity].
    + destruct (String.eqb (device t) "cpu"); cbn [negb] in E.
      * apply pair_equal_spec in E as [Ev Ef]. rewrite Ev, Ef. cbn.
        split; [discriminate|]. split.
        -- split; [reflexivity|]. split; [exact Hfit|].
           rewrite Hmodel. discriminate.
        -- rewrite Hmodel. split; [discriminate|congruence].
      * destruct (whisper size' "cpu");
          apply pair_equal_spec in E as [Ev Ef]; rewrite Ev, Ef; cbn.
        -- split; [discriminate|]. split.
           ++ split; [reflexivity|]. split; [exact Sfit|].
              intros size dev H. inversion H. auto.
           ++ split; [discriminate|reflexivity].
        -- split; [discriminate|]. split.
           ++ split; [reflexivity|]. split; [exact Sfit|].
              rewrite Hmodel. discriminate.
           ++ rewrite Hmodel. split; [discriminate|congruence].
Qed.

(** X24.  However a [WhisperTranscriber] is constructed, and whatever
    [whisper.load_model] does at the construction and at any later
    [_load_model]: [_load_model] always returns, and a model that the
    transcriber holds was loaded at the size and on the device that the
    transcriber records, which suit each other by the rule of
    [select_model_for_device].  In particular the fall-back to "cpu"
    after a failure on another device never loads a medium or large
    model. *)
Theorem loaded_model_suits_its_device (model_size device : String.string)
    (debug load_model cuda mps : bool)
    (whisper : String.string -> String.string -> bool)
    (later : list (String.string -> String.string -> bool)) :
  let t := fold_left (fun t w => final (_load_model w t)) later
             (fst (__init__ model_size device debug load_model cuda mps
                     whisper)) in
  consistent t /\
  (forall w, value (_load_model w t) <> None) /\
  (forall size dev,
     model t = Some (size, dev) ->
     fits dev size = true /\ (dev = "cpu"%string -> In size cpu_sizes)).
Proof.
  cbv zeta.
  assert (H0 : consistent
                 (fst (__init__ model_size device debug load_model cuda mps
                         whisper))).
  { unfold __init__.
    destruct (if negb (String.eqb device "auto") then (device, [])
              else get_optimal_device cuda mps) as [dev t1].
    destruct (select_cases dev model_size) as (Sfit & _).
    destruct (select_model_for_device dev model_size) as [size t2].
    cbn [fst] in Sfit.
    set (t0 := Build_WhisperTranscriber _ _ _ _ _).
    assert (Ht0 : consistent t0)
      by (split; [reflexivity|]; split; [exact Sfit|]; discriminate).
    destruct load_model; [|exact Ht0].
    destruct (load_model_consistent whisper t0 Ht0) as (_ & Hc & _).
    unfold final in Hc.
    now destruct (_load_model whisper t0) as [[r t] t4]. }
  revert H0.
  generalize (fst (__init__ model_size device debug load_model cuda mps
                     whisper)).
  induction later as [|w later IH]; intros t Ht; cbn [fold_left].
  - split; [exact Ht|]. split.
    + intros w. now destruct (load_model_consistent w t Ht).
    + intros size dev Hm. destruct Ht as (_ & Hfit & Hmodel).
      destruct (Hmodel size dev Hm) as [-> ->].
      split; [exact Hfit|]. intros Hcpu. rewrite Hcpu in Hfit.
      now apply fits_cpu.
  - apply IH. now destruct (load_model_consistent w t Ht) as (_ & Hc & _).
Qed.

(** A large model asked for on "cuda", which fails to load it: the
    fall-back loads "base" on "cpu". *)
Example large_model_falls_back_to_base :
  let t := fst (__init__ "large" "auto" false true true false
                  (fun size dev => String.eqb dev "cpu")) in
  model t = Some ("base", "cpu") /\ model_size t = "base" /\
  device t = "cpu".
Proof. vm_compute. repeat split; reflexivity. Qed.

End DetectorFacts.

(** ** The detector on [float32] samples and the exact energy *)

Module Float32Facts.
Import Float32.

#[local] Unset Implicit Arguments.
#[local] Open Scope Z_scope.

Lemma digits2_bounds (p : positive) :
  2 ^ (Zpos (digits2_pos p) - 1) <= Zpos p < 2 ^ Zpos (digits2_pos p).
Proof.
  induction p as [p IH|p IH|]; cbn [digits2_pos].
  - rewrite Pos2Z.inj_succ.
    replace (Z.succ (Zpos (digits2_pos p)) - 1) with (Zpos (digits2_pos p)) by lia.
    rewrite Z.pow_succ_r by lia.
    replace (2 ^ Zpos (digits2_pos p)) with (2 * 2 ^ (Zpos (digits2_pos p) - 1)) in *
      by (rewrite <- Z.pow_succ_r by lia; f_equal; lia).
    lia.
  - rewrite Pos2Z.inj_succ.
    replace (Z.succ (Zpos (digits2_pos p)) - 1) with (Zpos (digits2_pos p)) by lia.
    rewrite Z.pow_succ_r by lia.
    replace (2 ^ Zpos (digits2_pos p)) with (2 * 2 ^ (Zpos (digits2_pos p) - 1)) in *
      by (rewrite <- Z.pow_succ_r by lia; f_equal; lia).
    lia.
  - cbn. lia.
Qed.

Lemma Zdigits2_bounds (M : Z) :
  0 < M -> 2 ^ (Zdigits2 M - 1) <= M < 2 ^ Zdigits2 M.
Proof. destruct M as [|p|p]; try lia. intros _. apply digits2_bounds. Qed.

Lemma Zdigits2_pos (M : Z) : 0 < M -> 0 < Zdigits2 M.
Proof. destruct M; cbn; lia. Qed.

Lemma Zdigits2_unique (M d : Z) :
  0 < M -> 2 ^ (d - 1) <= M < 2 ^ d -> Zdigits2 M = d.
Proof.
  intros HM [H1 H2].
  destruct (Zdigits2_bounds M HM) as [B1 B2].
  pose proof (Zdigits2_pos M HM) as Hd.
  assert (0 < d).
  { destruct (Z.ltb_spec 0 d) as [|Hd0]; [assumption|].
    destruct (Z.eq_dec d 0) as [->|Hn]; [cbn in H2; lia|].
    rewrite Z.pow_neg_r in H2 by lia. lia. }
  assert (Zdigits2 M - 1 < d).
  { apply (Z.pow_lt_mono_r_iff 2); lia. }
  assert (d - 1 < Zdigits2 M).
  { apply (Z.pow_lt_mono_r_iff 2); lia. }
  lia.
Qed.

Lemma shr_1_m (r : shr_record) :
  0 <= shr_m r -> shr_m (shr_1 r) = shr_m r / 2.
Proof.
  destruct r as [m r s]; cbn [shr_m]. intros Hm.
  destruct m as [|[p|p|]|]; cbn [shr_1 shr_m]; try lia.
  - reflexivity.
  - rewrite <- Z.div2_div. reflexivity.
  - rewrite <- Z.div2_div. reflexivity.
  - reflexivity.
Qed.

Lemma iter_pos_shr_m (p : positive) (r : shr_record) :
  0 <= shr_m r -> shr_m (iter_pos shr_1 p r) = shr_m r / 2 ^ Zpos p.
Proof.
  revert r. induction p as [p IH|p IH|]; intros r Hr; cbn [iter_pos].
  - assert (H1 : 0 <= shr_m (shr_1 r)) by (rewrite shr_1_m by lia; apply Z.div_pos; lia).
    assert (H2 : 0 <= shr_m (iter_pos shr_1 p (shr_1 r)))
      by (rewrite IH by lia; apply Z.div_pos; [lia|apply Z.pow_pos_nonneg; lia]).
    rewrite IH, IH, shr_1_m by lia.
    rewrite !Z.div_div by (try lia; apply Z.pow_pos_nonneg; lia).
    f_equal. replace (Zpos p~1) with (1 + Zpos p + Zpos p) by lia.
    rewrite !Z.pow_add_r by lia. lia.
  - assert (H2 : 0 <= shr_m (iter_pos shr_1 p r))
      by (rewrite IH by lia; apply Z.div_pos; [lia|apply Z.pow_pos_nonneg; lia]).
    rewrite IH, IH by lia.
    rewrite !Z.div_div by (try lia; apply Z.pow_pos_nonneg; lia).
    f_equal. replace (Zpos p~0) with (Zpos p + Zpos p) by lia.
    rewrite !Z.pow_add_r by lia. lia.
  - rewrite shr_1_m by lia. reflexivity.
Qed.

Lemma shr_m_shift (r : shr_record) (e n : Z) :
  0 <= shr_m r -> 0 <= n ->
  shr_m (fst (shr r e n)) = shr_m r / 2 ^ n /\ snd (shr r e n) = e + n.
Proof.
  intros Hr Hn. destruct n as [|p|p]; cbn [shr fst snd]; try lia.
  - rewrite Z.div_1_r. split; lia.
  - split; [now apply iter_pos_shr_m|reflexivity].
Qed.

Lemma shr_m_of_loc (m : Z) (l : location) : shr_m (shr_record_of_loc m l) = m.
Proof. destruct l as [|[]]; reflexivity. Qed.

Lemma round_nearest_even_cases (m : Z) (l : location) :
  round_nearest_even m l = m \/ round_nearest_even m l = m + 1.
Proof. destruct l as [|[]]; cbn; auto. destruct (Z.even m); auto. Qed.

Section Round.

Variables prec emax : Z.
Hypothesis Hprec : 0 < prec.

(** [binary_round_aux] on a mantissa with at least [prec] digits, away from
    underflow and overflow: a normal number of the format, one of the two
    neighbours of the truncated mantissa. *)
Lemma round_aux_faithful (s : bool) (M E : Z) (l : location) :
  0 < M ->
  prec <= Zdigits2 M ->
  emin prec emax <= Zdigits2 M + E - prec ->
  Zdigits2 M + E < emax ->
  let k := Zdigits2 M - prec in
  exists m e R,
    binary_round_aux prec emax s M E l = S754_finite s m e /\
    Zdigits2 (Zpos m) = prec /\
    E + k <= e <= emax - prec /\
    (R = M / 2 ^ k \/ R = M / 2 ^ k + 1) /\
    Zpos m * 2 ^ (e - (E + k)) = R.
Proof.
  intros HM Hd Hlo Hhi k.
  set (d := Zdigits2 M) in *.
  destruct (Zdigits2_bounds M HM) as [B1 B2]. fold d in B1, B2.
  assert (Hk : 0 <= k) by (unfold k; lia).
  set (q := M / 2 ^ k).
  assert (Hq : 2 ^ (prec - 1) <= q < 2 ^ prec).
  { unfold q. split.
    - apply Z.div_le_lower_bound; [apply Z.pow_pos_nonneg; lia|].
      rewrite <- Z.pow_add_r by lia.
      replace (k + (prec - 1)) with (d - 1) by (unfold k; lia). exact B1.
    - apply Z.div_lt_upper_bound; [apply Z.pow_pos_nonneg; lia|].
      rewrite <- Z.pow_add_r by lia.
      replace (k + prec) with d by (unfold k; lia). exact B2. }
  assert (Hq0 : 0 < q).
  { assert (0 < 2 ^ (prec - 1)) by (apply Z.pow_pos_nonneg; lia). lia. }
  unfold binary_round_aux, shr_fexp.
  assert (Hf : fexp prec emax (d + E) - E = k).
  { unfold fexp, k. fold d. lia. }
  fold d. rewrite Hf.
  destruct (shr_m_shift (shr_record_of_loc M l) E k) as [S1 S2];
    [rewrite shr_m_of_loc; lia|lia|].
  rewrite shr_m_of_loc in S1. fold q in S1.
  destruct (shr (shr_record_of_loc M l) E k) as [mrs' e'].
  cbn [fst snd] in S1, S2. subst e'.
  set (R := round_nearest_even (shr_m mrs') (loc_of_shr_record mrs')).
  assert (HR : R = q \/ R = q + 1).
  { unfold R. rewrite <- S1. apply round_nearest_even_cases. }
  assert (HR0 : 0 < R) by lia.
  destruct (Z.ltb_spec R (2 ^ prec)) as [Hlt|Hge].
  - (* the rounded mantissa still has [prec] digits *)
    assert (HdR : Zdigits2 R = prec) by (apply Zdigits2_unique; lia).
    rewrite HdR.
    assert (Hf2 : fexp prec emax (prec + (E + k)) - (E + k) = 0)
      by (unfold fexp, k; lia).
    rewrite Hf2. cbn [shr shr_record_of_loc shr_m].
    destruct R as [|m|m] eqn:ER; try lia.
    assert (Hle : (E + k <=? emax - prec) = true)
      by (apply Z.leb_le; unfold k; lia).
    rewrite Hle.
    exists m, (E + k), (Zpos m).
    split; [reflexivity|]. split; [exact HdR|].
    split; [unfold k in *; lia|]. split; [fold q; exact HR|].
    rewrite Z.sub_diag. cbn. lia.
  - (* the mantissa was rounded up to [2 ^ prec] *)
    assert (ER : R = 2 ^ prec) by lia.
    assert (HdR : Zdigits2 R = prec + 1).
    { apply Zdigits2_unique; [lia|].
      replace (prec + 1 - 1) with prec by lia.
      rewrite ER, Z.pow_add_r by lia. cbn. lia. }
    rewrite HdR.
    assert (Hf2 : fexp prec emax (prec + 1 + (E + k)) - (E + k) = 1)
      by (unfold fexp, k; lia).
    rewrite Hf2. cbn [shr shr_record_of_loc iter_pos].
    assert (Hm : shr_m (shr_1 {| shr_m := R; shr_r := false; shr_s := false |})
                 = 2 ^ (prec - 1)).
    { rewrite shr_1_m by (cbn; lia). cbn [shr_m]. rewrite ER.
      replace prec with (1 + (prec - 1)) at 1 by lia.
      rewrite Z.pow_add_r by lia. cbn [Z.pow Z.pow_pos Pos.iter].
      rewrite Z.mul_comm, Z.div_mul by lia. reflexivity. }
    rewrite Hm.
    assert (Hp : 0 < 2 ^ (prec - 1)) by (apply Z.pow_pos_nonneg; lia).
    destruct (2 ^ (prec - 1)) as [|m|m] eqn:Em; try lia.
    assert (Hle : (E + k + 1 <=? emax - prec) = true)
      by (apply Z.leb_le; unfold k; lia).
    rewrite Hle.
    exists m, (E + k + 1), R.
    split; [reflexivity|]. split.
    { apply Zdigits2_unique; [lia|]. rewrite <- Em.
      split; [lia|]. apply Z.pow_lt_mono_r; lia. }
    split; [unfold k in *; lia|]. split; [fold q; exact HR|].
    replace (E + k + 1 - (E + k)) with 1 by lia.
    rewrite <- Em, ER. replace prec with ((prec - 1) + 1) at 2 by lia.
    rewrite Z.pow_add_r by lia. reflexivity.
Qed.

End Round.

(** *** Values *)

#[local] Open Scope Q_scope.

Lemma pow2_pos (e : Z) : 0 < 2 ^ e.
Proof. apply Qpower_0_lt. reflexivity. Qed.

Lemma pow2_add (a b : Z) : 2 ^ (a + b) == 2 ^ a * 2 ^ b.
Proof. apply Qpower_plus. discriminate. Qed.

Lemma pow2_le (a b : Z) : (a <= b)%Z -> 2 ^ a <= 2 ^ b.
Proof. intros H. apply Qpower_le_compat_l; [exact H|discriminate]. Qed.

Lemma pow2_lt (a b : Z) : (a < b)%Z -> 2 ^ a < 2 ^ b.
Proof. intros H. apply Qpower_lt_compat_l; [exact H|reflexivity]. Qed.

Lemma pow2_lt_inv (a b : Z) : 2 ^ a < 2 ^ b -> (a < b)%Z.
Proof. intros H. apply (Qpower_lt_compat_l_inv 2); [exact H|reflexivity]. Qed.

Lemma pow2_inject (n : Z) : (0 <= n)%Z -> inject_Z (2 ^ n) == 2 ^ n.
Proof. intros H. now rewrite Zpower_Qpower. Qed.

Lemma inject_Z_le (a b : Z) : (a <= b)%Z -> inject_Z a <= inject_Z b.
Proof. intros H. now rewrite <- Zle_Qle. Qed.

Lemma inject_Z_lt (a b : Z) : (a < b)%Z -> inject_Z a < inject_Z b.
Proof. intros H. now rewrite <- Zlt_Qlt. Qed.

(** A mantissa of [d] digits at exponent [E] lies between [2^(d-1+E)]
    and [2^(d+E)]. *)
Lemma mantissa_bounds (M E : Z) :
  (0 < M)%Z ->
  2 ^ (Zdigits2 M - 1 + E) <= inject_Z M * 2 ^ E /\
  inject_Z M * 2 ^ E < 2 ^ (Zdigits2 M + E).
Proof.
  intros HM. destruct (Zdigits2_bounds M HM) as [B1 B2].
  pose proof (Zdigits2_pos M HM) as Hd.
  pose proof (pow2_pos E) as HE.
  rewrite !pow2_add. split.
  - apply Qmult_le_compat_r; [|now apply Qlt_le_weak].
    rewrite <- pow2_inject by lia. now apply inject_Z_le.
  - apply Qmult_lt_compat_r; [exact HE|].
    rewrite <- pow2_inject by lia. now apply inject_Z_lt.
Qed.

Section RoundQ.

Variables prec emax : Z.
Hypothesis Hprec : (0 < prec)%Z.

Lemma round_aux_within (M E : Z) (l : location) (y : Q) :
  (0 < M)%Z ->
  (prec <= Zdigits2 M)%Z ->
  (emin prec emax <= Zdigits2 M + E - prec)%Z ->
  (Zdigits2 M + E < emax)%Z ->
  inject_Z M * 2 ^ E <= y ->
  y <= inject_Z (M + 1) * 2 ^ E ->
  normal prec emax (binary_round_aux prec emax false M E l) /\
  within (1 + step prec) (exact (binary_round_aux prec emax false M E l)) y.
Proof.
  intros HM Hd Hlo Hhi Hy1 Hy2.
  destruct (round_aux_faithful prec emax Hprec false M E l HM Hd Hlo Hhi)
    as (m & e & R & -> & Hdm & He & HR & Hv).
  set (k := (Zdigits2 M - prec)%Z) in *.
  assert (Hk : (0 <= k)%Z) by (unfold k; lia).
  split.
  { exists m, e. repeat split; try assumption; lia. }
  destruct (Zdigits2_bounds M HM) as [B1 B2].
  set (q := (M / 2 ^ k)%Z) in *.
  assert (Hpk : (0 < 2 ^ k)%Z) by (apply Z.pow_pos_nonneg; lia).
  assert (Hq : (2 ^ (prec - 1) <= q)%Z).
  { unfold q. apply Z.div_le_lower_bound; [exact Hpk|].
    rewrite <- Z.pow_add_r by lia.
    replace (k + (prec - 1))%Z with (Zdigits2 M - 1)%Z by (unfold k; lia).
    exact B1. }
  assert (Hq1 : (q * 2 ^ k <= M)%Z).
  { unfold q. rewrite Z.mul_comm. apply Z.mul_div_le. exact Hpk. }
  assert (Hq2 : (M + 1 <= (q + 1) * 2 ^ k)%Z).
  { unfold q. pose proof (Z.div_mod M (2 ^ k) ltac:(lia)).
    pose proof (Z.mod_pos_bound M (2 ^ k) Hpk). nia. }
  (* everything in units of [2 ^ (E + k)] *)
  set (P := 2 ^ (E + k)).
  assert (HP : 0 < P) by apply pow2_pos.
  assert (HPk : 2 ^ E * inject_Z (2 ^ k) == P).
  { unfold P. rewrite pow2_add, pow2_inject by lia. reflexivity. }
  assert (Ha : inject_Z q * P <= y).
  { apply Qle_trans with (inject_Z M * 2 ^ E); [|exact Hy1].
    rewrite <- HPk.
    setoid_replace (inject_Z q * (2 ^ E * inject_Z (2 ^ k)))
      with (inject_Z (q * 2 ^ k) * 2 ^ E) by (rewrite inject_Z_mult; ring).
    apply Qmult_le_compat_r; [now apply inject_Z_le|].
    apply Qlt_le_weak, pow2_pos. }
  assert (Hb : y <= inject_Z (q + 1) * P).
  { apply Qle_trans with (inject_Z (M + 1) * 2 ^ E); [exact Hy2|].
    rewrite <- HPk.
    setoid_replace (inject_Z (q + 1) * (2 ^ E * inject_Z (2 ^ k)))
      with (inject_Z ((q + 1) * 2 ^ k) * 2 ^ E) by (rewrite inject_Z_mult; ring).
    apply Qmult_le_compat_r; [now apply inject_Z_le|].
    apply Qlt_le_weak, pow2_pos. }
  assert (Hval : exact (S754_finite false m e) == inject_Z R * P).
  { cbn [exact]. rewrite <- Hv, inject_Z_mult.
    rewrite pow2_inject by lia. unfold P.
    replace e with ((e - (E + k)) + (E + k))%Z at 1 by lia.
    rewrite pow2_add. ring. }
  assert (Hu : 1 <= step prec * inject_Z q).
  { unfold step.
    apply Qle_trans with (2 ^ (1 - prec) * 2 ^ (prec - 1)).
    - rewrite <- pow2_add. replace (1 - prec + (prec - 1))%Z with 0%Z by lia.
      cbn. apply Qle_refl.
    - apply Qmult_le_l; [apply pow2_pos|].
      rewrite <- pow2_inject by lia. now apply inject_Z_le. }
  assert (Hq0 : 0 < inject_Z q).
  { apply Qlt_le_trans with (inject_Z (2 ^ (prec - 1))); [|now apply inject_Z_le].
    rewrite pow2_inject by lia. apply pow2_pos. }
  assert (HR' : inject_Z q <= inject_Z R /\ inject_Z R <= inject_Z q + 1).
  { destruct HR as [->| ->].
    - split; [apply Qle_refl|]. lra.
    - rewrite inject_Z_plus. change (inject_Z 1) with 1. split; lra. }
  rewrite inject_Z_plus in Hb. change (inject_Z 1) with 1 in Hb.
  set (u := step prec) in *. set (iq := inject_Z q) in *.
  set (iR := inject_Z R) in *.
  unfold within. rewrite Hval. destruct HR' as [R1 R2].
  assert (Hu0 : 0 < u) by apply pow2_pos.
  assert (A1 : P <= u * iq * P) by nra.
  assert (A2 : iq * P <= iR * P) by nra.
  assert (A3 : iR * P <= (iq + 1) * P) by nra.
  assert (A4 : iq * P * (1 + u) <= iR * P * (1 + u)) by nra.
  assert (A5 : iq * P * (1 + u) <= y * (1 + u)) by nra.
  split; lra.
Qed.

End RoundQ.

(** *** The operations *)

Lemma digits_range (M a b : Z) :
  (0 < M)%Z -> (0 <= a)%Z -> (2 ^ a <= M < 2 ^ b)%Z ->
  (a < Zdigits2 M <= b)%Z.
Proof.
  intros HM Ha [H1 H2].
  destruct (Zdigits2_bounds M HM) as [B1 B2].
  pose proof (Zdigits2_pos M HM) as Hd.
  assert (Hb : (0 < b)%Z).
  { destruct (Z.ltb_spec 0 b) as [|Hb0]; [assumption|].
    destruct (Z.eq_dec b 0) as [->|Hn]; [cbn in H2; lia|].
    rewrite Z.pow_neg_r in H2 by lia. lia. }
  split.
  - apply (Z.pow_lt_mono_r_iff 2); lia.
  - assert ((Zdigits2 M - 1 < b)%Z); [|lia].
    apply (Z.pow_lt_mono_r_iff 2); lia.
Qed.

Lemma iter_xO (m d : positive) :
  Zpos (Pos.iter xO m d) = (Zpos m * 2 ^ Zpos d)%Z.
Proof.
  induction d as [|d IH] using Pos.peano_ind.
  - cbn. lia.
  - rewrite Pos.iter_succ, Pos2Z.inj_succ, Z.pow_succ_r by lia.
    rewrite Pos2Z.inj_xO, IH. lia.
Qed.

Lemma shl_align_fst (m : positive) (e ez : Z) :
  (ez <= e)%Z -> Zpos (fst (shl_align m e ez)) = (Zpos m * 2 ^ (e - ez))%Z.
Proof.
  intros H. unfold shl_align.
  destruct (ez - e)%Z as [|d|d] eqn:Hd; cbn [fst]; try lia.
  - replace (e - ez)%Z with 0%Z by lia. cbn. lia.
  - rewrite iter_xO. f_equal. f_equal. lia.
Qed.

Lemma shl_align_none (m : positive) (e e' : Z) :
  (e <= e')%Z -> shl_align m e e' = (m, e).
Proof.
  intros H. unfold shl_align.
  destruct (e' - e)%Z eqn:Hd; try reflexivity. lia.
Qed.

Lemma exact_pos (m : positive) (e : Z) :
  exact (S754_finite false m e) == inject_Z (Zpos m) * 2 ^ e.
Proof. cbn [exact]. ring. Qed.

Lemma normal_bounds (prec emax : Z) (x : spec_float) :
  (0 < prec)%Z -> normal prec emax x ->
  2 ^ (prec - 1 + emin prec emax) <= exact x /\ exact x < 2 ^ emax.
Proof.
  intros Hp (m & e & -> & Hd & He). rewrite exact_pos.
  destruct (mantissa_bounds (Zpos m) e) as [B1 B2]; [lia|].
  rewrite Hd in B1, B2. split.
  - eapply Qle_trans; [|exact B1]. apply pow2_le. lia.
  - eapply Qlt_le_trans; [exact B2|]. apply pow2_le. lia.
Qed.

Section RoundTo.

Variables prec emax : Z.
Hypothesis Hprec : (0 < prec)%Z.

(** Rounding a positive integer multiple of a power of two that has
    enough digits. *)
Lemma binary_round_within (p : positive) (E : Z) :
  (prec <= Zdigits2 (Zpos p))%Z ->
  (emin prec emax <= Zdigits2 (Zpos p) + E - prec)%Z ->
  (Zdigits2 (Zpos p) + E < emax)%Z ->
  normal prec emax (binary_round prec emax false p E) /\
  within (1 + step prec) (exact (binary_round prec emax false p E))
    (inject_Z (Zpos p) * 2 ^ E).
Proof.
  intros Hd Hlo Hhi. unfold binary_round.
  rewrite shl_align_none.
  2:{ unfold fexp. change (Zpos (digits2_pos p)) with (Zdigits2 (Zpos p)). lia. }
  apply round_aux_within; try assumption; try lia.
  - apply Qle_refl.
  - apply Qmult_le_compat_r; [apply inject_Z_le; lia|].
    apply Qlt_le_weak, pow2_pos.
Qed.

End RoundTo.

Lemma audible_finite (s : bool) (m : positive) (e : Z) :
  audible (S754_finite s m e) = true ->
  Zdigits2 (Zpos m) = prec32 /\ (-73 <= e <= 26)%Z.
Proof.
  cbn [audible]. rewrite !andb_true_iff, Z.eqb_eq, !Z.leb_le. tauto.
Qed.

Lemma exact_square (s : bool) (m : positive) (e : Z) :
  exact (S754_finite s m e) * exact (S754_finite s m e) ==
  inject_Z (Zpos (m * m)) * 2 ^ (e + e).
Proof.
  cbn [exact]. rewrite Pos2Z.inj_mul, inject_Z_mult, pow2_add.
  destruct s; ring.
Qed.

(** A square: exactly zero, or a normal number next to the exact
    square. *)
Lemma square_spec (x : spec_float) :
  audible x = true ->
  (exact x == 0 /\ mul32 x x = S754_zero false) \/
  (normal prec32 emax32 (mul32 x x) /\
   within (1 + step prec32) (exact (mul32 x x)) (exact x * exact x) /\
   2 ^ (-100) <= exact x * exact x /\ exact x * exact x <= 2 ^ 100).
Proof.
  destruct x as [s|s| |s m e]; try discriminate.
  - intros _. left. split; [reflexivity|]. now destruct s.
  - intros Ha. right.
    destruct (audible_finite _ _ _ Ha) as [Hd He].
    unfold mul32, SFmul.
    replace (xorb s s) with false by now destruct s.
    set (M := Zpos (m * m)).
    assert (HM : (0 < M)%Z) by (unfold M; lia).
    assert (Hm : (2 ^ 23 <= Zpos m < 2 ^ 24)%Z).
    { pose proof (Zdigits2_bounds (Zpos m) ltac:(lia)) as B.
      rewrite Hd in B. exact B. }
    assert (HMb : (2 ^ 46 <= M < 2 ^ 48)%Z).
    { unfold M. rewrite Pos2Z.inj_mul.
      change (2 ^ 46)%Z with (2 ^ 23 * 2 ^ 23)%Z.
      change (2 ^ 48)%Z with (2 ^ 24 * 2 ^ 24)%Z. nia. }
    destruct (digits_range M 46 48 HM ltac:(lia) HMb) as [D1 D2].
    pose proof (exact_square s m e) as Hsq. fold M in Hsq.
    destruct (mantissa_bounds M (e + e) HM) as [B1 B2].
    destruct (round_aux_within prec32 emax32 ltac:(reflexivity) M (e + e)
                loc_Exact (exact (S754_finite s m e) * exact (S754_finite s m e)))
      as [N W]; try assumption.
    + unfold prec32; lia.
    + unfold emin, prec32, emax32; lia.
    + unfold emax32; lia.
    + rewrite Hsq. apply Qle_refl.
    + rewrite Hsq. apply Qmult_le_compat_r; [apply inject_Z_le; lia|].
      apply Qlt_le_weak, pow2_pos.
    + split; [exact N|]. split; [exact W|]. rewrite Hsq. split.
      * eapply Qle_trans; [|exact B1]. apply pow2_le. lia.
      * apply Qlt_le_weak. eapply Qlt_le_trans; [exact B2|].
        apply pow2_le. lia.
Qed.

(** The sum of two positive normal numbers. *)
Lemma add_spec (a b : spec_float) :
  normal prec32 emax32 a -> normal prec32 emax32 b ->
  exact a + exact b < 2 ^ 127 ->
  normal prec32 emax32 (add32 a b) /\
  within (1 + step prec32) (exact (add32 a b)) (exact a + exact b).
Proof.
  intros (m1 & e1 & -> & D1 & E1) (m2 & e2 & -> & D2 & E2) Hsum.
  unfold add32, SFadd. cbn [cond_Zopp].
  set (ez := Z.min e1 e2).
  assert (Hz1 : (ez <= e1)%Z) by (unfold ez; lia).
  assert (Hz2 : (ez <= e2)%Z) by (unfold ez; lia).
  pose proof (shl_align_fst m1 e1 ez Hz1) as A1.
  pose proof (shl_align_fst m2 e2 ez Hz2) as A2.
  set (p1 := fst (shl_align m1 e1 ez)) in *.
  set (p2 := fst (shl_align m2 e2 ez)) in *.
  change (Zpos p1 + Zpos p2)%Z with (Zpos (p1 + p2)).
  cbn [binary_normalize].
  assert (Hm1 : (2 ^ 23 <= Zpos m1 < 2 ^ 24)%Z).
  { pose proof (Zdigits2_bounds (Zpos m1) ltac:(lia)) as B.
    rewrite D1 in B. exact B. }
  assert (Hm2 : (2 ^ 23 <= Zpos m2 < 2 ^ 24)%Z).
  { pose proof (Zdigits2_bounds (Zpos m2) ltac:(lia)) as B.
    rewrite D2 in B. exact B. }
  assert (Hp1 : (1 <= 2 ^ (e1 - ez))%Z)
    by (pose proof (Z.pow_pos_nonneg 2 (e1 - ez)); lia).
  assert (Hp2 : (1 <= 2 ^ (e2 - ez))%Z)
    by (pose proof (Z.pow_pos_nonneg 2 (e2 - ez)); lia).
  assert (HM : (2 ^ 23 <= Zpos (p1 + p2))%Z).
  { rewrite Pos2Z.inj_add, A1, A2. nia. }
  assert (Hv : exact (S754_finite false m1 e1) + exact (S754_finite false m2 e2)
               == inject_Z (Zpos (p1 + p2)) * 2 ^ ez).
  { rewrite !exact_pos, Pos2Z.inj_add, A1, A2.
    rewrite inject_Z_plus, !inject_Z_mult, !pow2_inject by lia.
    replace e1 with ((e1 - ez) + ez)%Z at 1 by lia.
    replace e2 with ((e2 - ez) + ez)%Z at 1 by lia.
    rewrite !pow2_add. ring. }
  assert (Hd : (23 < Zdigits2 (Zpos (p1 + p2)))%Z).
  { pose proof (Zdigits2_bounds (Zpos (p1 + p2)) ltac:(lia)) as [_ B].
    apply (Z.pow_lt_mono_r_iff 2); try lia.
    pose proof (Zdigits2_pos (Zpos (p1 + p2))). lia. }
  assert (Hhi : (Zdigits2 (Zpos (p1 + p2)) + ez < 128)%Z).
  { destruct (mantissa_bounds (Zpos (p1 + p2)) ez ltac:(lia)) as [B _].
    rewrite Hv in Hsum.
    assert (H : 2 ^ (Zdigits2 (Zpos (p1 + p2)) - 1 + ez) < 2 ^ 127)
      by (eapply Qle_lt_trans; eassumption).
    apply pow2_lt_inv in H. lia. }
  destruct (binary_round_within prec32 emax32 ltac:(reflexivity) (p1 + p2) ez)
    as [N W].
  - unfold prec32; lia.
  - unfold emin, prec32, emax32 in *; lia.
  - unfold emax32; lia.
  - split; [exact N|]. unfold within in *. rewrite Hv. exact W.
Qed.

(** The quotient that [SFdiv] rounds. *)
Lemma div_core_spec (prec emax m1 e1 m2 e2 : Z) :
  let e' := Z.min (fexp prec emax (Zdigits2 m1 + e1 - (Zdigits2 m2 + e2)))
                  (e1 - e2) in
  exists l,
    SFdiv_core_binary prec emax m1 e1 m2 e2 =
      ((m1 * 2 ^ (e1 - e2 - e') / m2)%Z, e', l).
Proof.
  intros e'. unfold SFdiv_core_binary. fold e'.
  assert (Hs : (0 <= e1 - e2 - e')%Z) by (unfold e'; lia).
  assert (Hm : match (e1 - e2 - e')%Z with
               | Zpos _ => Z.shiftl m1 (e1 - e2 - e')
               | Z0 => m1
               | Zneg _ => 0%Z
               end = (m1 * 2 ^ (e1 - e2 - e'))%Z).
  { destruct (e1 - e2 - e')%Z as [|p|p] eqn:E; try lia.
    rewrite Z.shiftl_mul_pow2 by lia. reflexivity. }
  rewrite Hm.
  unfold Z.div.
  destruct (Z.div_eucl (m1 * 2 ^ (e1 - e2 - e')) m2) as [q r].
  eexists. reflexivity.
Qed.

Lemma of_count_pos (n : nat) :
  (1 <= n)%nat -> of_count n = S754_finite false (Pos.of_nat n) 0 /\
                  Zpos (Pos.of_nat n) = Z.of_nat n.
Proof.
  intros Hn. destruct n as [|n]; [lia|]. split; [reflexivity|].
  rewrite <- positive_nat_Z, Nat2Pos.id by lia. reflexivity.
Qed.

Lemma step_pos (prec : Z) : 0 < step prec.
Proof. apply pow2_pos. Qed.

Lemma step_le (a b : Z) : (a <= b)%Z -> step b <= step a.
Proof. intros H. apply pow2_le. lia. Qed.

Lemma step_le_1 (prec : Z) : (1 <= prec)%Z -> step prec <= 1.
Proof.
  intros H. change 1 with (2 ^ 0). apply pow2_le. lia.
Qed.

Lemma within_trans (w1 w2 x y z : Q) :
  0 <= w1 -> 0 <= w2 ->
  within w1 x y -> within w2 y z -> within (w1 * w2) x z.
Proof.
  unfold within. intros H1 H2 [A1 A2] [B1 B2]. split.
  - apply Qle_trans with (y * w2); [exact B1|].
    setoid_replace (x * (w1 * w2)) with (x * w1 * w2) by ring.
    apply Qmult_le_compat_r; assumption.
  - apply Qle_trans with (y * w1); [exact A2|].
    setoid_replace (z * (w1 * w2)) with (z * w2 * w1) by ring.
    apply Qmult_le_compat_r; assumption.
Qed.

Lemma within_weaken (w w' x y : Q) :
  0 <= x -> 0 <= y -> w <= w' -> within w x y -> within w' x y.
Proof.
  unfold within. intros Hx Hy Hw [A1 A2]. split.
  - apply Qle_trans with (x * w); [exact A1|].
    rewrite !(Qmult_comm x). now apply Qmult_le_compat_r.
  - apply Qle_trans with (y * w); [exact A2|].
    rewrite !(Qmult_comm y). now apply Qmult_le_compat_r.
Qed.

(** The mean: the sum divided by the count in binary64, then rounded to
    binary32. *)
Lemma mean_spec (s : spec_float) (n : nat) :
  normal prec32 emax32 s ->
  (1 <= n)%nat -> (Z.of_nat n <= 2 ^ 20)%Z ->
  2 ^ (-124) <= exact s / inject_Z (Z.of_nat n) ->
  exact s / inject_Z (Z.of_nat n) <= 2 ^ 125 ->
  normal prec32 emax32 (to32 (div64 s (of_count n))) /\
  within ((1 + step prec32) * (1 + step prec32))
    (exact (to32 (div64 s (of_count n))))
    (exact s / inject_Z (Z.of_nat n)).
Proof.
  intros (m1 & e1 & -> & D1 & E1) Hn1 Hn2 Hlo Hhi.
  destruct (of_count_pos n Hn1) as [-> HN].
  set (N := Z.of_nat n) in *.
  assert (HN1 : (1 <= N)%Z) by (unfold N; lia).
  set (y := exact (S754_finite false m1 e1) / inject_Z N) in *.
  unfold div64, SFdiv. cbn [xorb].
  destruct (div_core_spec prec64 emax64 (Zpos m1) e1 (Zpos (Pos.of_nat n)) 0)
    as [l Hcore].
  rewrite Hcore. clear Hcore. rewrite HN.
  set (dn := Zdigits2 N).
  assert (Hdn : (0 < dn <= 21)%Z).
  { unfold dn. destruct (digits_range N 0 21 ltac:(lia) ltac:(lia)) as [A B].
    - split; [cbn; lia|]. eapply Z.le_lt_trans; [exact Hn2|]. reflexivity.
    - lia. }
  assert (He' : Z.min (fexp prec64 emax64 (Zdigits2 (Zpos m1) + e1 - (dn + 0)))
                      (e1 - 0) = (e1 - 29 - dn)%Z).
  { rewrite D1. unfold fexp, emin, prec64, emax64, prec32, emax32 in *. lia. }
  rewrite He'.
  replace (e1 - 0 - (e1 - 29 - dn))%Z with (29 + dn)%Z by lia.
  set (e' := (e1 - 29 - dn)%Z).
  set (q := (Zpos m1 * 2 ^ (29 + dn) / N)%Z).
  assert (Hm1 : (2 ^ 23 <= Zpos m1 < 2 ^ 24)%Z).
  { pose proof (Zdigits2_bounds (Zpos m1) ltac:(lia)) as B.
    rewrite D1 in B. exact B. }
  destruct (Zdigits2_bounds N ltac:(lia)) as [N1 N2]. fold dn in N1, N2.
  assert (Hpd : (0 < 2 ^ (dn - 1))%Z) by (apply Z.pow_pos_nonneg; lia).
  assert (Hpow : (2 ^ (29 + dn) = 2 ^ 30 * 2 ^ (dn - 1))%Z).
  { rewrite <- Z.pow_add_r by lia. f_equal. lia. }
  assert (Hpd2 : (2 ^ dn = 2 * 2 ^ (dn - 1))%Z).
  { rewrite <- Z.pow_succ_r by lia. f_equal. lia. }
  assert (Hq : (2 ^ 52 <= q < 2 ^ 54)%Z).
  { unfold q. rewrite Hpow. split.
    - apply Z.div_le_lower_bound; [lia|].
      change (2 ^ 52)%Z with (2 ^ 23 * 2 ^ 29)%Z.
      change (2 ^ 30)%Z with (2 ^ 29 * 2)%Z. nia.
    - apply Z.div_lt_upper_bound; [lia|].
      change (2 ^ 54)%Z with (2 ^ 24 * 2 ^ 30)%Z. nia. }
  assert (Hq0 : (0 < q)%Z) by lia.
  destruct (digits_range q 52 54 Hq0 ltac:(lia) Hq) as [Q1 Q2].
  (* the quotient lies between [q] and [q + 1] *)
  assert (HqN : (q * N <= Zpos m1 * 2 ^ (29 + dn) < (q + 1) * N)%Z).
  { unfold q. pose proof (Z.div_mod (Zpos m1 * 2 ^ (29 + dn)) N ltac:(lia)).
    pose proof (Z.mod_pos_bound (Zpos m1 * 2 ^ (29 + dn)) N ltac:(lia)). nia. }
  assert (HiN : 0 < inject_Z N) by (apply (inject_Z_lt 0); lia).
  assert (Hy : y == inject_Z (Zpos m1 * 2 ^ (29 + dn)) / inject_Z N * 2 ^ e').
  { unfold y. rewrite exact_pos, inject_Z_mult, pow2_inject by lia.
    replace e1 with ((29 + dn) + e')%Z at 1 by (unfold e'; lia).
    rewrite pow2_add. field. intros H. rewrite H in HiN. now apply Qlt_irrefl in HiN. }
  assert (Hy1 : inject_Z q * 2 ^ e' <= y).
  { rewrite Hy. apply Qmult_le_compat_r; [|apply Qlt_le_weak, pow2_pos].
    apply Qle_shift_div_l; [exact HiN|].
    rewrite <- inject_Z_mult. apply inject_Z_le. lia. }
  assert (Hy2 : y <= inject_Z (q + 1) * 2 ^ e').
  { rewrite Hy. apply Qmult_le_compat_r; [|apply Qlt_le_weak, pow2_pos].
    apply Qle_shift_div_r; [exact HiN|].
    rewrite <- inject_Z_mult. apply inject_Z_le. lia. }
  destruct (round_aux_within prec64 emax64 ltac:(reflexivity) q e' l y)
    as [(m64 & e64 & ED & DD & EE) W64]; try assumption.
  { unfold prec64; lia. }
  { unfold emin, prec64, emax64, prec32, emax32, e' in *; lia. }
  { unfold emax64, emin, prec32, emax32, e' in *; lia. }
  rewrite ED in *. cbn [to32].
  (* the binary64 quotient is in the range of binary32 *)
  pose proof (step_pos prec64) as U0.
  pose proof (step_le_1 prec64 ltac:(unfold prec64; lia)) as U1.
  set (D := exact (S754_finite false m64 e64)) in *.
  assert (HDv : D == inject_Z (Zpos m64) * 2 ^ e64) by apply exact_pos.
  destruct W64 as [W1 W2].
  assert (Hy0 : 0 < y).
  { eapply Qlt_le_trans; [apply (pow2_pos (-124))|exact Hlo]. }
  destruct (mantissa_bounds (Zpos m64) e64 ltac:(lia)) as [B1 B2].
  rewrite DD in B1, B2. rewrite <- HDv in B1, B2.
  assert (HD0 : 0 < D).
  { eapply Qlt_le_trans; [apply pow2_pos|exact B1]. }
  assert (HDlo : 2 ^ (-125) <= D).
  { assert (H2 : 2 ^ (-124) == 2 * 2 ^ (-125)) by reflexivity.
    set (a := 2 ^ (-125)) in *. set (b := 2 ^ (-124)) in *.
    set (u := step prec64) in *. nra. }
  assert (HDhi : D <= 2 ^ 126).
  { assert (H2 : 2 ^ 126 == 2 * 2 ^ 125) by reflexivity.
    set (a := 2 ^ 125) in *. set (b := 2 ^ 126) in *.
    set (u := step prec64) in *. nra. }
  assert (Hr1 : (-125 < prec64 + e64)%Z).
  { apply pow2_lt_inv. eapply Qle_lt_trans; eassumption. }
  assert (Hr2 : (prec64 - 1 + e64 <= 126)%Z).
  { apply (Qpower_le_compat_l_inv 2); [|reflexivity].
    eapply Qle_trans; eassumption. }
  destruct (binary_round_within prec32 emax32 ltac:(reflexivity) m64 e64)
    as [N32 W32].
  { rewrite DD. unfold prec32, prec64. lia. }
  { rewrite DD. unfold emin, prec32, emax32, prec64 in *. lia. }
  { rewrite DD. unfold emax32, prec64 in *. lia. }
  split; [exact N32|].
  unfold within in W32. rewrite <- HDv in W32.
  apply within_weaken with ((1 + step prec32) * (1 + step prec64)).
  - destruct N32 as (m' & e'' & -> & _). rewrite exact_pos.
    apply Qmult_le_0_compat; [apply (inject_Z_le 0); lia|].
    apply Qlt_le_weak, pow2_pos.
  - now apply Qlt_le_weak.
  - pose proof (step_pos prec32). pose proof (step_le prec32 prec64
      ltac:(unfold prec32, prec64; lia)).
    set (u := step prec32) in *. set (v := step prec64) in *. nra.
  - apply within_trans with D.
    + pose proof (step_pos prec32). lra.
    + lra.
    + exact W32.
    + split; assumption.
Qed.

(** The integer root that [SFsqrt] rounds. *)
Lemma sqrt_core_spec (prec emax m e : Z) :
  let e' := Z.min (fexp prec emax (Z.div2 (Zdigits2 m + e + 1))) (Z.div2 e) in
  exists l,
    SFsqrt_core_binary prec emax m e = (Z.sqrt (m * 2 ^ (e - 2 * e')), e', l).
Proof.
  intros e'. unfold SFsqrt_core_binary. fold e'.
  assert (Hs : (0 <= e - 2 * e')%Z).
  { unfold e'. rewrite (Z.div2_div e).
    pose proof (Z.mul_div_le e 2 ltac:(lia)). lia. }
  assert (Hm : match (e - 2 * e')%Z with
               | Zpos _ => Z.shiftl m (e - 2 * e')
               | Z0 => m
               | Zneg _ => 0%Z
               end = (m * 2 ^ (e - 2 * e'))%Z).
  { destruct (e - 2 * e')%Z as [|p|p] eqn:E; try lia.
    rewrite Z.shiftl_mul_pow2 by lia. reflexivity. }
  rewrite Hm.
  rewrite <- (Z.sqrtrem_sqrt (m * 2 ^ (e - 2 * e'))).
  destruct (Z.sqrtrem (m * 2 ^ (e - 2 * e'))) as [q r]. cbn [fst].
  eexists. reflexivity.
Qed.

(** The root of a positive normal number. *)
Lemma sqrt_spec (x : spec_float) :
  normal prec32 emax32 x ->
  normal prec32 emax32 (sqrt32 x) /\
  within ((1 + step prec32) * (1 + step prec32))
    (exact (sqrt32 x) * exact (sqrt32 x)) (exact x).
Proof.
  intros (m & e & -> & D & E).
  unfold sqrt32, SFsqrt.
  destruct (sqrt_core_spec prec32 emax32 (Zpos m) e) as [l Hcore].
  rewrite Hcore. clear Hcore. rewrite D.
  set (h := Z.div2 (prec32 + e + 1)).
  assert (Hh : (2 * h <= e + 25 <= 2 * h + 1)%Z).
  { unfold h, prec32. rewrite Z.div2_div.
    pose proof (Z.div_mod (24 + e + 1) 2 ltac:(lia)).
    pose proof (Z.mod_pos_bound (24 + e + 1) 2 ltac:(lia)). lia. }
  assert (He2 : (2 * Z.div2 e <= e <= 2 * Z.div2 e + 1)%Z).
  { rewrite Z.div2_div.
    pose proof (Z.div_mod e 2 ltac:(lia)).
    pose proof (Z.mod_pos_bound e 2 ltac:(lia)). lia. }
  assert (He' : Z.min (fexp prec32 emax32 h) (Z.div2 e) = (h - 24)%Z).
  { unfold fexp, emin, prec32, emax32 in *. lia. }
  rewrite He'.
  set (e' := (h - 24)%Z).
  set (s := (e - 2 * e')%Z).
  assert (Hs : (s = 23 \/ s = 24)%Z) by (unfold s, e'; lia).
  set (m' := (Zpos m * 2 ^ s)%Z).
  set (q := Z.sqrt m').
  assert (Hm : (2 ^ 23 <= Zpos m < 2 ^ 24)%Z).
  { pose proof (Zdigits2_bounds (Zpos m) ltac:(lia)) as B.
    rewrite D in B. exact B. }
  assert (Hm' : (2 ^ 46 <= m' < 2 ^ 48)%Z).
  { unfold m'. change (2 ^ 46)%Z with (2 ^ 23 * 2 ^ 23)%Z.
    change (2 ^ 48)%Z with (2 ^ 24 * 2 ^ 24)%Z.
    destruct Hs as [-> | ->]; nia. }
  pose proof (Z.sqrt_spec m' ltac:(lia)) as Hq. fold q in Hq. cbv zeta in Hq.
  assert (Hqb : (2 ^ 23 <= q < 2 ^ 24)%Z).
  { change (2 ^ 46)%Z with (2 ^ 23 * 2 ^ 23)%Z in Hm'.
    change (2 ^ 48)%Z with (2 ^ 24 * 2 ^ 24)%Z in Hm'.
    pose proof (Z.sqrt_nonneg m'). fold q in H. split; nia. }
  assert (Hq0 : (0 < q)%Z) by lia.
  assert (Hdq : Zdigits2 q = prec32).
  { apply Zdigits2_unique; [exact Hq0|]. exact Hqb. }
  set (P := 2 ^ e').
  assert (HP : 0 < P) by apply pow2_pos.
  set (a := inject_Z q * P).
  set (b := inject_Z (q + 1) * P).
  assert (Hab : a <= b).
  { unfold a, b. apply Qmult_le_compat_r; [apply inject_Z_le; lia|].
    now apply Qlt_le_weak. }
  destruct (round_aux_within prec32 emax32 ltac:(reflexivity) q e' l a)
    as [N Wa]; try assumption.
  { rewrite Hdq. lia. }
  { rewrite Hdq. unfold emin, prec32, emax32, e' in *. lia. }
  { rewrite Hdq. unfold emin, prec32, emax32, e' in *. lia. }
  { apply Qle_refl. }
  destruct (round_aux_within prec32 emax32 ltac:(reflexivity) q e' l b)
    as [_ Wb]; try assumption.
  { rewrite Hdq. lia. }
  { rewrite Hdq. unfold emin, prec32, emax32, e' in *. lia. }
  { rewrite Hdq. unfold emin, prec32, emax32, e' in *. lia. }
  { apply Qle_refl. }
  split; [exact N|].
  set (v := exact (binary_round_aux prec32 emax32 false q e' l)) in *.
  assert (Hx : exact (S754_finite false m e) == inject_Z m' * (P * P)).
  { rewrite exact_pos. unfold m', P.
    rewrite inject_Z_mult, pow2_inject by lia.
    replace e with (s + (e' + e'))%Z at 1 by (unfold s; lia).
    rewrite !pow2_add. ring. }
  assert (Ha2 : a * a <= exact (S754_finite false m e)).
  { rewrite Hx. unfold a.
    setoid_replace (inject_Z q * P * (inject_Z q * P))
      with (inject_Z (q * q) * (P * P)) by (rewrite inject_Z_mult; ring).
    apply Qmult_le_compat_r; [apply inject_Z_le; lia|].
    apply Qlt_le_weak. now apply Qmult_lt_0_compat. }
  assert (Hb2 : exact (S754_finite false m e) <= b * b).
  { rewrite Hx. unfold b.
    setoid_replace (inject_Z (q + 1) * P * (inject_Z (q + 1) * P))
      with (inject_Z ((q + 1) * (q + 1)) * (P * P))
      by (rewrite inject_Z_mult; ring).
    apply Qmult_le_compat_r; [apply inject_Z_le; lia|].
    apply Qlt_le_weak. now apply Qmult_lt_0_compat. }
  assert (Ha0 : 0 < a).
  { unfold a. apply Qmult_lt_0_compat; [apply (inject_Z_lt 0); lia|exact HP]. }
  pose proof (step_pos prec32) as U0.
  destruct Wa as [Wa1 Wa2]. destruct Wb as [Wb1 Wb2].
  set (x := exact (S754_finite false m e)) in *.
  set (u := step prec32) in *.
  assert (Hv0 : 0 < v) by nra.
  unfold within. split.
  - (* x <= b^2 <= (v (1+u))^2 *)
    assert (H1 : b * b <= (v * (1 + u)) * (v * (1 + u))) by nra.
    nra.
  - (* v^2 <= (a (1+u))^2 <= x (1+u)^2 *)
    assert (H1 : v * v <= (a * (1 + u)) * (a * (1 + u))) by nra.
    assert (H2 : a * a * ((1 + u) * (1 + u)) <= x * ((1 + u) * (1 + u))).
    { apply Qmult_le_compat_r; [exact Ha2|]. nra. }
    nra.
Qed.

(** The comparison reads the values. *)
Lemma gt_exact_spec (a t : spec_float) :
  threshold a = true -> threshold t = true ->
  (gt_exact a t = true <-> exact t < exact a).
Proof.
  assert (Hpos : forall m e, 0 < exact (S754_finite false m e)).
  { intros m e. rewrite exact_pos.
    apply Qmult_lt_0_compat; [apply (inject_Z_lt 0); lia|apply pow2_pos]. }
  destruct a as [sa|sa| |sa ma ea]; try discriminate;
    destruct t as [st|st| |st mt et]; try discriminate;
    try (destruct sa; try discriminate); try (destruct st; try discriminate);
    intros _ _; unfold gt_exact, compare_exact; cbn [SFcompare exact].
  - split; [discriminate|]. intros H. now apply Qlt_irrefl in H.
  - split; [discriminate|]. intros H. now apply Qlt_irrefl in H.
  - split; [discriminate|]. intros H. now apply Qlt_irrefl in H.
  - split; [discriminate|]. intros H. now apply Qlt_irrefl in H.
  - split; [discriminate|]. intros H. exfalso.
    pose proof (Hpos mt et) as H0. cbn [exact] in H0.
    apply (Qlt_irrefl 0). eapply Qlt_trans; eassumption.
  - split; [discriminate|]. intros H. exfalso.
    pose proof (Hpos mt et) as H0. cbn [exact] in H0.
    apply (Qlt_irrefl 0). eapply Qlt_trans; eassumption.
  - split; [intros _|reflexivity]. apply (Hpos ma ea).
  - split; [intros _|reflexivity]. apply (Hpos ma ea).
  - set (ez := Z.min ea et). unfold aligned. cbn [cond_Zopp].
    assert (Ha : exact (S754_finite false ma ea) ==
                 inject_Z (Zpos ma * 2 ^ (ea - ez)) * 2 ^ ez).
    { rewrite exact_pos, inject_Z_mult, pow2_inject by (unfold ez; lia).
      replace ea with ((ea - ez) + ez)%Z at 1 by lia.
      rewrite pow2_add. ring. }
    assert (Ht : exact (S754_finite false mt et) ==
                 inject_Z (Zpos mt * 2 ^ (et - ez)) * 2 ^ ez).
    { rewrite exact_pos, inject_Z_mult, pow2_inject by (unfold ez; lia).
      replace et with ((et - ez) + ez)%Z at 1 by lia.
      rewrite pow2_add. ring. }
    fold (exact (S754_finite false ma ea)).
    fold (exact (S754_finite false mt et)).
    rewrite Ha, Ht.
    set (A := (Zpos ma * 2 ^ (ea - ez))%Z).
    set (T := (Zpos mt * 2 ^ (et - ez))%Z).
    pose proof (pow2_pos ez) as HP.
    destruct (Z.compare_spec A T) as [H|H|H].
    + split; [discriminate|]. rewrite H. intros C. now apply Qlt_irrefl in C.
    + split; [discriminate|]. intros C. exfalso.
      apply inject_Z_lt in H.
      assert (inject_Z A * 2 ^ ez < inject_Z T * 2 ^ ez)
        by (apply Qmult_lt_compat_r; assumption).
      apply (Qlt_irrefl (inject_Z A * 2 ^ ez)). eapply Qlt_trans; eassumption.
    + split; [intros _|reflexivity].
      apply Qmult_lt_compat_r; [exact HP|]. now apply inject_Z_lt.
Qed.

(** *** The factor of [k] roundings *)

Lemma band_pos (k : nat) : 0 < band k.
Proof.
  unfold band. apply Qpower_0_lt. pose proof (step_pos prec32). lra.
Qed.

Lemma band_0 : band 0 == 1.
Proof. reflexivity. Qed.

Lemma band_add (a b : nat) : band (a + b) == band a * band b.
Proof.
  unfold band. rewrite Nat2Z.inj_add. apply Qpower_plus.
  pose proof (step_pos prec32). lra.
Qed.

Lemma band_1 : band 1 == 1 + step prec32.
Proof. reflexivity. Qed.

Lemma band_S (k : nat) : band (S k) == band k * (1 + step prec32).
Proof.
  replace (S k) with (k + 1)%nat by lia. rewrite band_add, band_1. reflexivity.
Qed.

Lemma band_ge_1 (k : nat) : 1 <= band k.
Proof.
  unfold band. apply Qpower_1_le; [|lia].
  pose proof (step_pos prec32). lra.
Qed.

Lemma band_mono (a b : nat) : (a <= b)%nat -> band a <= band b.
Proof.
  intros H. unfold band. apply Qpower_le_compat_l; [lia|].
  pose proof (step_pos prec32). lra.
Qed.

(** Up to [2^21] roundings move a quantity by less than a factor 2. *)
Lemma band_bernoulli (k : nat) :
  2 * inject_Z (Z.of_nat k) * step prec32 <= 1 ->
  band k <= 1 + 2 * inject_Z (Z.of_nat k) * step prec32.
Proof.
  pose proof (step_pos prec32) as U.
  induction k as [|k IH]; intros Hk.
  - rewrite band_0. change (inject_Z (Z.of_nat 0)) with 0. lra.
  - rewrite Nat2Z.inj_succ in *. unfold Z.succ in *.
    rewrite inject_Z_plus in *. change (inject_Z 1) with 1 in *.
    assert (H0 : 0 <= inject_Z (Z.of_nat k)) by (apply (inject_Z_le 0); lia).
    set (x := inject_Z (Z.of_nat k)) in *. set (u := step prec32) in *.
    assert (Hk' : 2 * x * u <= 1) by nra.
    specialize (IH Hk'). rewrite band_S. fold u.
    pose proof (band_pos k) as Bp. set (bk := band k) in *.
    assert (H1 : bk * (1 + u) <= (1 + 2 * x * u) * (1 + u)) by nra.
    nra.
Qed.

Lemma band_le_2 (k : nat) : (Z.of_nat k <= 2 ^ 21)%Z -> band k <= 2.
Proof.
  intros Hk.
  assert (H : 2 * inject_Z (Z.of_nat k) * step prec32 <= 1 # 2).
  { apply inject_Z_le in Hk.
    assert (Hs : step prec32 == 1 # 8388608) by reflexivity.
    assert (Hp : inject_Z (2 ^ 21) == 2097152) by reflexivity.
    rewrite Hs. rewrite Hp in Hk. lra. }
  pose proof (band_bernoulli k ltac:(lra)). lra.
Qed.

(** *** Sums *)

Lemma within_add (w x y x' y' : Q) :
  within w x y -> within w x' y' -> within w (x + x') (y + y').
Proof. unfold within. intros [A B] [C D]. split; lra. Qed.

Lemma within_eq (w w' x x' y y' : Q) :
  w == w' -> x == x' -> y == y' -> within w x y -> within w' x' y'.
Proof. unfold within. intros -> -> ->. tauto. Qed.

Lemma summed_eq (n : nat) (x : spec_float) (S S' : Q) :
  S == S' -> summed n x S -> summed n x S'.
Proof.
  intros E [[Z0 Hz]|(Hn & N & W & L & H)].
  - left. split; [now rewrite <- E|exact Hz].
  - right. split; [exact Hn|]. split; [exact N|].
    split; [|split; now rewrite <- E].
    unfold within in *. now rewrite <- E.
Qed.

Lemma normal_pos (x : spec_float) : normal prec32 emax32 x -> 0 < exact x.
Proof.
  intros (m & e & -> & _). rewrite exact_pos.
  apply Qmult_lt_0_compat; [apply (inject_Z_lt 0); lia|apply pow2_pos].
Qed.

Lemma summed_more (n n' : nat) (x : spec_float) (S : Q) :
  (n <= n')%nat -> summed n x S -> summed n' x S.
Proof.
  intros Hn [H|(H1 & N & W & L & H)]; [now left|right].
  split; [lia|]. split; [exact N|].
  assert (HS : 0 < S) by (eapply Qlt_le_trans; [apply (pow2_pos (-100))|exact L]).
  split; [|split; [exact L|]].
  - apply within_weaken with (band n); try assumption.
    + apply Qlt_le_weak. now apply normal_pos.
    + now apply Qlt_le_weak.
    + now apply band_mono.
  - eapply Qle_trans; [exact H|].
    apply Qmult_le_compat_r; [apply inject_Z_le; lia|].
    apply Qlt_le_weak, pow2_pos.
Qed.

(** Two partial sums added. *)
Lemma summed_add (n1 n2 : nat) (a b : spec_float) (A B : Q) :
  (Z.of_nat (n1 + n2) <= 2 ^ 20)%Z ->
  summed n1 a A -> summed n2 b B ->
  summed (n1 + n2) (add32 a b) (A + B).
Proof.
  intros Hn [[A0 [sa ->]]|(Ha1 & Na & Wa & La & Ha)]
            [[B0 [sb ->]]|(Hb1 & Nb & Wb & Lb & Hb)].
  - left. split; [rewrite A0, B0; reflexivity|].
    unfold add32, SFadd. destruct sa, sb; eauto.
  - apply summed_eq with B; [rewrite A0; ring|].
    destruct Nb as (m & e & -> & Nb). unfold add32, SFadd.
    apply summed_more with n2; [lia|].
    right. split; [exact Hb1|]. split; [exists m, e; split; [reflexivity|exact Nb]|].
    split; [exact Wb|]. split; assumption.
  - apply summed_eq with A; [rewrite B0; ring|].
    destruct Na as (m & e & -> & Na). unfold add32, SFadd.
    apply summed_more with n1; [lia|].
    right. split; [exact Ha1|]. split; [exists m, e; split; [reflexivity|exact Na]|].
    split; [exact Wa|]. split; assumption.
  - pose proof (normal_pos a Na) as Pa. pose proof (normal_pos b Nb) as Pb.
    pose proof (band_le_2 n1 ltac:(lia)) as B1.
    pose proof (band_le_2 n2 ltac:(lia)) as B2.
    pose proof (band_ge_1 n1) as G1. pose proof (band_ge_1 n2) as G2.
    assert (HA : 0 < A) by (eapply Qlt_le_trans; [apply (pow2_pos (-100))|exact La]).
    assert (HB : 0 < B) by (eapply Qlt_le_trans; [apply (pow2_pos (-100))|exact Lb]).
    assert (HN : inject_Z (Z.of_nat n1) + inject_Z (Z.of_nat n2) <= 1048576).
    { rewrite <- inject_Z_plus, <- Nat2Z.inj_add.
      change 1048576 with (inject_Z (2 ^ 20)). now apply inject_Z_le. }
    assert (Hsum : exact a + exact b < 2 ^ 127).
    { destruct Wa as [_ Wa]. destruct Wb as [_ Wb].
      assert (P100 : 0 < 2 ^ 100) by apply pow2_pos.
      assert (E127 : 2 ^ 127 == 134217728 * 2 ^ 100) by reflexivity.
      rewrite E127.
      set (p := 2 ^ 100) in *. set (x1 := inject_Z (Z.of_nat n1)) in *.
      set (x2 := inject_Z (Z.of_nat n2)) in *.
      set (b1 := band n1) in *. set (b2 := band n2) in *.
      assert (exact a <= 2 * A) by nra.
      assert (exact b <= 2 * B) by nra.
      assert (2 * A + 2 * B <= 2 * (x1 + x2) * p) by nra.
      assert (2 * (x1 + x2) * p <= 2097152 * p) by nra.
      nra. }
    destruct (add_spec a b Na Nb Hsum) as [N W].
    right. split; [lia|]. split; [exact N|].
    split; [|split].
    + (* one more rounding on top of the larger of the two counts *)
      set (k := Nat.max n1 n2).
      assert (Wk : within (band k) (exact a + exact b) (A + B)).
      { apply within_add.
        - apply within_weaken with (band n1); try assumption;
            try (now apply Qlt_le_weak). apply band_mono. unfold k. lia.
        - apply within_weaken with (band n2); try assumption;
            try (now apply Qlt_le_weak). apply band_mono. unfold k. lia. }
      pose proof (step_pos prec32) as U.
      pose proof (band_pos k) as Bk.
      assert (W1 : within ((1 + step prec32) * band k)
                     (exact (add32 a b)) (A + B)).
      { apply within_trans with (exact a + exact b); try assumption.
        - lra.
        - now apply Qlt_le_weak. }
      apply within_weaken with ((1 + step prec32) * band k); try assumption.
      * apply Qlt_le_weak. now apply normal_pos.
      * lra.
      * rewrite Qmult_comm, <- band_S. apply band_mono. unfold k. lia.
    + lra.
    + rewrite Nat2Z.inj_add, inject_Z_plus.
      assert (P100 : 0 < 2 ^ 100) by apply pow2_pos.
      set (p := 2 ^ 100) in *. nra.
Qed.

(** *** The pairwise sum *)

Lemma total_app (l1 l2 : list Q) : total (l1 ++ l2) == total l1 + total l2.
Proof.
  unfold total. induction l1 as [|x l1 IH]; cbn [app fold_right].
  - ring.
  - rewrite IH. ring.
Qed.

Lemma total_cons (x : Q) (l : list Q) : total (x :: l) == x + total l.
Proof. reflexivity. Qed.

Lemma total_nil : total [] == 0.
Proof. reflexivity. Qed.

Lemma total_split (k : nat) (V : list Q) :
  total V == total (firstn k V) + total (skipn k V).
Proof. rewrite <- total_app, firstn_skipn. reflexivity. Qed.

Lemma Forall2_firstn {A B : Type} (P : A -> B -> Prop) (k : nat)
    (l1 : list A) (l2 : list B) :
  Forall2 P l1 l2 -> Forall2 P (firstn k l1) (firstn k l2).
Proof.
  intros H. revert k. induction H; intros [|k]; cbn; constructor; auto.
Qed.

Lemma Forall2_skipn {A B : Type} (P : A -> B -> Prop) (k : nat)
    (l1 : list A) (l2 : list B) :
  Forall2 P l1 l2 -> Forall2 P (skipn k l1) (skipn k l2).
Proof.
  intros H. revert k. induction H; intros [|k]; cbn; auto; now constructor.
Qed.

Lemma total_plus8 (R B : list Q) :
  length R = length B -> total (plus8 R B) == total R + total B.
Proof.
  revert B. induction R as [|x R IH]; intros [|y B] H; try discriminate.
  - unfold plus8. cbn [combine map]. rewrite total_nil. ring.
  - injection H as H. unfold plus8 in *. cbn [combine map fst snd].
    rewrite !total_cons, (IH B H). ring.
Qed.

Lemma fold_summed (rest : list spec_float) (V : list Q) :
  Forall2 (summed 1) rest V ->
  forall acc k A,
    summed k acc A ->
    (Z.of_nat (k + length rest) <= 2 ^ 20)%Z ->
    summed (k + length rest) (fold_left add32 rest acc) (A + total V).
Proof.
  induction 1 as [|x v rest V Hx HV IH]; intros acc k A Hacc Hn.
  - cbn [fold_left length]. replace (k + 0)%nat with k by lia.
    apply summed_eq with A; [rewrite total_nil; ring|exact Hacc].
  - cbn [fold_left length] in *.
    replace (k + S (length rest))%nat with ((k + 1) + length rest)%nat in * by lia.
    apply summed_eq with ((A + v) + total V).
    { rewrite total_cons. ring. }
    apply IH; [|exact Hn].
    apply summed_add; [lia|exact Hacc|exact Hx].
Qed.

Lemma add8_summed (i : nat) (r : list spec_float) (R : list Q) :
  Forall2 (summed i) r R ->
  forall b B,
    Forall2 (summed 1) b B ->
    (Z.of_nat (i + 1) <= 2 ^ 20)%Z ->
    Forall2 (summed (i + 1)) (add8 r b) (plus8 R B).
Proof.
  induction 1 as [|x y r R Hx HR IH]; intros b B Hb Hn.
  - constructor.
  - destruct Hb as [|x' y' b B Hx' Hb]; [constructor|].
    unfold add8, plus8. cbn [combine map fst snd]. constructor.
    + now apply summed_add.
    + now apply IH.
Qed.

Lemma add8_length (r b : list spec_float) :
  length (add8 r b) = Nat.min (length r) (length b).
Proof. unfold add8. now rewrite length_map, length_combine. Qed.

Lemma unrolled_summed (k : nat) :
  forall i r R a V,
    Forall2 (summed i) r R -> length r = 8%nat ->
    Forall2 (summed 1) a V -> (8 * k <= length a)%nat ->
    (Z.of_nat (i + k) <= 2 ^ 20)%Z ->
    exists R' V',
      Forall2 (summed (i + k)) (fst (unrolled k r a)) R' /\
      length (fst (unrolled k r a)) = 8%nat /\
      Forall2 (summed 1) (snd (unrolled k r a)) V' /\
      length (snd (unrolled k r a)) = (length a - 8 * k)%nat /\
      total R' + total V' == total R + total V.
Proof.
  induction k as [|k IH]; intros i r R a V Hr Hlr Ha Hk Hn.
  - exists R, V. cbn [unrolled fst snd].
    replace (i + 0)%nat with i by lia.
    repeat split; try assumption; try lia; try reflexivity.
  - cbn [unrolled].
    pose proof (Forall2_length Hr) as LR.
    pose proof (Forall2_length Ha) as LV.
    assert (L8 : length (firstn 8 a) = 8%nat) by (rewrite length_firstn; lia).
    assert (L8' : length (firstn 8 V) = 8%nat) by (rewrite length_firstn; lia).
    destruct (IH (i + 1)%nat (add8 r (firstn 8 a)) (plus8 R (firstn 8 V))
                (skipn 8 a) (skipn 8 V)) as (R' & V' & H1 & H2 & H3 & H4 & H5).
    + apply add8_summed; [exact Hr|now apply Forall2_firstn|lia].
    + rewrite add8_length. lia.
    + now apply Forall2_skipn.
    + rewrite length_skipn. lia.
    + lia.
    + exists R', V'.
      replace (i + S k)%nat with (i + 1 + k)%nat by lia.
      split; [exact H1|]. split; [exact H2|]. split; [exact H3|].
      split; [rewrite H4, length_skipn; lia|].
      rewrite H5, total_plus8 by lia. rewrite (total_split 8 V). ring.
Qed.

Lemma tree8_summed (i : nat) (r : list spec_float) (R : list Q) :
  Forall2 (summed i) r R -> length r = 8%nat ->
  (Z.of_nat (8 * i) <= 2 ^ 20)%Z ->
  summed (8 * i) (tree8 r) (total R).
Proof.
  intros H L Hn.
  destruct r as [|r0 [|r1 [|r2 [|r3 [|r4 [|r5 [|r6 [|r7 [|]]]]]]]]];
    try discriminate.
  repeat match goal with
         | H : Forall2 _ (_ :: _) _ |- _ => inversion H; subst; clear H
         | H : Forall2 _ [] _ |- _ => inversion H; subst; clear H
         end.
  cbn [tree8].
  replace (8 * i)%nat
    with (((i + i) + (i + i)) + ((i + i) + (i + i)))%nat in * by lia.
  eapply summed_eq.
  2:{ repeat apply summed_add; try eassumption; lia. }
  rewrite !total_cons, total_nil. ring.
Qed.

Lemma block_summed (a : list spec_float) (V : list Q) :
  Forall2 (summed 1) a V -> (8 <= length a)%nat ->
  (Z.of_nat (length a) <= 2 ^ 20)%Z ->
  summed (length a) (block_sum a) (total V).
Proof.
  intros Ha H8 Hn. unfold block_sum.
  set (k := (length a / 8 - 1)%nat).
  pose proof (Nat.div_mod_eq (length a) 8) as Hdm.
  pose proof (Nat.mod_upper_bound (length a) 8 ltac:(lia)) as Hmod.
  assert (Hk : (8 * (k + 1) <= length a)%nat) by (unfold k; lia).
  pose proof (Forall2_length Ha) as LV.
  destruct (unrolled_summed k 1 (firstn 8 a) (firstn 8 V) (skipn 8 a) (skipn 8 V))
    as (R' & V' & H1 & H2 & H3 & H4 & H5).
  - now apply Forall2_firstn.
  - rewrite length_firstn. lia.
  - now apply Forall2_skipn.
  - rewrite length_skipn. lia.
  - lia.
  - destruct (unrolled k (firstn 8 a) (skipn 8 a)) as [r' rest].
    cbn [fst snd] in *. rewrite length_skipn in H4.
    replace (length a) with (8 * (1 + k) + length rest)%nat at 1 by lia.
    apply summed_eq with (total R' + total V').
    { rewrite H5. rewrite (total_split 8 V). reflexivity. }
    apply fold_summed; [exact H3| |lia].
    apply tree8_summed; [exact H1|exact H2|lia].
Qed.

Lemma pairwise_sum_eq (depth : nat) (a : list spec_float) :
  pairwise_sum depth a =
    if (length a <? 8)%nat then fold_left add32 a (S754_zero true)
    else if (length a <=? 128)%nat then block_sum a
    else
      match depth with
      | O => S754_nan
      | S depth' =>
          let n2 := (length a / 2 - (length a / 2) mod 8)%nat in
          add32 (pairwise_sum depth' (firstn n2 a))
                (pairwise_sum depth' (skipn n2 a))
      end.
Proof. destruct depth; reflexivity. Qed.

Lemma pairwise_summed (depth : nat) :
  forall a V,
    (length a <= depth)%nat ->
    Forall2 (summed 1) a V ->
    (Z.of_nat (length a) <= 2 ^ 20)%Z ->
    summed (length a) (pairwise_sum depth a) (total V).
Proof.
  induction depth as [|depth IH]; intros a V Hd Ha Hn;
    rewrite pairwise_sum_eq.
  - assert (length a = 0%nat) as E by lia. rewrite E. cbn [Nat.ltb Nat.leb].
    destruct a; [|discriminate]. inversion Ha; subst.
    left. split; [reflexivity|]. cbn. eauto.
  - destruct (Nat.ltb_spec (length a) 8) as [H8|H8].
    { replace (length a) with (0 + length a)%nat at 1 by lia.
      apply summed_eq with (0 + total V); [ring|].
      apply fold_summed; [exact Ha| |lia].
      left. split; [reflexivity|eauto]. }
    destruct (Nat.leb_spec (length a) 128) as [H128|H128].
    { now apply block_summed. }
    cbv zeta.
    set (n2 := (length a / 2 - (length a / 2) mod 8)%nat).
    pose proof (Nat.div_mod_eq (length a) 2) as Hdm.
    pose proof (Nat.mod_upper_bound (length a) 2 ltac:(lia)) as Hm2.
    pose proof (Nat.mod_upper_bound (length a / 2) 8 ltac:(lia)) as Hm8.
    assert (Hn2 : (1 <= n2 /\ n2 < length a)%nat) by (unfold n2; lia).
    pose proof (Forall2_length Ha) as LV.
    assert (L1 : length (firstn n2 a) = n2) by (rewrite length_firstn; lia).
    assert (L2 : length (skipn n2 a) = (length a - n2)%nat)
      by (rewrite length_skipn; lia).
    replace (length a) with (length (firstn n2 a) + length (skipn n2 a))%nat
      at 1 by lia.
    apply summed_eq with (total (firstn n2 V) + total (skipn n2 V)).
    { now rewrite <- total_split. }
    apply summed_add; [lia| |].
    + apply IH; [lia|now apply Forall2_firstn|lia].
    + apply IH; [lia|now apply Forall2_skipn|lia].
Qed.

Lemma umr_sum_summed (a : list spec_float) (V : list Q) :
  Forall2 (summed 1) a V ->
  (Z.of_nat (length a) <= 2 ^ 20)%Z ->
  summed (length a) (umr_sum a) (total V).
Proof.
  intros Ha Hn. unfold umr_sum.
  replace (length a) with (0 + length a)%nat at 1 by lia.
  apply summed_eq with (0 + total V); [ring|].
  apply summed_add; [lia| |].
  - left. split; [reflexivity|eauto].
  - now apply pairwise_summed.
Qed.

Lemma squares_summed (chunk : list spec_float) :
  forallb audible chunk = true ->
  Forall2 (summed 1) (map (fun x => mul32 x x) chunk)
    (map (fun x => exact x * exact x) chunk).
Proof.
  induction chunk as [|x chunk IH]; cbn [forallb map]; [constructor|].
  rewrite andb_true_iff. intros [Hx Hc]. constructor; [|now apply IH].
  destruct (square_spec x Hx) as [[E Z0]|(N & W & L & H)].
  - left. split; [rewrite E; ring|]. rewrite Z0. eauto.
  - right. split; [lia|]. split; [exact N|].
    split; [|split; [exact L|]].
    + eapply within_eq; [symmetry; apply band_1|reflexivity|reflexivity|exact W].
    + change (inject_Z (Z.of_nat 1)) with 1. lra.
Qed.

(** *** The detector *)

Lemma threshold_nonneg (t : spec_float) : threshold t = true -> 0 <= exact t.
Proof.
  destruct t as [s|s| |s m e]; intros H; try discriminate H.
  - apply Qle_refl.
  - destruct s; [discriminate|]. rewrite exact_pos.
    apply Qmult_le_0_compat; [apply (inject_Z_le 0); lia|].
    apply Qlt_le_weak, pow2_pos.
Qed.

Lemma normal_threshold (x : spec_float) :
  normal prec32 emax32 x -> threshold x = true.
Proof. intros (m & e & -> & _). reflexivity. Qed.

Lemma gt_exact_false (a t : spec_float) :
  threshold a = true -> threshold t = true ->
  exact a <= exact t -> gt_exact a t = false.
Proof.
  intros Ha Ht H. destruct (gt_exact a t) eqn:E; [|reflexivity].
  apply (gt_exact_spec a t Ha Ht) in E. exfalso.
  apply (Qlt_irrefl (exact t)). eapply Qlt_le_trans; eassumption.
Qed.

Lemma mean_square_eq (chunk : list spec_float) :
  mean_square chunk ==
  total (map (fun x => exact x * exact x) chunk)
  / inject_Z (Z.of_nat (length chunk)).
Proof. reflexivity. Qed.

(** The energy that the detector computes, against the exact one. *)
Lemma rms32_tracks (chunk : list spec_float) (t : spec_float) :
  (1 <= length chunk)%nat ->
  (Z.of_nat (length chunk) <= 2 ^ 20)%Z ->
  forallb audible chunk = true ->
  threshold t = true ->
  let voice :=
    gt_exact (sqrt32 (mean32 (map (fun x => mul32 x x) chunk))) t in
  (exact t * exact t * band (length chunk + 4) < mean_square chunk ->
   voice = true) /\
  (mean_square chunk * band (length chunk + 4) <= exact t * exact t ->
   voice = false).
Proof.
  intros Hn1 Hn2 Haud Ht voice.
  set (n := length chunk) in *.
  set (a := map (fun x => mul32 x x) chunk) in *.
  set (V := map (fun x => exact x * exact x) chunk).
  assert (La : length a = n) by (unfold a; apply length_map).
  pose proof (squares_summed chunk Haud) as Hsq. fold a V in Hsq.
  pose proof (umr_sum_summed a V Hsq ltac:(rewrite La; exact Hn2)) as Hsum.
  rewrite La in Hsum.
  pose proof (threshold_nonneg t Ht) as Ht0.
  set (N := inject_Z (Z.of_nat n)).
  assert (HN1 : 1 <= N) by (apply (inject_Z_le 1); lia).
  assert (HN2 : N <= 1048576).
  { change 1048576 with (inject_Z (2 ^ 20)). now apply inject_Z_le. }
  assert (HN0 : ~ N == 0) by (intros E; lra).
  pose proof (mean_square_eq chunk) as Hms. fold V n N in Hms.
  set (ms := mean_square chunk) in *.
  pose proof (band_pos (n + 4)) as Bp. pose proof (band_ge_1 (n + 4)) as Bg.
  unfold voice, mean32. fold a. rewrite La.
  destruct Hsum as [[S0 [s Hz]]|(_ & NS & WS & LS & HS)].
  - (* every sample is zero *)
    rewrite Hz. destruct (of_count_pos n Hn1) as [-> _].
    cbn [div64 SFdiv to32 sqrt32 SFsqrt].
    assert (Hms0 : ms == 0) by (rewrite Hms, S0; field; exact HN0).
    assert (Hf : gt_exact (S754_zero (xorb s false)) t = false).
    { apply gt_exact_false; [reflexivity|exact Ht|exact Ht0]. }
    rewrite Hf. split; [|reflexivity].
    intros H. exfalso. rewrite Hms0 in H.
    set (tt := exact t) in *. set (b := band (n + 4)) in *. nra.
  - set (S := total V) in *. set (sh := exact (umr_sum a)) in *.
    pose proof (band_le_2 n ltac:(lia)) as B2.
    pose proof (band_ge_1 n) as B1. pose proof (band_pos n) as B0.
    destruct WS as [WS1 WS2].
    assert (P100 : 0 < 2 ^ 100) by apply pow2_pos.
    assert (Q100 : 0 < 2 ^ (-100)) by apply pow2_pos.
    assert (Hsh1 : 2 ^ (-101) <= sh).
    { assert (E : 2 ^ (-100) == 2 * 2 ^ (-101)) by reflexivity.
      set (p := 2 ^ (-101)) in *. set (q := 2 ^ (-100)) in *.
      set (b := band n) in *. nra. }
    assert (Hsh2 : sh <= 2 * N * 2 ^ 100).
    { fold N in HS. set (p := 2 ^ 100) in *. set (b := band n) in *.
      assert (S * b <= S * 2) by nra. lra. }
    set (y := sh / N).
    assert (Hy : y * N == sh) by (unfold y; field; exact HN0).
    assert (HN0' : 0 < N) by lra.
    destruct (mean_spec (umr_sum a) n NS Hn1 Hn2) as [NM WM].
    { fold sh N. apply Qle_shift_div_l; [exact HN0'|].
      assert (E : 2 ^ (-101) == 8 * 2 ^ (-104)) by reflexivity.
      assert (E' : 2 ^ (-104) == 1048576 * 2 ^ (-124)) by reflexivity.
      assert (0 < 2 ^ (-124)) by apply pow2_pos.
      set (p := 2 ^ (-101)) in *. set (q := 2 ^ (-104)) in *.
      set (r := 2 ^ (-124)) in *. nra. }
    { fold sh N. apply Qle_shift_div_r; [exact HN0'|].
      assert (E : 2 ^ 125 == 33554432 * 2 ^ 100) by reflexivity.
      set (p := 2 ^ 100) in *. set (q := 2 ^ 125) in *. nra. }
    fold sh N y in WM.
    set (mh := to32 (div64 (umr_sum a) (of_count n))) in *.
    destruct (sqrt_spec mh NM) as [NR WR].
    set (rh := sqrt32 mh) in *.
    pose proof (normal_pos rh NR) as Hr0.
    pose proof (normal_pos mh NM) as Hm0.
    pose proof (step_pos prec32) as U.
    (* the squared root against the exact mean square *)
    assert (Wy : within (band n) y ms).
    { unfold within. split.
      - apply (Qmult_le_r _ _ N HN0').
        setoid_replace (ms * N) with S by (rewrite Hms; field; exact HN0).
        setoid_replace (y * band n * N) with (y * N * band n) by ring.
        rewrite Hy. exact WS1.
      - apply (Qmult_le_r _ _ N HN0').
        setoid_replace (ms * band n * N) with (ms * N * band n) by ring.
        setoid_replace (ms * N) with S by (rewrite Hms; field; exact HN0).
        rewrite Hy. exact WS2. }
    assert (Hb4 : band (n + 4) ==
                  (1 + step prec32) * (1 + step prec32)
                  * ((1 + step prec32) * (1 + step prec32)) * band n).
    { rewrite band_add. unfold band at 2. change (Z.of_nat 4) with 4%Z.
      set (w := 1 + step prec32). simpl (w ^ 4). ring. }
    assert (W : within (band (n + 4)) (exact rh * exact rh) ms).
    { eapply within_eq; [symmetry; exact Hb4|reflexivity|reflexivity|].
      apply within_trans with y; [nra|lra| |exact Wy].
      apply within_trans with (exact mh); [nra|nra|exact WR|exact WM]. }
    destruct W as [W1 W2].
    set (tt := exact t) in *. set (r := exact rh) in *.
    set (b := band (n + 4)) in *.
    split.
    + intros H. apply (gt_exact_spec rh t (normal_threshold rh NR) Ht).
      fold tt r.
      destruct (Qlt_le_dec tt r) as [|Hle]; [assumption|exfalso].
      assert (r * r <= tt * tt) by nra.
      assert (r * r * b <= tt * tt * b) by nra.
      lra.
    + intros H. apply gt_exact_false;
        [exact (normal_threshold rh NR)|exact Ht|].
      fold tt r.
      destruct (Qlt_le_dec tt r) as [Hlt|]; [exfalso|assumption].
      assert (tt * tt < r * r) by nra.
      lra.
Qed.

(** C8, amended.  [_detect_voice_activity] depends on the recorder
    through [vad_threshold] only, and on a chunk of [float32] samples it
    answers as the exact root-mean-square energy does, as long as that
    energy is not next to the threshold.  For a chunk of 1 to [2^20]
    samples that are zero or of a magnitude from [2^-50] up to [2^50],
    and a threshold [t >= 0]: when the exact mean of the squares is
    greater than [t^2] by more than the factor [band (n + 4)], that is
    [(1 + 2^-23)^(n + 4)], the answer is [True]; when it is smaller than
    [t^2] by that factor or more, it is [False].  (The energy exceeds
    [t] exactly when the mean of the squares exceeds [t^2].) *)
Theorem voice_activity_tracks_exact_rms (r r' : Vad.recorder spec_float)
    (chunk : list spec_float) :
  (1 <= length chunk)%nat ->
  (Z.of_nat (length chunk) <= 2 ^ 20)%Z ->
  forallb audible chunk = true ->
  threshold (Vad.vad_threshold r) = true ->
  let t := exact (Vad.vad_threshold r) in
  let k := band (length chunk + 4) in
  (t * t * k < mean_square chunk ->
   Vad._detect_voice_activity r chunk = true) /\
  (mean_square chunk * k <= t * t ->
   Vad._detect_voice_activity r chunk = false) /\
  (Vad.vad_threshold r' = Vad.vad_threshold r ->
   Vad._detect_voice_activity r' chunk = Vad._detect_voice_activity r chunk).
Proof.
  intros Hn1 Hn2 Haud Ht t k.
  destruct (rms32_tracks chunk (Vad.vad_threshold r) Hn1 Hn2 Haud Ht)
    as [H1 H2].
  split; [exact H1|]. split; [exact H2|].
  intros E. unfold Vad._detect_voice_activity. now rewrite E.
Qed.

Lemma voice_activity_tracks_exact_rms_witness :
  Vad._detect_voice_activity Setups.listener32 Setups.loud32 = true /\
  Vad._detect_voice_activity Setups.listener32 Setups.quiet32 = false.
Proof.
  split.
  - apply (proj1 (voice_activity_tracks_exact_rms
                    Setups.listener32 Setups.listener32 Setups.loud32
                    ltac:(vm_compute; lia) ltac:(vm_compute; discriminate)
                    ltac:(vm_compute; reflexivity)
                    ltac:(vm_compute; reflexivity))).
    vm_compute. reflexivity.
  - apply (proj1 (proj2 (voice_activity_tracks_exact_rms
                    Setups.listener32 Setups.listener32 Setups.quiet32
                    ltac:(vm_compute; lia) ltac:(vm_compute; discriminate)
                    ltac:(vm_compute; reflexivity)
                    ltac:(vm_compute; reflexivity)))).
    vm_compute. discriminate.
Defined.

(** C8 as stated fails next to the threshold.  The three samples of
    [at_the_threshold] have an exact root-mean-square energy above 0.01
    (the mean of their squares is above the square of the threshold),
    and the detector answers [False]: the [float32] energy is
    0.0099999997..., the [float32] just below 0.01, whether the
    threshold is compared as the [float64] 0.01 or as that [float32]. *)
Lemma energy_above_threshold_classified_silence :
  let t := exact (Vad.vad_threshold Setups.listener32) in
  forallb audible Setups.at_the_threshold = true /\
  t * t < mean_square Setups.at_the_threshold /\
  Vad._detect_voice_activity Setups.listener32 Setups.at_the_threshold
    = false /\
  Vad._detect_voice_activity Setups.listener32_weak Setups.at_the_threshold
    = false.
Proof.
  cbv zeta. split; [vm_compute; reflexivity|].
  split; [vm_compute; reflexivity|].
  split; vm_compute; reflexivity.
Qed.

(** The detector on [float32] samples. *)
Example loud32_is_voice :
  Vad._detect_voice_activity Setups.listener32 Setups.loud32 = true.
Proof. vm_compute. reflexivity. Qed.

Example no_samples_is_silence :
  Vad._detect_voice_activity Setups.listener32 [] = false.
Proof. vm_compute. reflexivity. Qed.

(** A sample whose square is too small for [float32] counts as zero:
    eight samples of [2^-80] are silence for the threshold [2^-90]. *)
Example underflow_is_silence :
  let r := Listening.set_vad_threshold (f32 1 (-90)) Setups.listener32 in
  let chunk := repeat (f32 1 (-80)) 8 in
  exact (Vad.vad_threshold r) * exact (Vad.vad_threshold r)
    < mean_square chunk /\
  Vad._detect_voice_activity r chunk = false.
Proof. cbv zeta. split; vm_compute; reflexivity. Qed.

End Float32Facts.
